(** * Mario Kart World music scripts: scrape, download, convert, verify

    A shallow embedding of the four Python scripts
    [generate_download_urls.py], [download_mkw_music.py],
    [convert_to_alac.py] and [verify_downloads.py], and the properties of
    their behaviour.

    Python strings are sequences of Unicode code points and [bytes] are
    sequences of octets; both are lists of numbers here.  Dictionaries and
    sets are stdpp's [gmap] and [gset]. *)

From Stdlib Require Import NArith ZArith QArith Qround Qabs Lia Lqa Ascii String
  DecimalString.
From stdpp Require Import base decidable option list sorting gmap sets.

Local Open Scope N_scope.
Local Open Scope list_scope.

(** ** Text *)

(** A code point of a Python [str]. *)
Abbreviation char := N.
(** A Python [str]. *)
Abbreviation str := (list N).
(** A Python [bytes] value. *)
Abbreviation bytes := (list N).

(** An ASCII literal of the scripts, as code points. *)
Definition lit (s : string) : str :=
  map N_of_ascii (list_ascii_of_string s).

Arguments lit : simpl never.

(** The double quote, which a literal cannot hold. *)
Definition dquote : char := 34.

(** [Py_UNICODE_ISSPACE]: what [str.strip()] removes and what [\s] matches
    in a [str] pattern. *)
Definition isspace (c : char) : bool :=
  ((9 <=? c) && (c <=? 13)) || ((28 <=? c) && (c <=? 32))
  || (c =? 133) || (c =? 160) || (c =? 5760)
  || ((8192 <=? c) && (c <=? 8202))
  || (c =? 8232) || (c =? 8233) || (c =? 8239) || (c =? 8287) || (c =? 12288).

(** [s.startswith(p)]. *)
Fixpoint starts_with (p s : str) : bool :=
  match p, s with
  | [], _ => true
  | _ :: _, [] => false
  | a :: p', b :: s' => (a =? b) && starts_with p' s'
  end.

(** [needle in hay]. *)
Fixpoint contains (needle hay : str) : bool :=
  starts_with needle hay ||
  match hay with
  | [] => false
  | _ :: t => contains needle t
  end.

(** [s.split(sep)[0]] for a separator that is not empty: the text before
    the first occurrence of [sep], all of [s] when there is none. *)
Fixpoint split_head (sep s : str) : str :=
  if starts_with sep s then []
  else match s with
       | [] => []
       | c :: t => c :: split_head sep t
       end.

(** The scan of [str.replace]: [skip] is what is left of an occurrence of
    [old] that has just been replaced. *)
Fixpoint replace_from (old new : str) (skip : nat) (s : str) : str :=
  match s with
  | [] => []
  | c :: t =>
      match skip with
      | S k => replace_from old new k t
      | O =>
          if starts_with old s
          then new ++ replace_from old new (length old - 1) t
          else c :: replace_from old new 0 t
      end
  end.

(** [s.replace(old, new)]: every occurrence, leftmost first, none
    overlapping.  An empty [old] matches before every character and at the
    end. *)
Definition replace (old new s : str) : str :=
  match old with
  | [] => new ++ flat_map (fun c => c :: new) s
  | _ :: _ => replace_from old new 0 s
  end.

(** [s.lstrip()]. *)
Fixpoint lstrip (s : str) : str :=
  match s with
  | [] => []
  | c :: t => if isspace c then lstrip t else s
  end.

(** [s.rstrip()]. *)
Definition rstrip (s : str) : str := reverse (lstrip (reverse s)).

(** [s.strip()]. *)
Definition strip (s : str) : str := rstrip (lstrip s).

(** The order of [str]: code point by code point, a text before the
    texts it starts. *)
Fixpoint str_leb (s t : str) : bool :=
  match s, t with
  | [], _ => true
  | _ :: _, [] => false
  | a :: s', b :: t' => (a <? b) || ((a =? b) && str_leb s' t')
  end.

Definition str_le (s t : str) : Prop := str_leb s t = true.

#[global] Instance str_le_dec : RelDecision str_le :=
  fun s t => decide (str_leb s t = true).

(** [sorted(names)] of texts: the names in ascending order. *)
Definition sorted (names : list str) : list str := merge_sort str_le names.

(** ** [sanitize_filename]

    The three scripts that name files ([generate_download_urls.py],
    [download_mkw_music.py], [verify_downloads.py]) each carry the same
    text of this function. *)

(** [invalid_chars]: the nine characters replaced by an underscore, in the
    order the loop visits them. *)
Definition invalid_chars : str :=
  lit "<>:" ++ [dquote] ++ lit "/\|?*".

Definition sanitize_filename (filename : str) : str :=
  let filename :=
    fold_left (fun filename c => replace [c] (lit "_") filename)
              invalid_chars filename in
  strip filename.

(** ** The Python runtime

    What the interpreter and its libraries decide and the scripts do not:
    their behaviour on ASCII text is written out below, and what they do
    beyond it is a field here. *)
Class Runtime := {
  (** Unicode decimal digits (category Nd) outside ASCII. *)
  nd_nonascii : char -> bool;
  (** [urllib.parse.unquote] on a text that holds a percent sign. *)
  unquote_escapes : str -> str;
  (** [bytes.decode('utf-8', errors='ignore')] on bytes that are not all
      below 128. *)
  decode_nonascii : bytes -> str;
  (** [str.lower()] on a text that is not all ASCII. *)
  lower_nonascii : str -> str;
  (** The text of the [HTTPError] that [raise_for_status] raises, from the
      status code and the URL. *)
  http_error_text : N -> str -> str;
  (** Rounding of an exact result to a float. *)
  float_round : Q -> Q;
  (** The headers a new [requests.Session] starts with. *)
  session_defaults : gmap str str
}.

Section Text.
Context `{Runtime}.

(** [\d] in a [str] pattern. *)
Definition isdigit (c : char) : bool :=
  if c <? 128 then (48 <=? c) && (c <=? 57) else nd_nonascii c.

(** [urllib.parse.unquote]: a text without a percent sign is returned as
    it is. *)
Definition unquote (s : str) : str :=
  if contains (lit "%") s then unquote_escapes s else s.

Definition is_ascii (s : list N) : bool := forallb (fun c => c <? 128) s.

(** [b.decode('utf-8', errors='ignore')]. *)
Definition decode_ignore (b : bytes) : str :=
  if is_ascii b then b else decode_nonascii b.

Definition ascii_lower (c : char) : char :=
  if (65 <=? c) && (c <=? 90) then c + 32 else c.

(** [s.lower()]. *)
Definition lower (s : str) : str :=
  if is_ascii s then map ascii_lower s else lower_nonascii s.

End Text.

(** ** Regular expressions

    The fragment of [re] the song pattern is written in: literal text and
    greedy repetitions of a character class, captured or not. *)
Inductive atom :=
| Lit (text : str)
| Many (cls : char -> bool) (least : nat) (capture : bool).

(** The longest run of [cls] at the head of [s], and what follows it. *)
Fixpoint span (cls : char -> bool) (s : str) : str * str :=
  match s with
  | [] => ([], [])
  | c :: t =>
      if cls c then let '(run, rest) := span cls t in (c :: run, rest)
      else ([], s)
  end.

(** Backtracking of a greedy repetition: [taken_rev] is what the
    repetition holds, last character first; the continuation [k] is tried
    on the longest run first, and one character is given back at a time as
    long as [least] remain. *)
Fixpoint give_back {A} (k : str -> str -> option A) (least : nat)
    (taken_rev rest : str) : option A :=
  if (least <=? length taken_rev)%nat then
    match k (reverse taken_rev) rest with
    | Some r => Some r
    | None =>
        match taken_rev with
        | [] => None
        | c :: taken_rev' => give_back k least taken_rev' (c :: rest)
        end
    end
  else None.

(** A match of the pattern [p] at the head of [s]: the captured groups and
    the text after the match. *)
Fixpoint match_here (p : list atom) (s : str) : option (list str * str) :=
  match p with
  | [] => Some ([], s)
  | Lit text :: p' =>
      if starts_with text s then match_here p' (drop (length text) s)
      else None
  | Many cls least capture :: p' =>
      let '(run, rest) := span cls s in
      give_back
        (fun taken rest' =>
           match match_here p' rest' with
           | Some (groups, after) =>
               Some ((if capture then [taken] else []) ++ groups, after)
           | None => None
           end)
        least (reverse run) rest
  end.

(** The scan of [re.findall]: after a match the search resumes where the
    match ended ([skip] characters further).  The patterns here start with
    a literal, so no match is empty. *)
Fixpoint findall_from (p : list atom) (skip : nat) (s : str)
    : list (list str) :=
  match s with
  | [] => []
  | _ :: t =>
      match skip with
      | S k => findall_from p k t
      | O =>
          match match_here p s with
          | Some (groups, after) =>
              groups :: findall_from p (length s - length after - 1) t
          | None => findall_from p 0 t
          end
      end
  end.

(** [re.findall(p, s)]. *)
Definition findall (p : list atom) (s : str) : list (list str) :=
  findall_from p 0 s.

(** ** The scrape *)

(** The outcome of [requests.get(url)] followed by [raise_for_status()] on
    the game page: its text, or the exception raised. *)
Inductive fetched :=
| Page (html : str)
| FetchError (msg : str).

Section Scrape.
Context `{Runtime}.

(** The song pattern of the three scrapers: a table row whose id is [s]
    and digits, white space, a cell, a link to [/song/] and digits, and the
    link's text up to the closing tag. *)
Definition song_pattern : list atom :=
  [ Lit (lit "<tr id=" ++ [dquote] ++ lit "s");
    Many isdigit 1 true;
    Lit ([dquote] ++ lit ">");
    Many isspace 0 false;
    Lit (lit "<td");
    Many (fun c => negb (c =? 62)) 0 false;
    Lit (lit "><a href=" ++ [dquote] ++ lit "/song/");
    Many isdigit 1 false;
    Lit ([dquote] ++ lit ">");
    Many (fun c => negb (c =? 60)) 1 true;
    Lit (lit "</a>") ].

(** The name of a song as the scrapers clean it:
    [unquote(song_name.replace('&#039;', "'").replace('&amp;', '&'))]. *)
Definition clean_name (song_name : str) : str :=
  unquote (replace (lit "&amp;") (lit "&")
             (replace (lit "&#039;") (lit "'") song_name)).

(** [https://smashcustommusic.net] *)
Definition site : str := lit "https://smashcustommusic.net".
Definition game_page_url : str := site ++ lit "/game/5609".

(** The marker of the fan-made section of the game page. *)
Definition remix_marker : str := lit "Remixes / Fanmade".

(** [html.split(marker)[0] if marker in html else html] *)
Definition main_songs_section (html : str) : str :=
  if contains remix_marker html then split_head remix_marker html else html.

End Scrape.

(** *** [generate_download_urls.py] *)
Module Generate.

Record Song := {
  id : str;
  name : str;
  page_url : str;
  download_url : str
}.

Section Generate.
Context `{Runtime}.

(** The loop over the matches. *)
Definition songs_of (matches : list (list str)) : list Song :=
  flat_map
    (fun m =>
       match m with
       | [song_id; song_name] =>
           [ {| id := song_id;
                name := clean_name song_name;
                page_url := site ++ lit "/song/" ++ song_id;
                download_url := site ++ lit "/brstm/" ++ song_id |} ]
       | _ => []
       end)
    matches.

(** [fetch_song_data]: the songs of the whole page; the empty list when the
    page could not be fetched. *)
Definition fetch_song_data (r : fetched) : list Song :=
  match r with
  | Page html => songs_of (findall song_pattern html)
  | FetchError _ => []
  end.

End Generate.
End Generate.

(** ** Effects

    A script runs against a state (the file system, the session, the
    console) and ends in a value, in a raised exception, or in
    [sys.exit]. *)

(** An exception: the name of its class and [str(e)]. *)
Record exn := { exn_type : str; exn_msg : str }.

Inductive result (A : Type) :=
| Ok (a : A)
| Raised (e : exn)
| SystemExit (code : N).
Arguments Ok {A} a.
Arguments Raised {A} e.
Arguments SystemExit {A} code.

Definition Run (S A : Type) : Type := S -> result A * S.

Definition run_ret {S A} (a : A) : Run S A := fun w => (Ok a, w).

Definition run_bind {S A B} (m : Run S A) (k : A -> Run S B) : Run S B :=
  fun w =>
    match m w with
    | (Ok a, w') => k a w'
    | (Raised e, w') => (Raised e, w')
    | (SystemExit c, w') => (SystemExit c, w')
    end.

#[global] Instance run_mret {S} : MRet (Run S) := fun A a => run_ret a.
#[global] Instance run_mbind {S} : MBind (Run S) :=
  fun A B k m => run_bind m k.

(** [raise e] *)
Definition raise {S A} (e : exn) : Run S A := fun w => (Raised e, w).

(** [sys.exit(code)] *)
Definition sys_exit {S A} (code : N) : Run S A := fun w => (SystemExit code, w).

(** [try: body  except Exception as e: handler(e)]: [SystemExit] is no
    [Exception] and passes through. *)
Definition try_except {S A} (body : Run S A) (handler : exn -> Run S A)
    : Run S A :=
  fun w =>
    match body w with
    | (Raised e, w') => handler e w'
    | r => r
    end.

(** [try: body  except cls: handler]: only exceptions of class [cls]. *)
Definition try_except_class {S A} (cls : str) (body : Run S A)
    (handler : Run S A) : Run S A :=
  fun w =>
    match body w with
    | (Raised e, w') =>
        if decide (exn_type e = cls) then handler w' else (Raised e, w')
    | r => r
    end.

Definition get_state {S} : Run S S := fun w => (Ok w, w).
Definition modify {S} (f : S -> S) : Run S unit := fun w => (Ok tt, f w).

(** A [for] loop whose body is [f]. *)
Fixpoint for_each {S A} (f : A -> Run S unit) (l : list A) : Run S unit :=
  match l with
  | [] => mret tt
  | x :: l' => f x;; for_each f l'
  end.

(** The tasks of a list, each run to its end before the next starts, with
    their values in that order. *)
Fixpoint sequence {S A} (tasks : list (Run S A)) : Run S (list A) :=
  match tasks with
  | [] => mret []
  | t :: tasks' => a ← t; l ← sequence tasks'; mret (a :: l)
  end.

(** [str(n)] for a count. *)
Definition str_of_nat (n : nat) : str :=
  lit (NilEmpty.string_of_uint (Nat.to_uint n)).

(** [str(n)] for a size. *)
Definition str_of_N (n : N) : str :=
  lit (NilEmpty.string_of_uint (N.to_uint n)).

(** Rounding to the nearest integer, a tie to the even one. *)
Definition round_half_even (x : Q) : Z :=
  let below := Qfloor x in
  match Qcompare (x - inject_Z below)%Q (1 # 2)%Q with
  | Lt => below
  | Gt => (below + 1)%Z
  | Eq => if Z.even below then below else (below + 1)%Z
  end.

(** The digits of [n], with zeros in front up to [width] of them. *)
Definition zero_padded (width : nat) (n : N) : str :=
  repeat 48 (width - length (str_of_N n)) ++ str_of_N n.

(** [f"{x:.<digits>f}"] of a float [x]: its value rounded to [digits]
    decimals, a tie to the even digit. *)
Definition format_fixed (digits : nat) (x : Q) : str :=
  let scale := (10 ^ Z.of_nat digits)%Z in
  let n := Z.to_N (round_half_even (Qabs x * inject_Z scale)%Q) in
  (if Qlt_le_dec x 0%Q then lit "-" else [])
  ++ str_of_N (n / Z.to_N scale)
  ++ (if decide (digits = 0%nat) then []
      else lit "." ++ zero_padded digits (n mod Z.to_N scale)).

(** A path: the directory and the file name, as [pathlib] splits it. *)
Record path := { parent : str; fname : str }.

(** [str(p)] *)
Definition path_str (p : path) : str := parent p ++ lit "/" ++ fname p.

(** [dir / name] *)
Definition in_dir (dir name : str) : path := {| parent := dir; fname := name |}.

(** [s.endswith(suffix)] *)
Definition ends_with (suffix s : str) : bool :=
  starts_with (reverse suffix) (reverse s).

(** [s.rfind('.')]: the index of the last dot. *)
Fixpoint rfind_dot (s : str) : option nat :=
  match s with
  | [] => None
  | c :: t =>
      match rfind_dot t with
      | Some i => Some (S i)
      | None => if c =? 46 then Some 0%nat else None
      end
  end.

(** [p.suffix]: the file name from its last dot on, when that dot is
    neither its first nor its last character. *)
Definition suffix (p : path) : str :=
  match rfind_dot (fname p) with
  | Some i =>
      if decide (0 < i < length (fname p) - 1)%nat then drop i (fname p)
      else []
  | None => []
  end.

(** [p.stem]: the file name without its suffix. *)
Definition stem (p : path) : str :=
  take (length (fname p) - length (suffix p)) (fname p).

(** [p.with_suffix(s)] *)
Definition with_suffix (s : str) (p : path) : path :=
  {| parent := parent p; fname := stem p ++ s |}.

(** [dir.glob('*' + ending)] over the files [fs]: the paths of the files
    of [dir] whose name ends in [ending], in the order the system lists
    them. *)
Definition glob (dir ending : str) (fs : gmap str bytes) : list path :=
  omap
    (fun '(key, _) =>
       if starts_with (dir ++ lit "/") key then
         let name := drop (length (dir ++ lit "/")) key in
         if negb (existsb (N.eqb 47) name) && ends_with ending name
         then Some (in_dir dir name)
         else None
       else None)
    (map_to_list fs).

(** A task in an executor: it runs to its end, and its exception, if it
    raises one, is kept in its future. *)
Definition attempt {S A} (task : Run S A) : Run S (exn + A) :=
  fun w =>
    match task w with
    | (Ok a, w') => (Ok (inr a), w')
    | (Raised e, w') => (Ok (inl e), w')
    | (SystemExit c, w') => (SystemExit c, w')
    end.

(** [future.result()]: the task's value, or its exception raised again. *)
Definition future_result {S A} (future : exn + A) : Run S A :=
  match future with
  | inl e => raise e
  | inr a => mret a
  end.

(** [as_completed(futures)]: every future once, in the order in which
    they complete, which the script does not decide: at each turn [next]
    tells which of the futures not yet yielded comes. *)
Fixpoint yield_next {A} (next : nat -> nat) (turn todo : nat)
    (rest : list A) : list A :=
  match todo with
  | O => []
  | S todo' =>
      let k := (next turn mod length rest)%nat in
      match rest !! k with
      | Some future =>
          future :: yield_next next (S turn) todo' (delete k rest)
      | None => []
      end
  end.

Definition as_completed {A} (next : nat -> nat) (futures : list A)
    : list A :=
  yield_next next 0 (length futures) futures.

(** The line printed for an item: [[index/total]], a mark and the text. *)
Definition status_line (index total : nat) (mark text : str) : str :=
  lit "[" ++ str_of_nat index ++ lit "/" ++ str_of_nat total ++ lit "] "
  ++ mark ++ text.

(** The marks: a cross, a skip sign (followed by two spaces), a check. *)
Definition mark_failed : str := [10060; 32].
Definition mark_skipped : str := [9197; 65039; 32; 32].
Definition mark_done : str := [9989; 32].

(** *** [download_mkw_music.py] *)
Module Download.

Record Song := {
  id : str;
  name : str;
  url : str
}.

(** A request as the server sees it: the URL and the session's headers at
    the time of the call. *)
Record Request := {
  req_url : str;
  req_headers : gmap str str
}.

(** A response: the status code, the [content-type] header when there is
    one, the body as the chunks [iter_content] yields, and the exception
    that ends the body early when the connection breaks. *)
Record Response := {
  status_code : N;
  content_type : option str;
  chunks : list bytes;
  broken : option exn
}.

(** What [session.get] does: raise (no connection, a timeout) or return a
    response. *)
Inductive Reply :=
| Refused (e : exn)
| Answer (r : Response).

(** What a run does towards the network and the clock, in order. *)
Inductive Event :=
| Sent (r : Request)
| Slept (seconds : Q).

(** What the script does not decide: the server's reply to a request,
    which may depend on how many events came before it; the [n]-th value
    of [random.random()]; the order in which [as_completed] yields the
    futures (at each turn, which of those not yet yielded); and for [main]
    the outcome of [download_vgmstream_cli], of the fetch of the game page
    and the line the user types. *)
Record Env := {
  server : nat -> Request -> Reply;
  random : nat -> Q;
  completion : nat -> nat;
  vgmstream_cli : option str;
  game_page : fetched;
  answer : str
}.

(** The state of a run: the files and directories, the headers of the one
    session, the events so far, the number of random values drawn, the
    sizes of the executors created, and the status lines printed (one per
    song; the banners and the summary are console text only and are not
    kept). *)
Record World := {
  fs : gmap str bytes;
  dirs : gset str;
  headers : gmap str str;
  events : list Event;
  drawn : nat;
  pools : list nat;
  out : list str
}.

Definition set_fs (f : gmap str bytes -> gmap str bytes) (w : World) :=
  {| fs := f (fs w); dirs := dirs w; headers := headers w;
     events := events w; drawn := drawn w; pools := pools w; out := out w |}.
Definition set_dirs (f : gset str -> gset str) (w : World) :=
  {| fs := fs w; dirs := f (dirs w); headers := headers w;
     events := events w; drawn := drawn w; pools := pools w; out := out w |}.
Definition set_headers (f : gmap str str -> gmap str str) (w : World) :=
  {| fs := fs w; dirs := dirs w; headers := f (headers w);
     events := events w; drawn := drawn w; pools := pools w; out := out w |}.
Definition set_events (f : list Event -> list Event) (w : World) :=
  {| fs := fs w; dirs := dirs w; headers := headers w;
     events := f (events w); drawn := drawn w; pools := pools w;
     out := out w |}.
Definition set_drawn (f : nat -> nat) (w : World) :=
  {| fs := fs w; dirs := dirs w; headers := headers w;
     events := events w; drawn := f (drawn w); pools := pools w;
     out := out w |}.
Definition set_pools (f : list nat -> list nat) (w : World) :=
  {| fs := fs w; dirs := dirs w; headers := headers w;
     events := events w; drawn := drawn w; pools := f (pools w);
     out := out w |}.
Definition set_out (f : list str -> list str) (w : World) :=
  {| fs := fs w; dirs := dirs w; headers := headers w;
     events := events w; drawn := drawn w; pools := pools w;
     out := f (out w) |}.

Section Download.
Context `{Runtime} (env : Env).

(** [fetch_song_data]: the songs of the page above the fan-made section;
    the empty list when the page could not be fetched. *)
Definition songs_of (matches : list (list str)) : list Song :=
  flat_map
    (fun m =>
       match m with
       | [song_id; song_name] =>
           [ {| id := song_id;
                name := clean_name song_name;
                url := site ++ lit "/brstm/" ++ song_id |} ]
       | _ => []
       end)
    matches.

Definition fetch_song_data (r : fetched) : list Song :=
  match r with
  | Page html => songs_of (findall song_pattern (main_songs_section html))
  | FetchError _ => []
  end.

(** [print(line)] of a status line. *)
Definition print (line : str) : Run World unit :=
  modify (set_out (fun l => l ++ [line])).

(** [p.exists()] *)
Definition path_exists (p : path) : Run World bool :=
  w ← get_state; mret (bool_decide (is_Some (fs w !! path_str p))).

(** [p.mkdir(exist_ok=True)] *)
Definition mkdir (dir : str) : Run World unit :=
  modify (set_dirs (fun d => {[dir]} ∪ d)).

(** [session.headers[key] = value] *)
Definition set_header (key value : str) : Run World unit :=
  modify (set_headers <[key := value]>).

(** [session.get(url, ...)]: the request goes out with the session's
    headers as they are now. *)
Definition session_get (url : str) : Run World Response :=
  fun w =>
    let req := {| req_url := url; req_headers := headers w |} in
    let w' := set_events (fun l => l ++ [Sent req]) w in
    match server env (length (events w)) req with
    | Refused e => (Raised e, w')
    | Answer r => (Ok r, w')
    end.

(** [response.raise_for_status()]: an [HTTPError] for a status from 400
    to 599. *)
Definition raise_for_status (url : str) (r : Response) : Run World unit :=
  if (400 <=? status_code r) && (status_code r <? 600)
  then raise {| exn_type := lit "HTTPError";
                exn_msg := http_error_text (status_code r) url |}
  else mret tt.

(** [a + (b - a) * r] in floats. *)
Definition uniform (a b r : Q) : Q :=
  float_round (a + float_round (float_round (b - a) * r)).

(** [random.uniform(a, b)], which is [a + (b - a) * random()]. *)
Definition random_uniform (a b : Q) : Run World Q :=
  fun w => (Ok (uniform a b (random env (drawn w))), set_drawn S w).

(** [time.sleep(d)] *)
Definition sleep (d : Q) : Run World unit :=
  modify (set_events (fun l => l ++ [Slept d])).

Definition no_such_file (p : path) : exn :=
  {| exn_type := lit "FileNotFoundError"; exn_msg := path_str p |}.

(** [open(p, 'wb')]: the file is created or emptied; its directory has to
    exist. *)
Definition open_wb (p : path) : Run World unit :=
  fun w =>
    if decide (parent p ∈ dirs w)
    then (Ok tt, set_fs <[path_str p := []]> w)
    else (Raised (no_such_file p), w).

(** [f.write(chunk)] on the file opened at [p]. *)
Definition write (p : path) (chunk : bytes) : Run World unit :=
  modify (set_fs (alter (fun c => c ++ chunk) (path_str p))).

(** [p.stat().st_size] *)
Definition stat_size (p : path) : Run World N :=
  fun w =>
    match fs w !! path_str p with
    | Some c => (Ok (N.of_nat (length c)), w)
    | None => (Raised (no_such_file p), w)
    end.

(** [open(p, 'rb').read()] *)
Definition read_file (p : path) : Run World bytes :=
  fun w =>
    match fs w !! path_str p with
    | Some c => (Ok c, w)
    | None => (Raised (no_such_file p), w)
    end.

(** [p.unlink()] *)
Definition unlink (p : path) : Run World unit :=
  fun w =>
    match fs w !! path_str p with
    | Some _ => (Ok tt, set_fs (delete (path_str p)) w)
    | None => (Raised (no_such_file p), w)
    end.

(** [response.content]: the whole body, or the exception that broke it. *)
Definition response_content (r : Response) : Run World bytes :=
  match broken r with
  | Some e => raise e
  | None => mret (concat (chunks r))
  end.

Definition song_page_url_of (song : Song) : str :=
  site ++ lit "/song/" ++ id song.

(** [output_dir / f"{sanitize_filename(song['name'])}.brstm"] *)
Definition filepath_of (output_dir : str) (song : Song) : path :=
  in_dir output_dir (sanitize_filename (name song) ++ lit ".brstm").

(** The steps of [download_song], in the order of its text. *)

(** Steps 1 and 2: the visit of the song page with the game page as
    referrer, the delay, and the request for the file with the song page
    as referrer. *)
Definition request_file (song : Song) : Run World Response :=
  let song_page_url := song_page_url_of song in
  set_header (lit "Referer") game_page_url;;
  response ← session_get song_page_url;
  raise_for_status song_page_url response;;
  delay ← random_uniform 1 3;
  sleep delay;;
  set_header (lit "Referer") song_page_url;;
  response ← session_get (url song);
  raise_for_status (url song) response;;
  mret response.

(** The check of the content type: whether the bot protection answered,
    and the body that is left to write with the exception that may end it.
    Once [response.content] has been read, [iter_content] yields that
    content again and cannot break. *)
Definition sniff (response : Response)
    : Run World (bool * list bytes * option exn) :=
  let content_type := default [] (content_type response) in
  if contains (lit "text/html") content_type then
    content ← response_content response;
    let error_check := decode_ignore (take 500 content) in
    mret (contains (lit "unusual activity") error_check
          || contains (lit "robot") error_check,
          [content], None)
  else mret (false, chunks response, broken response).

(** The [with open(filepath, 'wb')] block: every chunk that is not empty
    is written, and the exception that ends the body leaves what was
    written. *)
Definition save_body (filepath : path) (body : list bytes)
    (ending : option exn) : Run World unit :=
  open_wb filepath;;
  for_each
    (fun chunk => if decide (chunk = []) then mret tt else write filepath chunk)
    body;;
  match ending with
  | Some e => raise e
  | None => mret tt
  end.

(** The check of the written file: a file under 1000 bytes whose text
    holds [html] is deleted. *)
Definition check_saved (song : Song) (filepath : path) : Run World str :=
  size ← stat_size filepath;
  error_page ←
    (if size <? 1000 then
       content ← read_file filepath;
       mret (contains (lit "html") (lower (decode_ignore content)))
     else mret false);
  if error_page : bool then
    unlink filepath;;
    mret (lit "Failed: " ++ name song
          ++ lit " - Got error page instead of file")
  else
    mret (lit "Downloaded: " ++ name song).

(** The body of the [try] of [download_song]. *)
Definition download_song_body (song : Song) (output_dir : str)
    : Run World str :=
  let filepath := filepath_of output_dir song in
  present ← path_exists filepath;
  if present : bool then
    mret (lit "Skipped (already exists): " ++ name song)
  else
    response ← request_file song;
    '(bot, body, ending) ← sniff response;
    if bot : bool then
      mret (lit "Failed: " ++ name song ++ lit " - Bot protection triggered")
    else
      save_body filepath body ending;;
      check_saved song filepath.

(** [download_song(song, output_dir, session)] *)
Definition download_song (song : Song) (output_dir : str) : Run World str :=
  try_except (download_song_body song output_dir)
    (fun e => mret (lit "Failed: " ++ name song ++ lit " - " ++ exn_msg e)).

(** The [User-Agent] of the session. *)
Definition user_agent : str :=
  lit "Mozilla/5.0 (Macintosh; Intel Mac OS X 10_15_7) AppleWebKit/537.36 (KHTML, like Gecko) Chrome/118.0.0.0 Safari/537.36".

(** The headers [download_all_songs] gives the session. *)
Definition browser_headers : gmap str str :=
  list_to_map
    [ (lit "User-Agent", user_agent);
      (lit "Accept",
       lit "text/html,application/xhtml+xml,application/xml;q=0.9,image/webp,*/*;q=0.8");
      (lit "Accept-Language", lit "en-US,en;q=0.5");
      (lit "Accept-Encoding", lit "gzip, deflate, br");
      (lit "DNT", lit "1");
      (lit "Connection", lit "keep-alive");
      (lit "Upgrade-Insecure-Requests", lit "1") ].

(** [requests.Session()] followed by [session.headers.update(...)]. *)
Definition new_session : Run World unit :=
  modify (set_headers (fun _ => browser_headers ∪ session_defaults)).

(** [ThreadPoolExecutor(max_workers=n)] *)
Definition thread_pool (max_workers : nat) : Run World unit :=
  if decide (max_workers = 0)%nat then
    raise {| exn_type := lit "ValueError";
             exn_msg := lit "max_workers must be greater than 0" |}
  else modify (set_pools (fun l => l ++ [max_workers])).

(** The loop over the futures as [as_completed] yields them: [completed]
    and [failed] are the counters before the result is taken. *)
Fixpoint report (total completed failed : nat) (futures : list (exn + str))
    : Run World (nat * nat) :=
  match futures with
  | [] => mret (completed, failed)
  | future :: futures' =>
      result ← future_result future;
      let completed := S completed in
      if contains (lit "Failed") result then
        print (status_line completed total mark_failed result);;
        report total completed (S failed) futures'
      else if contains (lit "Skipped") result then
        print (status_line completed total mark_skipped result);;
        report total completed failed futures'
      else
        print (status_line completed total mark_done result);;
        report total completed failed futures'
  end.

(** [download_all_songs(songs, max_workers=1)]: [None] is a call that
    leaves [max_workers] out.  The submitted tasks run in submission
    order, each to its end before the next starts: the schedule of a pool
    of one worker, which is what [main] creates; the tasks of a pool of
    more workers overlap, and what they then do to the one session is not
    described here.  The lines are printed in the order in which
    [as_completed] yields the futures.  The value is the pair of counters
    [(completed, failed)] the summary prints. *)
Definition download_all_songs (songs : list Song) (max_workers : option nat)
    : Run World (nat * nat) :=
  let max_workers := default 1%nat max_workers in
  let output_dir := lit "mkw_music_brstm" in
  mkdir output_dir;;
  new_session;;
  thread_pool max_workers;;
  futures ← sequence
              (map (fun song => attempt (download_song song output_dir))
                   songs);
  report (length songs) 0 0 (as_completed (completion env) futures).

(** [main()], up to the call of [download_all_songs]; the helper shell
    script written after it is not modelled. *)
Definition main : Run World unit :=
  match vgmstream_cli env with
  | None | Some [] => sys_exit 1
  | Some _ =>
      let songs := fetch_song_data (game_page env) in
      if decide (songs = []) then sys_exit 1
      else if decide (lower (answer env) = lit "y") then
        download_all_songs songs None;;
        mret tt
      else sys_exit 0
  end.

End Download.

(** **** The executor as a machine

    A pool of [workers] threads: a submitted task waits until a worker is
    free, runs, and completes. *)
Record Pool := {
  waiting : nat;
  running : nat;
  completed : nat
}.

Inductive pool_step (workers : nat) : Pool -> Pool -> Prop :=
| start_task p :
    (0 < waiting p)%nat -> (running p < workers)%nat ->
    pool_step workers p
      {| waiting := waiting p - 1; running := S (running p);
         completed := completed p |}
| finish_task p :
    (0 < running p)%nat ->
    pool_step workers p
      {| waiting := waiting p; running := running p - 1;
         completed := S (completed p) |}.

(** The states a pool goes through once [n] tasks are submitted. *)
Inductive pool_reaches (workers n : nat) : Pool -> Prop :=
| pool_submitted :
    pool_reaches workers n {| waiting := n; running := 0; completed := 0 |}
| pool_next p q :
    pool_reaches workers n p -> pool_step workers p q ->
    pool_reaches workers n q.

End Download.

(** *** [convert_to_alac.py] *)
Module Convert.

Definition VGMSTREAM : str :=
  lit "/Users/ethan/sandbox/marioworld/vgmstream/vgmstream-cli".
Definition INPUT_DIR : str := lit "mkw_music_brstm".
Definition OUTPUT_DIR : str := lit "mkw_music_alac".

(** What an external command does: it cannot be started (the program is
    not found), or it exits with a return code, having written (or not) the
    file it was given as its output. *)
Inductive Exit :=
| NotStarted (msg : str)
| Exited (returncode : Z) (written : option bytes).

(** What the script does not decide: the number of CPUs, the behaviour
    of the external commands, from their argument list and the files they
    find, and the order in which [as_completed] yields the futures (at
    each turn, which of those not yet yielded). *)
Record Env := {
  cpu_count : nat;
  run_process : list str -> gmap str bytes -> Exit;
  completion : nat -> nat
}.

(** The state of a run: the files and directories, the commands run, the
    sizes of the executors created, the pairs of input and output path
    submitted to an executor, and the status lines printed (one per input
    file; the banners and the summary are console text only and are not
    kept). *)
Record World := {
  fs : gmap str bytes;
  dirs : gset str;
  procs : list (list str);
  pools : list nat;
  submitted : list (path * path);
  out : list str
}.

Definition set_fs (f : gmap str bytes -> gmap str bytes) (w : World) :=
  {| fs := f (fs w); dirs := dirs w; procs := procs w; pools := pools w;
     submitted := submitted w; out := out w |}.
Definition set_dirs (f : gset str -> gset str) (w : World) :=
  {| fs := fs w; dirs := f (dirs w); procs := procs w; pools := pools w;
     submitted := submitted w; out := out w |}.
Definition set_procs (f : list (list str) -> list (list str)) (w : World) :=
  {| fs := fs w; dirs := dirs w; procs := f (procs w); pools := pools w;
     submitted := submitted w; out := out w |}.
Definition set_pools (f : list nat -> list nat) (w : World) :=
  {| fs := fs w; dirs := dirs w; procs := procs w; pools := f (pools w);
     submitted := submitted w; out := out w |}.
Definition set_submitted (f : list (path * path) -> list (path * path))
    (w : World) :=
  {| fs := fs w; dirs := dirs w; procs := procs w; pools := pools w;
     submitted := f (submitted w); out := out w |}.
Definition set_out (f : list str -> list str) (w : World) :=
  {| fs := fs w; dirs := dirs w; procs := procs w; pools := pools w;
     submitted := submitted w; out := f (out w) |}.

Section Convert.
Context (env : Env).

Definition print (line : str) : Run World unit :=
  modify (set_out (fun l => l ++ [line])).

(** [p.exists()] for a file. *)
Definition path_exists (p : path) : Run World bool :=
  w ← get_state; mret (bool_decide (is_Some (fs w !! path_str p))).

Definition mkdir (dir : str) : Run World unit :=
  modify (set_dirs (fun d => {[dir]} ∪ d)).

(** [p.unlink()] *)
Definition unlink (p : path) : Run World unit :=
  fun w =>
    match fs w !! path_str p with
    | Some _ => (Ok tt, set_fs (delete (path_str p)) w)
    | None =>
        (Raised {| exn_type := lit "FileNotFoundError";
                   exn_msg := path_str p |}, w)
    end.

(** [subprocess.run(argv, check=True)]: [target] is the file the command
    is told to write.  A return code other than zero raises
    [CalledProcessError]. *)
Definition subprocess_run (argv : list str) (target : option path)
    : Run World unit :=
  fun w =>
    let w1 := set_procs (fun l => l ++ [argv]) w in
    match run_process env argv (fs w) with
    | NotStarted msg =>
        (Raised {| exn_type := lit "FileNotFoundError"; exn_msg := msg |}, w1)
    | Exited returncode written =>
        let w2 :=
          match target, written with
          | Some p, Some c => set_fs <[path_str p := c]> w1
          | _, _ => w1
          end in
        if decide (returncode = 0%Z) then (Ok tt, w2)
        else (Raised {| exn_type := lit "CalledProcessError";
                        exn_msg := lit "non-zero exit status" |}, w2)
    end.

(** [check_dependencies()] *)
Definition check_dependencies : Run World unit :=
  w ← get_state;
  if negb (bool_decide (is_Some (fs w !! VGMSTREAM))) then sys_exit 1
  else if negb (bool_decide (INPUT_DIR ∈ dirs w)) then sys_exit 1
  else
    try_except (subprocess_run [lit "ffmpeg"; lit "-version"] None)
               (fun _ => sys_exit 1).

(** [convert_file(brstm_path, output_path, file_index, total_files)] *)
Definition convert_file (brstm_path output_path : path)
    (file_index total_files : nat) : Run World str :=
  let basename := stem brstm_path in
  let temp_wav := with_suffix (lit ".wav") output_path in
  try_except_class (lit "CalledProcessError")
    (subprocess_run
       [VGMSTREAM; lit "-o"; path_str temp_wav; path_str brstm_path]
       (Some temp_wav);;
     subprocess_run
       [lit "ffmpeg"; lit "-i"; path_str temp_wav; lit "-c:a"; lit "alac";
        lit "-y"; path_str output_path]
       (Some output_path);;
     unlink temp_wav;;
     mret (status_line file_index total_files mark_done
             (lit "Converted: " ++ basename)))
    (present ← path_exists temp_wav;
     (if present : bool then unlink temp_wav else mret tt);;
     mret (status_line file_index total_files mark_failed
             (lit "Failed: " ++ basename))).

(** [Path(OUTPUT_DIR) / f"{brstm_path.stem}.m4a"] *)
Definition output_path_of (brstm_path : path) : path :=
  in_dir OUTPUT_DIR (stem brstm_path ++ lit ".m4a").

(** The loop that sorts the inputs: [file_index] counts the inputs whose
    output exists, each reported as skipped; the others become tasks. *)
Fixpoint scan (total_files file_index : nat) (brstm_files : list path)
    : Run World (nat * list (path * path)) :=
  match brstm_files with
  | [] => mret (file_index, [])
  | brstm_path :: rest =>
      let output_path := output_path_of brstm_path in
      present ← path_exists output_path;
      if present : bool then
        let file_index := S file_index in
        print (status_line file_index total_files mark_skipped
                 (lit "Skipped (exists): " ++ stem brstm_path));;
        scan total_files file_index rest
      else
        '(file_index, tasks) ← scan total_files file_index rest;
        mret (file_index, (brstm_path, output_path) :: tasks)
  end.

(** [ProcessPoolExecutor(max_workers=n)] *)
Definition process_pool (max_workers : nat) : Run World unit :=
  if decide (max_workers = 0)%nat then
    raise {| exn_type := lit "ValueError";
             exn_msg := lit "max_workers must be greater than 0" |}
  else modify (set_pools (fun l => l ++ [max_workers])).

(** [executor.submit(convert_file, brstm_path, output_path, ...)] *)
Definition submit (brstm_path output_path : path) : Run World unit :=
  modify (set_submitted (fun l => l ++ [(brstm_path, output_path)])).

(** [enumerate(tasks, start)] *)
Fixpoint enumerate {A} (start : nat) (l : list A) : list (nat * A) :=
  match l with
  | [] => []
  | x :: l' => (start, x) :: enumerate (S start) l'
  end.

(** [convert_files_parallel()].  Each submitted task works on files of
    its own; the tasks are run one after the other, in submission order,
    and every one of them runs to its end before the executor is left.
    Their results are taken, and printed, in the order in which
    [as_completed] yields the futures. *)
Definition convert_files_parallel : Run World unit :=
  check_dependencies;;
  mkdir OUTPUT_DIR;;
  w ← get_state;
  let brstm_files := glob INPUT_DIR (lit ".brstm") (fs w) in
  if decide (brstm_files = []) then mret tt
  else
    let total_files := length brstm_files in
    '(file_index, tasks) ← scan total_files 0 brstm_files;
    if decide (tasks = []) then mret tt
    else
      process_pool (cpu_count env);;
      let numbered := enumerate (S file_index) tasks in
      for_each (fun '(idx, (brstm_path, output_path)) =>
                  submit brstm_path output_path)
               numbered;;
      futures ← sequence
                  (map (fun '(idx, (brstm_path, output_path)) =>
                          attempt (convert_file brstm_path output_path idx
                                     total_files))
                       numbered);
      for_each (fun future => result ← future_result future; print result)
               (as_completed (completion env) futures).

End Convert.
End Convert.

(** *** [verify_downloads.py] *)
Module Verify.

Section Verify.
Context `{Runtime}.

(** [fetch_expected_songs]: the names of the songs of the page above the
    fan-made section; the empty list when the page could not be fetched. *)
Definition names_of (matches : list (list str)) : list str :=
  flat_map
    (fun m =>
       match m with
       | [song_id; song_name] => [clean_name song_name]
       | _ => []
       end)
    matches.

Definition fetch_expected_songs (r : fetched) : list str :=
  match r with
  | Page html => names_of (findall song_pattern (main_songs_section html))
  | FetchError _ => []
  end.

End Verify.

(** What [verify_downloads] finds: the values of its local variables
    when it gets to the comparison.  The function itself returns nothing,
    and reports by printing: see [printed] below. *)
Record Report := {
  n_expected : nat;
  n_downloaded : nat;
  missing : gset str;
  extra : gset str;
  small_files : list path;
  count_passed : bool;
  all_passed : bool
}.

(** [f.stat().st_size] of a listed file. *)
Definition size_of (fs : gmap str bytes) (f : path) : N :=
  N.of_nat (length (default [] (fs !! path_str f))).

(** The local variables of [verify_downloads()]: [expected_songs] is what
    [fetch_expected_songs()] returned, [fs] and [dirs] are the files and
    directories.  [None] is a return before any comparison. *)
Definition verify_downloads (expected_songs : list str)
    (fs : gmap str bytes) (dirs : gset str) : option Report :=
  if decide (expected_songs = []) then None
  else
    let download_dir := lit "mkw_music_brstm" in
    if negb (bool_decide (download_dir ∈ dirs)) then None
    else
      let downloaded_files := glob download_dir (lit ".brstm") fs in
      let expected_set : gset str :=
        list_to_set
          (map (fun song => sanitize_filename song ++ lit ".brstm")
               expected_songs) in
      let downloaded_set : gset str := list_to_set (map fname downloaded_files) in
      let missing := expected_set ∖ downloaded_set in
      let extra := downloaded_set ∖ expected_set in
      let small_files :=
        filter (fun f => size_of fs f < 100000) downloaded_files in
      Some
        {| n_expected := length expected_songs;
           n_downloaded := length downloaded_files;
           missing := missing;
           extra := extra;
           small_files := small_files;
           count_passed :=
             bool_decide (length expected_songs = length downloaded_files
                          ∧ length downloaded_files = 267%nat);
           all_passed :=
             bool_decide (length downloaded_files = 267%nat
                          ∧ missing = ∅ ∧ extra = ∅ ∧ small_files = []) |}.

(** ["=" * 50] *)
Definition rule : str := repeat 61 50.

Definition q_of_N (n : N) : Q := inject_Z (Z.of_N n).

Section Printed.
Context `{Runtime}.

(** The three prints before the expected songs are looked at. *)
Definition opening : list str :=
  [ [128269] ++ lit " Verifying Mario Kart World Music Downloads";
    rule;
    [10] ++ lit "Fetching expected song list from website..." ].

(** The block that lists names: a title with their number, the first ten
    of them in sorted order, and the number of those left out.
    [verify_downloads] has this block twice, for the missing and for the
    extra names; nothing is printed for an empty set. *)
Definition listed (title : str) (names : gset str) : list str :=
  if decide (names = ∅) then []
  else
    ([10; 9888; 65039] ++ lit "  " ++ title ++ lit " files ("
     ++ str_of_nat (size names) ++ lit "):")
    :: map (fun f => lit "  - " ++ f) (take 10 (sorted (elements names)))
    ++ (if decide (10 < size names)%nat
        then [lit "  ... and " ++ str_of_nat (size names - 10)
              ++ lit " more"]
        else []).

(** The four lines of the size analysis. *)
Definition size_lines (sizes : list N) : list str :=
  let total_size := fold_right N.add 0 sizes in
  let avg_size : Q :=
    if decide (sizes = []) then 0%Q
    else float_round
           (q_of_N total_size / inject_Z (Z.of_nat (length sizes)))%Q in
  let min_size := fold_right N.min (hd 0 sizes) sizes in
  let max_size := fold_right N.max 0 sizes in
  [ lit "Total size: "
    ++ format_fixed 2
         (float_round (q_of_N total_size / inject_Z (1024 * 1024 * 1024))%Q)
    ++ lit " GB";
    lit "Average file size: "
    ++ format_fixed 2 (float_round (avg_size / inject_Z (1024 * 1024))%Q)
    ++ lit " MB";
    lit "Smallest file: "
    ++ format_fixed 2 (float_round (q_of_N min_size / inject_Z (1024 * 1024))%Q)
    ++ lit " MB";
    lit "Largest file: "
    ++ format_fixed 2 (float_round (q_of_N max_size / inject_Z (1024 * 1024))%Q)
    ++ lit " MB" ].

(** The block of the small files: a title with their number, and the
    first five in the order of the listing, each with its size in KB. *)
Definition small_lines (fs : gmap str bytes) (small_files : list path)
    : list str :=
  if decide (small_files = []) then []
  else
    ([10; 9888; 65039] ++ lit "  Suspiciously small files ("
     ++ str_of_nat (length small_files) ++ lit "):")
    :: map (fun f =>
              lit "  - " ++ fname f ++ lit ": "
              ++ format_fixed 1
                   (float_round (q_of_N (size_of fs f) / inject_Z 1024)%Q)
              ++ lit " KB")
           (take 5 small_files).

(** The final verdict. *)
Definition verdict_lines (n_downloaded : nat) (missing extra : gset str)
    (small_files : list path) : list str :=
  if decide (n_downloaded = 267%nat ∧ missing = ∅ ∧ extra = ∅
             ∧ small_files = [])
  then
    [ [9989] ++ lit " FINAL VERDICT: ALL CHECKS PASSED! " ++ [127881];
      lit "All 267 Mario Kart World songs downloaded successfully (excluding fan remixes)!" ]
  else
    ([9888; 65039] ++ lit "  FINAL VERDICT: Some issues detected")
    :: (if decide (n_downloaded = 267%nat) then []
        else [lit "  - Wrong count: " ++ str_of_nat n_downloaded
              ++ lit " instead of 267"])
    ++ (if decide (missing = ∅) then []
        else [lit "  - Missing files: " ++ str_of_nat (size missing)])
    ++ (if decide (extra = ∅) then []
        else [lit "  - Extra files: " ++ str_of_nat (size extra)])
    ++ (if decide (small_files = []) then []
        else [lit "  - Suspiciously small files: "
              ++ str_of_nat (length small_files)]).

(** The prints between the listing of the directory and the two blocks
    of names: the number of files found, the two counts and the verdict
    on them. *)
Definition count_lines (n_expected n_downloaded : nat) : list str :=
  [ [10; 9989] ++ lit " Found " ++ str_of_nat n_downloaded
    ++ lit " BRSTM files in " ++ lit "mkw_music_brstm";
    [10; 128202] ++ lit " Verification Results:";
    lit "Expected songs: " ++ str_of_nat n_expected;
    lit "Downloaded files: " ++ str_of_nat n_downloaded;
    if decide (n_expected = n_downloaded ∧ n_downloaded = 267%nat)
    then [10; 9989]
         ++ lit " COUNT VERIFICATION: PASSED - Exactly 267 songs downloaded (excluding fan remixes)!"
    else [10; 10060]
         ++ lit " COUNT VERIFICATION: FAILED - Expected 267, got "
         ++ str_of_nat n_downloaded ].

(** The line printed when no name is missing and none is extra. *)
Definition matching_lines (missing extra : gset str) : list str :=
  if decide (missing = ∅ ∧ extra = ∅)
  then [ [10; 9989]
         ++ lit " FILE MATCHING: PASSED - All expected files present, no extras!" ]
  else [].

(** [verify_downloads()] as the console has it: the text of every
    [print], in order.  [expected_songs] is what [fetch_expected_songs()]
    returned (the line that function prints itself when the fetch fails is
    not kept). *)
Definition printed (expected_songs : list str) (fs : gmap str bytes)
    (dirs : gset str) : list str :=
  opening ++
  if decide (expected_songs = []) then
    [ [10060] ++ lit " Failed to fetch expected song list" ]
  else
    let download_dir := lit "mkw_music_brstm" in
    ([9989] ++ lit " Found " ++ str_of_nat (length expected_songs)
     ++ lit " expected songs on website")
    ::
    if negb (bool_decide (download_dir ∈ dirs)) then
      [ [10060] ++ lit " Download directory '" ++ download_dir
        ++ lit "' not found" ]
    else
      let downloaded_files := glob download_dir (lit ".brstm") fs in
      let expected_set : gset str :=
        list_to_set
          (map (fun song => sanitize_filename song ++ lit ".brstm")
               expected_songs) in
      let downloaded_set : gset str :=
        list_to_set (map fname downloaded_files) in
      let missing := expected_set ∖ downloaded_set in
      let extra := downloaded_set ∖ expected_set in
      let small_files :=
        filter (fun f => size_of fs f < 100000) downloaded_files in
      count_lines (length expected_songs) (length downloaded_files)
      ++ listed (lit "Missing") missing
      ++ listed (lit "Extra") extra
      ++ matching_lines missing extra
      ++ ([10; 128207] ++ lit " File Size Analysis:")
         :: size_lines (map (size_of fs) downloaded_files)
      ++ small_lines fs small_files
      ++ ([10] ++ rule)
         :: verdict_lines (length downloaded_files) missing extra small_files.

End Printed.

End Verify.

(** ** Definitions the statements below use *)

(** What the loop of [sanitize_filename] does to one character. *)
Definition scrub_char (l : str) (x : char) : char :=
  fold_left (fun y c => if y =? c then 95 else y) l x.

(** The two requests of [Download.request_file] as the server sees them,
    from the state [w] the step starts in. *)
Definition page_request (song : Download.Song) (w : Download.World)
    : Download.Request :=
  {| Download.req_url := Download.song_page_url_of song;
     Download.req_headers :=
       <[lit "Referer" := game_page_url]> (Download.headers w) |}.

Definition file_request (song : Download.Song) (w : Download.World)
    : Download.Request :=
  {| Download.req_url := Download.url song;
     Download.req_headers :=
       <[lit "Referer" := Download.song_page_url_of song]>
         (<[lit "Referer" := game_page_url]> (Download.headers w)) |}.

(** The states [w] and [w1] differ at most in the file [key]. *)
Definition file_frame (key : str) (w w1 : Download.World) : Prop :=
  Download.dirs w1 = Download.dirs w
  ∧ Download.headers w1 = Download.headers w
  ∧ Download.events w1 = Download.events w
  ∧ Download.drawn w1 = Download.drawn w
  ∧ Download.pools w1 = Download.pools w
  ∧ Download.out w1 = Download.out w
  ∧ ∀ k, k ≠ key → Download.fs w1 !! k = Download.fs w !! k.

(** One call of [Download.download_song] per song, in order, each from
    the state the one before left: [rs] are the values returned. *)
Inductive downloads `{Runtime} (env : Download.Env) (dir : str)
    : Download.World → list Download.Song → list str → Download.World → Prop :=
| downloads_nil w : downloads env dir w [] [] w
| downloads_cons w w1 w2 song songs r rs :
    Download.download_song env song dir w = (Ok r, w1) →
    downloads env dir w1 songs rs w2 →
    downloads env dir w (song :: songs) (r :: rs) w2.

(** The state in which [Download.download_all_songs] starts the tasks:
    the directory made, the session set up, the executor created. *)
Definition session_start `{Runtime} (max_workers : option nat)
    (w : Download.World) : Download.World :=
  Download.set_pools (λ l, l ++ [default 1%nat max_workers])
    (Download.set_headers
       (λ _, Download.browser_headers ∪ session_defaults)
       (Download.set_dirs (λ d, {[lit "mkw_music_brstm"]} ∪ d) w)).

(** The line [Download.report] prints for the result numbered [index]. *)
Definition line_of (total index : nat) (result : str) : str :=
  if contains (lit "Failed") result
  then status_line index total mark_failed result
  else if contains (lit "Skipped") result
       then status_line index total mark_skipped result
       else status_line index total mark_done result.

(** The lines for the results [rs], the first of which is numbered
    [completed + 1]. *)
Fixpoint status_lines (total completed : nat) (rs : list str) : list str :=
  match rs with
  | [] => []
  | r :: rs' =>
      line_of total (S completed) r :: status_lines total (S completed) rs'
  end.

(** The number of results counted as failed. *)
Definition count_failed (rs : list str) : nat :=
  length (filter (λ r, contains (lit "Failed") r = true) rs).

(** A visit of the song's page: the game page is the referrer. *)
Definition visit_of (song : Download.Song) (r : Download.Request) : Prop :=
  Download.req_url r = Download.song_page_url_of song
  ∧ Download.req_headers r !! lit "Referer" = Some game_page_url
  ∧ Download.req_headers r !! lit "User-Agent" = Some Download.user_agent.

(** A request for the song's file: the song's page is the referrer. *)
Definition fetch_of (song : Download.Song) (r : Download.Request) : Prop :=
  Download.req_url r = Download.url song
  ∧ Download.req_headers r !! lit "Referer"
    = Some (Download.song_page_url_of song)
  ∧ Download.req_headers r !! lit "User-Agent" = Some Download.user_agent.

(** The events of one song, [delay] being what [random.uniform] gives if
    it is called: none; the visit alone; or the visit, the delay and the
    request for the file.  [drew] tells whether [random.uniform] was
    called. *)
Definition song_events (song : Download.Song) (delay : Q)
    (evs : list Download.Event) (drew : bool) : Prop :=
  (evs = [] ∧ drew = false)
  ∨ (∃ v, evs = [Download.Sent v] ∧ visit_of song v ∧ drew = false)
  ∨ (∃ v f,
       evs = [Download.Sent v; Download.Slept delay; Download.Sent f]
       ∧ visit_of song v ∧ fetch_of song f ∧ drew = true).

(** The events of a run, song by song, after [n] values of
    [random.random()] were drawn: the delay of a song is
    [random.uniform(1.0, 3.0)] computed from the next value, which is then
    used up. *)
Fixpoint run_events `{Runtime} (env : Download.Env) (n : nat)
    (songs : list Download.Song) (evss : list (list Download.Event))
    : Prop :=
  match songs, evss with
  | [], [] => True
  | song :: songs', evs :: evss' =>
      ∃ drew : bool,
        song_events song (Download.uniform 1 3 (Download.random env n))
          evs drew
        ∧ run_events env (if drew then S n else n) songs' evss'
  | _, _ => False
  end.

(** Rounding to a float keeps the order and is exact on 0, 1, 2 and 3. *)
Definition rounding_sound `{Runtime} : Prop :=
  (∀ x y : Q, (x <= y)%Q → (float_round x <= float_round y)%Q)
  ∧ (∀ z : Z, (0 ≤ z ≤ 3)%Z → (float_round (inject_Z z) == inject_Z z)%Q).

(** [random.random()] yields values from 0 (included) to 1 (excluded). *)
Definition random_sound (env : Download.Env) : Prop :=
  ∀ n, (0 <= Download.random env n)%Q ∧ (Download.random env n < 1)%Q.

(** A runtime for ASCII data and exact arithmetic: the tables for other
    data, which the definitions above consult on such data only, are
    trivial; a session starts without headers. *)
Definition ascii_runtime : Runtime :=
  {| nd_nonascii := λ _, false;
     unquote_escapes := λ s, s;
     decode_nonascii := λ b, b;
     lower_nonascii := λ s, s;
     http_error_text := λ code u, lit "HTTP error for url: " ++ u;
     float_round := λ q, q;
     session_defaults := ∅ |}.

(** The two commands of [Convert.convert_file] for the output [o] of the
    input [b]. *)
Definition temp_wav_of (o : path) : path := with_suffix (lit ".wav") o.

Definition vgmstream_command (b o : path) : list str :=
  [Convert.VGMSTREAM; lit "-o"; path_str (temp_wav_of o); path_str b].

Definition ffmpeg_command (o : path) : list str :=
  [lit "ffmpeg"; lit "-i"; path_str (temp_wav_of o); lit "-c:a"; lit "alac";
   lit "-y"; path_str o].

(** The files after a command that was told to write [target]. *)
Definition after_command (target : path) (written : option bytes)
    (fs : gmap str bytes) : gmap str bytes :=
  match written with
  | Some c => <[path_str target := c]> fs
  | None => fs
  end.

(** The inputs of [files] whose output is not among the files [fs], each
    with its output path. *)
Definition pending (fs : gmap str bytes) (files : list path)
    : list (path * path) :=
  map (λ b, (b, Convert.output_path_of b))
      (filter (λ b, fs !! path_str (Convert.output_path_of b) = None) files).

(** One call of [Convert.convert_file] per submitted task, in order, each
    from the state the one before left: [futures] hold what the calls
    returned or raised. *)
Inductive conversions (env : Convert.Env) (total : nat)
    : Convert.World → list (nat * (path * path)) → list (exn + str)
      → Convert.World → Prop :=
| conversions_nil w : conversions env total w [] [] w
| conversions_cons w w1 w2 idx b o numbered f futures :
    attempt (Convert.convert_file env b o idx total) w = (Ok f, w1) →
    conversions env total w1 numbered futures w2 →
    conversions env total w ((idx, (b, o)) :: numbered) (f :: futures) w2.

(** The commands of a task: the extractor alone, or the extractor and the
    transcoder. *)
Definition task_commands (t : path * path) (cmds : list (list str)) : Prop :=
  cmds = [vgmstream_command t.1 t.2]
  ∨ cmds = [vgmstream_command t.1 t.2; ffmpeg_command t.2].

(** The command of the check for [ffmpeg]. *)
Definition ffmpeg_version : list str := [lit "ffmpeg"; lit "-version"].

(** Whether [Convert.check_dependencies] finds what it looks for: the
    extractor at its path, the input directory, and an [ffmpeg] that runs
    and exits with zero. *)
Definition dependencies_met (env : Convert.Env) (w : Convert.World) : bool :=
  bool_decide (is_Some (Convert.fs w !! Convert.VGMSTREAM))
  && bool_decide (Convert.INPUT_DIR ∈ Convert.dirs w)
  && match Convert.run_process env ffmpeg_version (Convert.fs w) with
     | Convert.Exited 0 _ => true
     | _ => false
     end.

(** The state after the checks and the making of the output directory. *)
Definition checked (w : Convert.World) : Convert.World :=
  Convert.set_dirs (λ d, {[Convert.OUTPUT_DIR]} ∪ d)
    (Convert.set_procs (λ l, l ++ [ffmpeg_version]) w).

(** The inputs of [files] whose output is among the files [fs]. *)
Definition skipped_inputs (fs : gmap str bytes) (files : list path)
    : list path :=
  filter (λ b, is_Some (fs !! path_str (Convert.output_path_of b))) files.

(** The lines printed for skipped inputs, the first of which is numbered
    [index + 1]. *)
Fixpoint skip_lines (total index : nat) (inputs : list path) : list str :=
  match inputs with
  | [] => []
  | b :: inputs' =>
      status_line (S index) total mark_skipped
        (lit "Skipped (exists): " ++ stem b)
      :: skip_lines total (S index) inputs'
  end.

(** The inputs the conversion finds in the state [w]. *)
Definition inputs_of (w : Convert.World) : list path :=
  glob Convert.INPUT_DIR (lit ".brstm") (Convert.fs w).

(** The tasks of a run from the state [w]: the inputs without output,
    numbered after the skipped ones. *)
Definition numbered_tasks (w : Convert.World) : list (nat * (path * path)) :=
  Convert.enumerate
    (S (length (skipped_inputs (Convert.fs w) (inputs_of w))))
    (pending (Convert.fs w) (inputs_of w)).

(** The state in which the tasks start: the checks made, the skipped
    inputs reported, the executor created, the tasks submitted. *)
Definition tasks_start (env : Convert.Env) (w : Convert.World)
    : Convert.World :=
  Convert.set_submitted (λ l, l ++ pending (Convert.fs w) (inputs_of w))
    (Convert.set_pools (λ l, l ++ [Convert.cpu_count env])
       (Convert.set_out
          (λ l, l ++ skip_lines (length (inputs_of w)) 0
                       (skipped_inputs (Convert.fs w) (inputs_of w)))
          (checked w))).

(** The loop of [Convert.convert_files_parallel] over the futures as they
    are yielded. *)
Definition print_futures (futures : list (exn + str))
    : Run Convert.World unit :=
  for_each (λ future, result ← future_result future; Convert.print result)
           futures.

(** The values of the futures that come before the first one holding an
    exception, and that exception. *)
Fixpoint returned_before_raise {A} (futures : list (exn + A)) : list A :=
  match futures with
  | inr a :: futures' => a :: returned_before_raise futures'
  | _ => []
  end.

Fixpoint first_raised {A} (futures : list (exn + A)) : option exn :=
  match futures with
  | [] => None
  | inl e :: _ => Some e
  | inr _ :: futures' => first_raised futures'
  end.

(** How a loop that takes the result of every future ends. *)
Definition results_taken {A} (futures : list (exn + A)) : result unit :=
  match first_raised futures with
  | Some e => Raised e
  | None => Ok tt
  end.

(** A file name [verify_downloads] expects: the sanitized name of an
    expected song with [.brstm]. *)
Definition expected_name (expected_songs : list str) (f : str) : Prop :=
  ∃ song, song ∈ expected_songs ∧ f = sanitize_filename song ++ lit ".brstm".

(** The name of a file [verify_downloads] finds in the download
    directory. *)
Definition downloaded_name (fs : gmap str bytes) (f : str) : Prop :=
  ∃ p, p ∈ glob (lit "mkw_music_brstm") (lit ".brstm") fs ∧ fname p = f.

(** A row of the song table of the game page. *)
Definition song_row (song_id song_name : str) : str :=
  lit "<tr id=" ++ [dquote] ++ lit "s" ++ song_id ++ [dquote] ++ lit ">"
  ++ lit "<td><a href=" ++ [dquote] ++ lit "/song/" ++ song_id ++ [dquote]
  ++ lit ">" ++ song_name ++ lit "</a></td></tr>".

(** A page with one song above the marker of the fan-made section and one
    below it. *)
Definition remix_page : str :=
  lit "<table>" ++ song_row (lit "1") (lit "Main Theme")
  ++ lit "</table><h2>Remixes / Fanmade</h2><table>"
  ++ song_row (lit "2") (lit "Fan Remix") ++ lit "</table>".

(** The identifier and the name of each song of a scrape. *)
Definition downloader_songs (songs : list Download.Song) : list (str * str) :=
  map (λ s, (Download.id s, Download.name s)) songs.

Definition generator_songs (songs : list Generate.Song) : list (str * str) :=
  map (λ s, (Generate.id s, Generate.name s)) songs.

(** A download directory with one file no song accounts for. *)
Definition stray_files : gmap str bytes :=
  {[ lit "mkw_music_brstm/stray.brstm" := [0; 1; 2] ]}.

(** A page with one song and no fan-made section. *)
Definition plain_page : str :=
  lit "<table>" ++ song_row (lit "1") (lit "Main Theme") ++ lit "</table>".

(** The requests for the file of [song] among the events [evs]. *)
Definition file_requests (song : Download.Song) (evs : list Download.Event)
    : list Download.Request :=
  omap (λ e, match e with
             | Download.Sent r =>
                 if decide (Download.req_url r = Download.url song)
                 then Some r else None
             | Download.Slept _ => None
             end) evs.

(** *** Sample runs *)

(** A server that answers every request with status 200, no content type
    and the same body; [random.random()] always yields one half; the
    futures complete in the order of their submission. *)
Definition steady_env (body : list bytes) : Download.Env :=
  {| Download.server := λ _ _,
       Download.Answer
         {| Download.status_code := 200; Download.content_type := None;
            Download.chunks := body; Download.broken := None |};
     Download.random := λ _, (1 # 2)%Q;
     Download.completion := λ _, 0%nat;
     Download.vgmstream_cli := Some (lit "/opt/vgmstream/vgmstream-cli");
     Download.game_page := Page plain_page;
     Download.answer := lit "y" |}.

(** The state before a first run, with the download directory made or
    not. *)
Definition fresh_world (dirs : gset str) : Download.World :=
  {| Download.fs := ∅; Download.dirs := dirs; Download.headers := ∅;
     Download.events := []; Download.drawn := 0; Download.pools := [];
     Download.out := [] |}.

Definition song_one : Download.Song :=
  {| Download.id := lit "1"; Download.name := lit "Main Theme?";
     Download.url := site ++ lit "/brstm/1" |}.

(** A song whose name differs from that of [song_one] and is sanitized to
    the same file name. *)
Definition song_two : Download.Song :=
  {| Download.id := lit "2"; Download.name := lit "Main Theme*";
     Download.url := site ++ lit "/brstm/2" |}.

(** A body of 1200 bytes, and an error page served with status 200. *)
Definition audio_body : list bytes := [repeat 7 1200].
Definition error_page_body : list bytes :=
  [lit "<HTML><body>"; []; lit "File not found</body></HTML>"].

(** The download of [song_one] from a server that answers every request
    with the error page: the state after the two requests, and the state
    after the body is written. *)
Definition error_page_requested : Download.World :=
  (@Download.request_file ascii_runtime (steady_env error_page_body) song_one
     (fresh_world {[lit "mkw_music_brstm"]})).2.

Definition error_page_saved : Download.World :=
  (Download.save_body (Download.filepath_of (lit "mkw_music_brstm") song_one)
     error_page_body None error_page_requested).2.

(** A machine whose extractor exits with 1, having written nothing. *)
Definition broken_extractor_env : Convert.Env :=
  {| Convert.cpu_count := 8;
     Convert.run_process := λ _ _, Convert.Exited 1 None;
     Convert.completion := λ _, 0%nat |}.

(** The state before a conversion of the one input [a.brstm]. *)
Definition one_input_world : Convert.World :=
  {| Convert.fs :=
       {[ Convert.VGMSTREAM := [];
          lit "mkw_music_brstm/a.brstm" := [1; 2; 3] ]};
     Convert.dirs := {[ Convert.INPUT_DIR ]};
     Convert.procs := []; Convert.pools := []; Convert.submitted := [];
     Convert.out := [] |}.

Definition song_three : Download.Song :=
  {| Download.id := lit "3"; Download.name := lit "Rainbow Road";
     Download.url := site ++ lit "/brstm/3" |}.

(** The state after [download_all_songs] on two songs that are both
    served, from a fresh state. *)
Definition two_song_run : Download.World :=
  (@Download.download_all_songs ascii_runtime (steady_env audio_body)
     [song_one; song_three] None (fresh_world ∅)).2.

(** The input [a.brstm] of the conversion. *)
Definition input_a : path := in_dir Convert.INPUT_DIR (lit "a.brstm").




(** ** Further definitions the statements below use *)

(** The three kinds of status [Download.download_song] returns. *)
Definition skipped_status (song : Download.Song) : str :=
  lit "Skipped (already exists): " ++ Download.name song.

Definition downloaded_status (song : Download.Song) : str :=
  lit "Downloaded: " ++ Download.name song.

Definition failed_status (song : Download.Song) (msg : str) : str :=
  lit "Failed: " ++ Download.name song ++ lit " - " ++ msg.




(** The environment [env] with another order of completion. *)
Definition completing (next : nat → nat) (env : Download.Env)
    : Download.Env :=
  {| Download.server := Download.server env;
     Download.random := Download.random env;
     Download.completion := next;
     Download.vgmstream_cli := Download.vgmstream_cli env;
     Download.game_page := Download.game_page env;
     Download.answer := Download.answer env |}.

(** *** More sample runs *)

(** A server that answers every request with the response [r]. *)
Definition answering_env (r : Download.Response) : Download.Env :=
  {| Download.server := λ _ _, Download.Answer r;
     Download.random := λ _, (1 # 2)%Q;
     Download.completion := λ _, 0%nat;
     Download.vgmstream_cli := Some (lit "/opt/vgmstream/vgmstream-cli");
     Download.game_page := Page plain_page;
     Download.answer := lit "y" |}.

Definition not_found_response : Download.Response :=
  {| Download.status_code := 404; Download.content_type := None;
     Download.chunks := []; Download.broken := None |}.




Definition audio_response : Download.Response :=
  {| Download.status_code := 200; Download.content_type := None;
     Download.chunks := audio_body; Download.broken := None |}.

(** The state before a run in which the download directory is there. *)
Definition ready_world : Download.World :=
  fresh_world {[lit "mkw_music_brstm"]}.


(** A song whose name holds the word [Failed]. *)
Definition song_mission : Download.Song :=
  {| Download.id := lit "4"; Download.name := lit "Mission Failed";
     Download.url := site ++ lit "/brstm/4" |}.

(** A first run over two songs that are both served. *)
Abbreviation clean_first_run :=
  (@Download.download_all_songs ascii_runtime (steady_env audio_body)
     [song_one; song_three] None (fresh_world ∅)).

(** *** Song tables *)

(** A row of the song table: the digits of its id, the white space before
    its cell, the attributes of the cell, the digits of the link, the text
    of the link, and the text between the end of the row and the next
    one. *)
Record Row := {
  row_id : str;
  row_space : str;
  row_attrs : str;
  row_song : str;
  row_name : str;
  row_sep : str
}.

(** The start of a row, up to the end of the link. *)
Definition row_link (r : Row) : str :=
  (lit "<tr id=" ++ [dquote] ++ lit "s") ++ row_id r
  ++ ([dquote] ++ lit ">") ++ row_space r
  ++ lit "<td" ++ row_attrs r
  ++ (lit "><a href=" ++ [dquote] ++ lit "/song/") ++ row_song r
  ++ ([dquote] ++ lit ">") ++ row_name r ++ lit "</a>".

Definition row_text (r : Row) : str :=
  row_link r ++ lit "</td></tr>" ++ row_sep r.

Definition table_text (rows : list Row) : str :=
  concat (map row_text rows).

(** The parts of a row are what the pattern takes them for: digits that
    are there, white space, attributes without [>], a name that is there
    and has no [<]; and no [<] between the rows. *)
Definition well_formed `{Runtime} (r : Row) : bool :=
  (0 <? length (row_id r))%nat && forallb isdigit (row_id r)
  && forallb isspace (row_space r)
  && forallb (λ c, negb (c =? 62)) (row_attrs r)
  && (0 <? length (row_song r))%nat && forallb isdigit (row_song r)
  && (0 <? length (row_name r))%nat
  && forallb (λ c, negb (c =? 60)) (row_name r)
  && forallb (λ c, negb (c =? 60)) (row_sep r).

(** A table of two rows, written as the site writes them. *)
Definition sample_rows : list Row :=
  [ {| row_id := lit "115501"; row_space := [10; 32; 32];
       row_attrs := lit " class=" ++ [dquote] ++ lit "name" ++ [dquote];
       row_song := lit "115501"; row_name := lit "Main Theme";
       row_sep := [10] |};
    {| row_id := lit "115502"; row_space := [];
       row_attrs := []; row_song := lit "115502";
       row_name := lit "Mario Bros. Circuit"; row_sep := [] |} ].

(** *** The conversion *)

(** A machine on which every command exits with zero, having written four
    bytes. *)
Definition working_env : Convert.Env :=
  {| Convert.cpu_count := 8;
     Convert.run_process := λ _ _, Convert.Exited 0 (Some [82; 73; 70; 70]);
     Convert.completion := λ _, 0%nat |}.

(** A machine whose transcoder exits with 1, having written two bytes. *)
Definition broken_transcoder_env : Convert.Env :=
  {| Convert.cpu_count := 8;
     Convert.run_process := λ argv _,
       match argv with
       | [_; _] => Convert.Exited 0 None
       | [_; _; _; _] => Convert.Exited 0 (Some [82; 73; 70; 70])
       | _ => Convert.Exited 1 (Some [0; 0])
       end;
     Convert.completion := λ _, 0%nat |}.

(** The state of [one_input_world] once [a.brstm] is converted. *)
Definition converted_world : Convert.World :=
  Convert.set_fs <[lit "mkw_music_alac/a.m4a" := [0; 1]]> one_input_world.

(** *** The verification *)

(** The line of the final verdict when every check passed. *)
Definition passed_line : str :=
  [9989] ++ lit " FINAL VERDICT: ALL CHECKS PASSED! " ++ [127881].

(** How [passed_line] starts; no other line of the verification starts
    so. *)
Definition passed_start : str := [9989; 32; 70; 73].

(** *** [generate_download_urls.py]: [main] *)
Module Generator.

(** The state of a run: the text files of the working directory and the
    modes set with [os.chmod].  The files are opened in text mode; the
    encoding is taken to encode every character, and a line feed to be
    written as it is. *)
Record World := {
  files : gmap str str;
  modes : gmap str N
}.

Definition set_files (f : gmap str str -> gmap str str) (w : World) :=
  {| files := f (files w); modes := modes w |}.
Definition set_modes (f : gmap str N -> gmap str N) (w : World) :=
  {| files := files w; modes := f (modes w) |}.

(** [open(name, 'w')]: the file is created or emptied. *)
Definition open_w (name : str) : Run World unit :=
  modify (set_files <[name := []]>).

(** [f.write(text)] on the file opened at [name]. *)
Definition write (name text : str) : Run World unit :=
  modify (set_files (alter (fun c => c ++ text) name)).

(** [os.chmod(name, mode)] *)
Definition chmod (name : str) (mode : N) : Run World unit :=
  modify (set_modes <[name := mode]>).

(** The line feed. *)
Definition nl : str := [10].

(** The user agent the [wget] commands give. *)
Definition wget_user_agent : str :=
  lit "Mozilla/5.0 (Macintosh; Intel Mac OS X 10_15_7) AppleWebKit/537.36".

(** [f"{sanitize_filename(song['name'])}.brstm"] *)
Definition filename_of (song : Generate.Song) : str :=
  sanitize_filename (Generate.name song) ++ lit ".brstm".

Section Generator.
Context `{Runtime}.

(** [main()]: [page] is what the fetch of the game page gave.  The
    banners and the instructions it prints are console text only. *)
Definition main (page : fetched) : Run World unit :=
  let songs := Generate.fetch_song_data page in
  if decide (songs = []) then mret tt
  else
    let urls := lit "mkw_urls.txt" in
    let script := lit "download_with_wget.sh" in
    let aria := lit "mkw_aria2_input.txt" in
    open_w urls;;
    for_each (fun song => write urls (Generate.download_url song ++ nl))
             songs;;
    open_w script;;
    write script (lit "#!/bin/bash" ++ nl ++ nl);;
    write script
      (lit "# Mario Kart World Music Download Script using wget" ++ nl);;
    write script
      (lit "# This script downloads files one by one with delays"
       ++ nl ++ nl);;
    write script (lit "mkdir -p mkw_music_brstm" ++ nl);;
    write script (lit "cd mkw_music_brstm" ++ nl ++ nl);;
    for_each
      (fun song =>
         let filename := filename_of song in
         write script (lit "# " ++ Generate.name song ++ nl);;
         write script
           (lit "echo " ++ [dquote] ++ lit "Downloading: "
            ++ Generate.name song ++ [dquote] ++ nl);;
         write script
           (lit "wget -O " ++ [dquote] ++ filename ++ [dquote]
            ++ lit " --referer=" ++ [dquote] ++ Generate.page_url song
            ++ [dquote] ++ lit " ");;
         write script
           (lit "--user-agent=" ++ [dquote] ++ wget_user_agent ++ [dquote]
            ++ lit " ");;
         write script
           ([dquote] ++ Generate.download_url song ++ [dquote] ++ nl);;
         write script (lit "sleep 2" ++ nl ++ nl))
      songs;;
    open_w aria;;
    for_each
      (fun song =>
         let filename := filename_of song in
         write aria (Generate.download_url song ++ nl);;
         write aria (lit "  out=" ++ filename ++ nl);;
         write aria (lit "  referer=" ++ Generate.page_url song ++ nl))
      songs;;
    chmod script 493.

End Generator.
End Generator.

(** The text of the three files [Generator.main] writes, song by song. *)
Definition url_line (song : Generate.Song) : str :=
  Generate.download_url song ++ Generator.nl.

Definition script_head : str :=
  lit "#!/bin/bash" ++ Generator.nl ++ Generator.nl
  ++ lit "# Mario Kart World Music Download Script using wget"
  ++ Generator.nl
  ++ lit "# This script downloads files one by one with delays"
  ++ Generator.nl ++ Generator.nl
  ++ lit "mkdir -p mkw_music_brstm" ++ Generator.nl
  ++ lit "cd mkw_music_brstm" ++ Generator.nl ++ Generator.nl.

Definition script_entry (song : Generate.Song) : str :=
  lit "# " ++ Generate.name song ++ Generator.nl
  ++ lit "echo " ++ [dquote] ++ lit "Downloading: " ++ Generate.name song
  ++ [dquote] ++ Generator.nl
  ++ lit "wget -O " ++ [dquote] ++ Generator.filename_of song ++ [dquote]
  ++ lit " --referer=" ++ [dquote] ++ Generate.page_url song ++ [dquote]
  ++ lit " "
  ++ lit "--user-agent=" ++ [dquote] ++ Generator.wget_user_agent
  ++ [dquote] ++ lit " "
  ++ [dquote] ++ Generate.download_url song ++ [dquote] ++ Generator.nl
  ++ lit "sleep 2" ++ Generator.nl ++ Generator.nl.

Definition aria_entry (song : Generate.Song) : str :=
  Generate.download_url song ++ Generator.nl
  ++ lit "  out=" ++ Generator.filename_of song ++ Generator.nl
  ++ lit "  referer=" ++ Generate.page_url song ++ Generator.nl.

(** The state after [text] is written at the end of the file [name]. *)
Definition appended (name text : str) (w : Generator.World)
    : Generator.World :=
  Generator.set_files (alter (λ c, c ++ text) name) w.

(** The lines of a text, as a reader sees them that takes a line feed for
    the end of a line: [line_rev] is the line read so far, last character
    first. *)
Fixpoint lines_from (line_rev : str) (text : str) : list str :=
  match text with
  | [] => match line_rev with [] => [] | _ :: _ => [reverse line_rev] end
  | c :: text' =>
      if c =? 10 then reverse line_rev :: lines_from [] text'
      else lines_from (c :: line_rev) text'
  end.

Definition lines_of (text : str) : list str := lines_from [] text.

(** A state with an old URL list and nothing else. *)
Definition stale_world : Generator.World :=
  {| Generator.files := {[ lit "mkw_urls.txt" := lit "old" ]};
     Generator.modes := ∅ |}.

(** * Properties *)

(** ** Text *)

Lemma starts_with_app (p s : str) : starts_with p (p ++ s) = true.
Proof.
  induction p as [|a p IH]; simpl; [done|].
  by rewrite N.eqb_refl, IH.
Qed.

Lemma starts_with_spec (p s : str) :
  starts_with p s = true ↔ ∃ t, s = p ++ t.
Proof.
  revert s. induction p as [|a p IH]; intros s; simpl.
  - split; eauto.
  - destruct s as [|b s]; [split; [done | by intros [t Ht]] |].
    rewrite andb_true_iff, N.eqb_eq, IH. split.
    + intros [-> [t ->]]. eauto.
    + intros [t Ht]. simplify_eq. eauto.
Qed.

Lemma replace_char (c d : char) (s : str) :
  replace [c] [d] s = map (fun x => if x =? c then d else x) s.
Proof.
  unfold replace. induction s as [|a s IH]; [done|].
  cbn [replace_from starts_with map length]. rewrite andb_true_r.
  rewrite (N.eqb_sym c a). destruct (a =? c); cbn; by rewrite IH.
Qed.

(** A character that is none of those of a literal list. *)
Ltac not_listed :=
  repeat (rewrite not_elem_of_cons; split; [lia|]); apply not_elem_of_nil.

Lemma invalid_chars_eq : invalid_chars = [60; 62; 58; 34; 47; 92; 124; 63; 42].
Proof. reflexivity. Qed.

Lemma scrub_loop (l : str) (s : str) :
  fold_left (fun filename c => replace [c] (lit "_") filename) l s
  = map (scrub_char l) s.
Proof.
  revert s. induction l as [|c l IH]; intros s; cbn [fold_left].
  - by rewrite map_id.
  - rewrite IH. change (lit "_") with [95]. rewrite replace_char, map_map.
    done.
Qed.

Lemma scrub_char_spec (l : str) (x : char) :
  95 ∉ l → scrub_char l x = if decide (x ∈ l) then 95 else x.
Proof.
  unfold scrub_char. revert x.
  induction l as [|c l IH]; intros x Hl; cbn [fold_left].
  - by rewrite decide_False by apply not_elem_of_nil.
  - apply not_elem_of_cons in Hl as [Hc Hl].
    destruct (N.eqb_spec x c) as [->|Hx];
      rewrite IH by done; repeat case_decide; set_solver.
Qed.

Lemma underscore_valid : 95 ∉ invalid_chars.
Proof. rewrite invalid_chars_eq. not_listed. Qed.

Lemma scrub_char_valid (x : char) : scrub_char invalid_chars x ∉ invalid_chars.
Proof.
  rewrite scrub_char_spec by apply underscore_valid.
  destruct (decide (x ∈ invalid_chars)); [apply underscore_valid | done].
Qed.

Lemma scrub_char_id (x : char) :
  x ∉ invalid_chars → scrub_char invalid_chars x = x.
Proof.
  intros Hx. rewrite scrub_char_spec by apply underscore_valid.
  by rewrite decide_False.
Qed.

Lemma lstrip_head (s : str) (c : char) :
  head (lstrip s) = Some c → isspace c = false.
Proof.
  induction s as [|a s IH]; simpl; [done|].
  destruct (isspace a) eqn:Ha; [done|]. simpl. by intros [= <-].
Qed.

Lemma lstrip_elem (s : str) (x : char) : x ∈ lstrip s → x ∈ s.
Proof.
  induction s as [|a s IH]; simpl; [done|].
  destruct (isspace a); [|done]. set_solver.
Qed.

Lemma lstrip_app_stop (l m : str) (c : char) :
  isspace c = false → lstrip (l ++ c :: m) = lstrip l ++ c :: m.
Proof.
  intros Hc. induction l as [|a l IH]; simpl; [by rewrite Hc|].
  by destruct (isspace a).
Qed.

Lemma rstrip_cons (c : char) (s : str) :
  isspace c = false → rstrip (c :: s) = c :: rstrip s.
Proof.
  intros Hc. unfold rstrip. rewrite reverse_cons, lstrip_app_stop by done.
  by rewrite reverse_app.
Qed.

Lemma rstrip_last (s : str) (c : char) :
  last (rstrip s) = Some c → isspace c = false.
Proof. unfold rstrip. rewrite last_reverse. apply lstrip_head. Qed.

Lemma rstrip_elem (s : str) (x : char) : x ∈ rstrip s → x ∈ s.
Proof.
  unfold rstrip. rewrite elem_of_reverse. intros Hx%lstrip_elem.
  by apply elem_of_reverse.
Qed.

Lemma strip_elem (s : str) (x : char) : x ∈ strip s → x ∈ s.
Proof. intros Hx%rstrip_elem. by apply lstrip_elem. Qed.

Lemma strip_head (s : str) (c : char) :
  head (strip s) = Some c → isspace c = false.
Proof.
  unfold strip. destruct (lstrip s) as [|a t] eqn:E; [done|].
  assert (isspace a = false) as Ha by (apply (lstrip_head s); by rewrite E).
  rewrite rstrip_cons by done. simpl. by intros [= <-].
Qed.

Lemma strip_last (s : str) (c : char) :
  last (strip s) = Some c → isspace c = false.
Proof. apply rstrip_last. Qed.

Lemma lstrip_fixed (s : str) :
  (∀ c, head s = Some c → isspace c = false) → lstrip s = s.
Proof.
  destruct s as [|a s]; [done|]. intros Hs. simpl. by rewrite (Hs a).
Qed.

Lemma strip_fixed (s : str) :
  (∀ c, head s = Some c → isspace c = false) →
  (∀ c, last s = Some c → isspace c = false) →
  strip s = s.
Proof.
  intros Hh Hl. unfold strip. rewrite lstrip_fixed by done.
  unfold rstrip. rewrite lstrip_fixed, reverse_involutive; [done|].
  intros c. rewrite head_reverse. apply Hl.
Qed.

Lemma strip_idempotent (s : str) : strip (strip s) = strip s.
Proof. apply strip_fixed; [apply strip_head | apply strip_last]. Qed.

Lemma sanitize_filename_unfold (s : str) :
  sanitize_filename s = strip (map (scrub_char invalid_chars) s).
Proof. unfold sanitize_filename. by rewrite scrub_loop. Qed.

Lemma sanitize_filename_valid (s : str) (c : char) :
  c ∈ invalid_chars → c ∉ sanitize_filename s.
Proof.
  intros Hc Hin. rewrite sanitize_filename_unfold in Hin.
  apply strip_elem, list_elem_of_fmap in Hin as (x & -> & _).
  by apply (scrub_char_valid x).
Qed.

(** C10. For every input, the sanitized file name holds none of the nine
    invalid characters, neither starts nor ends with white space, and
    sanitizing it again changes nothing. *)
Theorem sanitize_filename_clean_idempotent (s : str) :
  (∀ c, c ∈ invalid_chars → c ∉ sanitize_filename s)
  ∧ (∀ c, head (sanitize_filename s) = Some c → isspace c = false)
  ∧ (∀ c, last (sanitize_filename s) = Some c → isspace c = false)
  ∧ sanitize_filename (sanitize_filename s) = sanitize_filename s.
Proof.
  split_and!.
  - apply sanitize_filename_valid.
  - rewrite sanitize_filename_unfold. apply strip_head.
  - rewrite sanitize_filename_unfold. apply strip_last.
  - rewrite (sanitize_filename_unfold (sanitize_filename s)).
    assert (map (scrub_char invalid_chars) (sanitize_filename s)
            = sanitize_filename s) as ->.
    { rewrite <- (map_id (sanitize_filename s)) at 2.
      apply map_ext_in. intros x Hx%list_elem_of_In.
      apply scrub_char_id. intros Hc.
      by apply (sanitize_filename_valid s x). }
    rewrite sanitize_filename_unfold. apply strip_idempotent.
Qed.

(** ** The order of completion *)

Lemma yield_next_perm {A} (next : nat → nat) (todo turn : nat) (rest : list A) :
  length rest = todo → yield_next next turn todo rest ≡ₚ rest.
Proof.
  revert turn rest. induction todo as [|todo IH]; intros turn rest Hlen.
  - by destruct rest.
  - cbn [yield_next].
    destruct (rest !! (next turn mod length rest)%nat) as [future|] eqn:Hk.
    + rewrite IH.
      * symmetry. by apply delete_Permutation.
      * pose proof (lookup_lt_Some _ _ _ Hk).
        rewrite length_delete by eauto. lia.
    + apply lookup_ge_None in Hk.
      pose proof (Nat.mod_upper_bound (next turn) (length rest)). lia.
Qed.

(** [as_completed] yields every future once. *)
Lemma as_completed_perm {A} (next : nat → nat) (futures : list A) :
  as_completed next futures ≡ₚ futures.
Proof. by apply yield_next_perm. Qed.

Lemma as_completed_length {A} (next : nat → nat) (futures : list A) :
  length (as_completed next futures) = length futures.
Proof. by rewrite as_completed_perm. Qed.

Lemma yield_next_map {A B} (f : A → B) (next : nat → nat) (todo turn : nat)
    (rest : list A) :
  yield_next next turn todo (map f rest)
  = map f (yield_next next turn todo rest).
Proof.
  revert turn rest. induction todo as [|todo IH]; intros turn rest; [done|].
  cbn [yield_next]. rewrite length_map, list_lookup_fmap.
  destruct (rest !! (next turn mod length rest)%nat) as [future|]; [|done].
  cbn. f_equal. rewrite <- IH. f_equal.
  generalize (next turn mod length rest)%nat. clear.
  induction rest as [|x rest IH]; intros [|k]; cbn; try done.
  f_equal. apply IH.
Qed.

(** The order of completion does not depend on what the futures hold. *)
Lemma as_completed_map {A B} (f : A → B) (next : nat → nat)
    (futures : list A) :
  as_completed next (map f futures) = map f (as_completed next futures).
Proof. unfold as_completed. by rewrite length_map, yield_next_map. Qed.

Lemma yield_next_in_order {A} (next : nat → nat) (todo turn : nat)
    (rest : list A) :
  (∀ t, next t = 0%nat) → length rest = todo →
  yield_next next turn todo rest = rest.
Proof.
  intros Hnext. revert turn rest.
  induction todo as [|todo IH]; intros turn [|x rest] Hlen; try done.
  cbn [yield_next]. rewrite Hnext. rewrite Nat.Div0.mod_0_l.
  cbn [lookup list_lookup delete list_delete]. f_equal. apply IH.
  cbn in Hlen. lia.
Qed.

(** When the futures complete in the order of their submission. *)
Lemma as_completed_in_order {A} (next : nat → nat) (futures : list A) :
  (∀ t, next t = 0%nat) → as_completed next futures = futures.
Proof. intros Hnext. by apply yield_next_in_order. Qed.

(** ** Running a script *)

Lemma run_bind_inv {S A B} (m : Run S A) (k : A → Run S B) (w w2 : S)
    (r : result B) :
  (m ≫= k) w = (r, w2) →
  (∃ a w1, m w = (Ok a, w1) ∧ k a w1 = (r, w2))
  ∨ (∃ e, m w = (Raised e, w2) ∧ r = Raised e)
  ∨ (∃ c, m w = (SystemExit c, w2) ∧ r = SystemExit c).
Proof.
  unfold mbind, run_mbind, run_bind.
  destruct (m w) as [[a|e|c] w1]; intros Heq; simplify_eq; eauto 6.
Qed.

Lemma run_bind_ok {S A B} (m : Run S A) (k : A → Run S B) (w w1 : S) (a : A) :
  m w = (Ok a, w1) → (m ≫= k) w = k a w1.
Proof. unfold mbind, run_mbind, run_bind. by intros ->. Qed.

(** Unfolding of the operations of [Run] that neither fail nor branch. *)
Ltac run_plain H :=
  cbv [mret run_mret run_ret raise sys_exit modify get_state] in H;
  simplify_eq.

(** A step that is known not to end in [sys.exit]. *)
Ltac no_exit :=
  match goal with
  | H : ∀ c, SystemExit ?x ≠ SystemExit c |- _ => by destruct (H x)
  end.

(** ** The downloader *)

Section DownloadFacts.
Import Download.
Context `{Runtime} (env : Env).

(** A song whose file is there is skipped and nothing changes. *)
Lemma download_song_skips (song : Song) (dir : str) (w : World) :
  is_Some (fs w !! path_str (filepath_of dir song)) →
  download_song env song dir w
  = (Ok (lit "Skipped (already exists): " ++ name song), w).
Proof.
  intros Hex. unfold download_song, download_song_body, path_exists.
  cbv [mbind run_mbind run_bind mret run_mret run_ret get_state try_except].
  by rewrite bool_decide_eq_true_2.
Qed.

Lemma session_get_inv (u : str) (w w1 : World) (r : result Response) :
  session_get env u w = (r, w1) →
  w1 = set_events
         (λ l, l ++ [Sent {| req_url := u; req_headers := headers w |}]) w
  ∧ ((∃ e, r = Raised e) ∨ (∃ a, r = Ok a)).
Proof.
  unfold session_get. destruct (server _ _ _); intros; simplify_eq; eauto.
Qed.

Lemma raise_for_status_inv (u : str) (resp : Response) (w w1 : World)
    (r : result unit) :
  raise_for_status u resp w = (r, w1) →
  w1 = w ∧ ((∃ e, r = Raised e) ∨ r = Ok tt).
Proof.
  unfold raise_for_status. case_match; intros Heq; run_plain Heq; eauto.
Qed.

(** What [request_file] does: nothing to the files; to the headers only at
    [Referer]; one request, or a request, the delay and a second request. *)
Lemma request_file_spec (song : Song) (w w1 : World) (r : result Response) :
  request_file env song w = (r, w1) →
  fs w1 = fs w ∧ dirs w1 = dirs w ∧ pools w1 = pools w ∧ out w1 = out w
  ∧ (∀ k, k ≠ lit "Referer" → headers w1 !! k = headers w !! k)
  ∧ ((events w1 = events w ++ [Sent (page_request song w)]
      ∧ drawn w1 = drawn w
      ∧ ∃ e, r = Raised e)
     ∨ (events w1 = events w
                    ++ [Sent (page_request song w);
                        Slept (uniform 1 3 (random env (drawn w)));
                        Sent (file_request song w)]
        ∧ drawn w1 = S (drawn w)
        ∧ ∀ c, r ≠ SystemExit c)).
Proof.
  unfold request_file, set_header, random_uniform, sleep. intros Heq.
  repeat match goal with
         | H : (_ ≫= _) _ = _ |- _ =>
             apply run_bind_inv in H
               as [(? & ? & ? & H) | [(? & ? & ->) | (? & ? & ->)]]
         | H : session_get _ _ _ = _ |- _ =>
             apply session_get_inv in H as [-> [[? ?]|[? ?]]]
         | H : raise_for_status _ _ _ = _ |- _ =>
             apply raise_for_status_inv in H as [-> [[? ?]|?]]
         | H : _ |- _ => progress run_plain H
         end;
    simplify_eq; cbn;
    (split_and!; [done..| intros k Hk; by rewrite ?lookup_insert_ne by done |]);
    first [ left; split_and!; [|done|eauto]
          | right; split_and!; [|done|done] ];
    by rewrite <- ?app_assoc.
Qed.

Lemma file_frame_refl (key : str) (w : World) : file_frame key w w.
Proof. by unfold file_frame. Qed.

Lemma file_frame_trans (key : str) (w w1 w2 : World) :
  file_frame key w w1 → file_frame key w1 w2 → file_frame key w w2.
Proof.
  unfold file_frame. intros (?&?&?&?&?&?&Hf1) (?&?&?&?&?&?&Hf2).
  split_and!; try congruence. intros k Hk. by rewrite Hf2, Hf1.
Qed.

Lemma sniff_inv (resp : Response) (w w1 : World)
    (r : result (bool * list bytes * option exn)) :
  sniff resp w = (r, w1) → w1 = w ∧ ∀ c, r ≠ SystemExit c.
Proof.
  unfold sniff, response_content. intros Heq.
  repeat case_match; cbv [mbind run_mbind run_bind] in Heq; run_plain Heq;
    done.
Qed.

(** The loop of the [with] block appends the body to the file. *)
Lemma write_chunks (p : path) (body : list bytes) (w : World) :
  ∃ w1,
    for_each
      (λ chunk, if decide (chunk = []) then mret tt else write p chunk)
      body w = (Ok tt, w1)
    ∧ file_frame (path_str p) w w1
    ∧ fs w1 !! path_str p = (λ c, c ++ concat body) <$> fs w !! path_str p.
Proof.
  revert w. induction body as [|chunk body IH]; intros w.
  - exists w. split_and!; [done | apply file_frame_refl |].
    cbn. destruct (fs w !! path_str p); cbn; by rewrite ?app_nil_r.
  - cbn [for_each concat].
    case_decide as Hne; [subst chunk|].
    + destruct (IH w) as (w1 & Hrun & Hframe & Hfile).
      exists w1. split_and!; [|done..].
      by erewrite run_bind_ok by reflexivity.
    + destruct (IH (set_fs (alter (λ c, c ++ chunk) (path_str p)) w))
        as (w1 & Hrun & Hframe & Hfile).
      exists w1. split_and!.
      * by erewrite run_bind_ok by reflexivity.
      * eapply file_frame_trans; [|done]. unfold file_frame; cbn.
        split_and!; try done. intros k Hk. by rewrite lookup_alter_ne.
      * rewrite Hfile. cbn. rewrite lookup_alter_eq.
        destruct (fs w !! path_str p); cbn; by rewrite ?(assoc_L (++)).
Qed.

Lemma save_body_inv (p : path) (body : list bytes) (ending : option exn)
    (w w1 : World) (r : result unit) :
  save_body p body ending w = (r, w1) →
  file_frame (path_str p) w w1
  ∧ (∀ c, r ≠ SystemExit c)
  ∧ (r = Ok tt →
     parent p ∈ dirs w ∧ ending = None
     ∧ fs w1 !! path_str p = Some (concat body)).
Proof.
  unfold save_body, open_wb. intros Heq.
  apply run_bind_inv in Heq
    as [(? & w0 & Hopen & Heq) | [(? & Hopen & ->) | (? & Hopen & ->)]];
    case_decide; simplify_eq.
  2: { split_and!; [apply file_frame_refl | done..]. }
  destruct (write_chunks p body (set_fs <[path_str p:=[]]> w))
    as (w2 & Hrun & Hframe & Hfile).
  rewrite (run_bind_ok _ _ _ _ _ Hrun) in Heq.
  assert (file_frame (path_str p) w w2) as Hframe'.
  { eapply file_frame_trans; [|done]. unfold file_frame; cbn.
    split_and!; try done. intros k Hk. by rewrite lookup_insert_ne. }
  cbn in Hfile. rewrite lookup_insert_eq in Hfile. cbn in Hfile.
  destruct ending; run_plain Heq; done.
Qed.

Lemma check_saved_inv (song : Song) (p : path) (w w1 : World)
    (r : result str) :
  check_saved song p w = (r, w1) →
  file_frame (path_str p) w w1 ∧ ∀ c, r ≠ SystemExit c.
Proof.
  unfold check_saved, stat_size, read_file, unlink. intros Heq.
  cbv [mbind run_mbind run_bind mret run_mret run_ret] in Heq.
  destruct (fs w !! path_str p) as [content|] eqn:Hfile; [|by simplify_eq].
  destruct (N.of_nat (length content) <? 1000);
    [rewrite Hfile in Heq; destruct (contains _ _); [rewrite Hfile in Heq|] |];
    simplify_eq; split; try done; try apply file_frame_refl.
  unfold file_frame; cbn. split_and!; try done.
  intros k Hk. by rewrite lookup_delete_ne.
Qed.

(** The events of one call of [download_song]: none, the visit of the song
    page alone, or the visit, the delay and the request for the file. *)
Lemma download_song_spec (song : Song) (dir : str) (w w1 : World)
    (r : result str) :
  download_song env song dir w = (r, w1) →
  (∃ s, r = Ok s)
  ∧ dirs w1 = dirs w ∧ pools w1 = pools w ∧ out w1 = out w
  ∧ (∀ k, k ≠ lit "Referer" → headers w1 !! k = headers w !! k)
  ∧ (∀ k, k ≠ path_str (filepath_of dir song) → fs w1 !! k = fs w !! k)
  ∧ (∀ k, is_Some (fs w !! k) → fs w1 !! k = fs w !! k)
  ∧ (events w1 = events w ∧ drawn w1 = drawn w
     ∨ events w1 = events w ++ [Sent (page_request song w)]
       ∧ drawn w1 = drawn w
     ∨ events w1 = events w
                   ++ [Sent (page_request song w);
                       Slept (uniform 1 3 (random env (drawn w)));
                       Sent (file_request song w)]
       ∧ drawn w1 = S (drawn w)).
Proof.
  destruct (decide (is_Some (fs w !! path_str (filepath_of dir song))))
    as [Hex|Hnew].
  { rewrite download_song_skips by done. intros; simplify_eq.
    split_and!; eauto. }
  intros Heq.
  cut ((∃ s, r = Ok s)
       ∧ dirs w1 = dirs w ∧ pools w1 = pools w ∧ out w1 = out w
       ∧ (∀ k, k ≠ lit "Referer" → headers w1 !! k = headers w !! k)
       ∧ (∀ k, k ≠ path_str (filepath_of dir song) → fs w1 !! k = fs w !! k)
       ∧ (events w1 = events w ∧ drawn w1 = drawn w
          ∨ events w1 = events w ++ [Sent (page_request song w)]
            ∧ drawn w1 = drawn w
          ∨ events w1 = events w
                        ++ [Sent (page_request song w);
                            Slept (uniform 1 3 (random env (drawn w)));
                            Sent (file_request song w)]
            ∧ drawn w1 = S (drawn w))).
  { intros (?&?&?&?&?&Hfs&?). split_and!; try done.
    intros k Hk. apply Hfs. intros ->. done. }
  unfold download_song, try_except in Heq.
  destruct (download_song_body env song dir w) as [rb wb] eqn:Hbody.
  assert ((∀ c, rb ≠ SystemExit c)
          ∧ dirs wb = dirs w ∧ pools wb = pools w ∧ out wb = out w
          ∧ (∀ k, k ≠ lit "Referer" → headers wb !! k = headers w !! k)
          ∧ (∀ k, k ≠ path_str (filepath_of dir song)
                  → fs wb !! k = fs w !! k)
          ∧ (events wb = events w ∧ drawn wb = drawn w
             ∨ events wb = events w ++ [Sent (page_request song w)]
               ∧ drawn wb = drawn w
             ∨ events wb = events w
                           ++ [Sent (page_request song w);
                               Slept (uniform 1 3 (random env (drawn w)));
                               Sent (file_request song w)]
               ∧ drawn wb = S (drawn w))) as Hb.
  { clear Heq. unfold download_song_body, path_exists in Hbody.
    apply run_bind_inv in Hbody
      as [(present & w0 & Hp & Hbody) | [(? & Hp & ->) | (? & Hp & ->)]];
      cbv [mbind run_mbind run_bind mret run_mret run_ret get_state] in Hp;
      simplify_eq.
    rewrite bool_decide_eq_false_2 in Hbody by done.
    apply run_bind_inv in Hbody
      as [(resp & w2 & Hreq & Hbody) | [(? & Hreq & ->) | (? & Hreq & ->)]];
      apply request_file_spec in Hreq
        as (Hfs & Hd & Hp & Ho & Hh & [(Hev & Hdr & [? ?])|(Hev & Hdr & Hne)]);
      simplify_eq; try no_exit;
      try (split_and!; try done; try (intros; congruence); eauto; fail).
    apply run_bind_inv in Hbody
      as [([[bot body] ending] & w3 & Hsn & Hbody)
         | [(? & Hsn & ->) | (? & Hsn & ->)]];
      apply sniff_inv in Hsn as [-> Hne']; try no_exit;
      try (split_and!; try done; try (intros; congruence); eauto; fail).
    destruct bot.
    { run_plain Hbody.
      split_and!; try done; try (intros; congruence); eauto. }
    apply run_bind_inv in Hbody
      as [(? & w4 & Hsave & Hbody) | [(? & Hsave & ->) | (? & Hsave & ->)]];
      apply save_body_inv in Hsave as (Hfr & Hne'' & _);
      try no_exit;
      destruct Hfr as (?&?&?&?&?&?&Hfr).
    - apply check_saved_inv in Hbody as [(?&?&?&?&?&?&Hfr') Hne3].
      split_and!; try done; try congruence;
        first [ by (intros k Hk; rewrite <- Hh by done; congruence)
              | by (intros k Hk; rewrite Hfr', Hfr, Hfs)
              | (right; right; split; congruence) ].
    - split_and!; try done; try congruence;
        first [ by (intros k Hk; rewrite <- Hh by done; congruence)
              | by (intros k Hk; rewrite Hfr, Hfs)
              | (right; right; split; congruence) ]. }
  destruct Hb as (Hne & ?).
  destruct rb; [| |by destruct (Hne code)]; run_plain Heq;
    split_and!; eauto; tauto.
Qed.

End DownloadFacts.

Section DownloadRuns.
Import Download.
Context `{Runtime} (env : Env).

Lemma sequence_downloads (dir : str) (songs : list Song) (w : World) :
  ∃ rs w1,
    sequence (map (λ song, attempt (download_song env song dir)) songs) w
    = (Ok (map inr rs), w1)
    ∧ downloads env dir w songs rs w1.
Proof.
  revert w. induction songs as [|song songs IH]; intros w.
  - exists [], w. split; [done | constructor].
  - destruct (download_song env song dir w) as [r w1] eqn:Hsong.
    destruct (download_song_spec env _ _ _ _ _ Hsong) as ([s ->] & _).
    destruct (IH w1) as (rs & w2 & Hrun & Hdl).
    exists (s :: rs), w2. split; [|by econstructor].
    assert (attempt (download_song env song dir) w = (Ok (inr s), w1))
      as Hatt by (unfold attempt; by rewrite Hsong).
    cbn [map sequence].
    rewrite (run_bind_ok _ _ _ _ _ Hatt), (run_bind_ok _ _ _ _ _ Hrun).
    done.
Qed.

Lemma count_failed_cons (r : str) (rs : list str) :
  count_failed (r :: rs)
  = ((if contains (lit "Failed") r then 1 else 0) + count_failed rs)%nat.
Proof.
  unfold count_failed. rewrite filter_cons.
  destruct (contains (lit "Failed") r); by case_decide.
Qed.

Lemma report_run (total : nat) (rs : list str) (completed failed : nat)
    (w : World) :
  report total completed failed (map inr rs) w
  = (Ok ((completed + length rs)%nat, (failed + count_failed rs)%nat),
     set_out (λ l, l ++ status_lines total completed rs) w).
Proof.
  revert completed failed w.
  induction rs as [|r rs IH]; intros completed failed w.
  - cbn. rewrite !Nat.add_0_r. unfold set_out. rewrite app_nil_r.
    by destruct w.
  - cbn [map report future_result status_lines]. unfold line_of, print.
    cbv [mbind run_mbind run_bind mret run_mret run_ret modify].
    rewrite count_failed_cons.
    destruct (contains (lit "Failed") r) eqn:Hf;
      [|destruct (contains (lit "Skipped") r)];
      rewrite IH; cbn [length]; unfold set_out; cbn;
      rewrite <- (assoc_L (++)); repeat f_equal; lia.
Qed.

Lemma count_failed_perm (rs rs' : list str) :
  rs ≡ₚ rs' → count_failed rs = count_failed rs'.
Proof. unfold count_failed. by intros ->. Qed.

(** The run of [download_all_songs]: one call of [download_song] per song
    whatever the calls before it returned, and one line per result, in
    the order of completion. *)
Lemma download_all_songs_run (songs : list Song) (max_workers : option nat)
    (w : World) :
  default 1%nat max_workers ≠ 0%nat →
  ∃ rs w1,
    downloads env (lit "mkw_music_brstm") (session_start max_workers w)
      songs rs w1
    ∧ download_all_songs env songs max_workers w
      = (Ok (length songs, count_failed rs),
         set_out
           (λ l, l ++ status_lines (length songs) 0
                        (as_completed (completion env) rs)) w1)
    ∧ length rs = length songs.
Proof.
  intros Hmw.
  destruct (sequence_downloads (lit "mkw_music_brstm") songs
              (session_start max_workers w)) as (rs & w1 & Hrun & Hdl).
  exists rs, w1. split; [done|].
  assert (length rs = length songs) as Hlen.
  { clear Hrun. induction Hdl; cbn; congruence. }
  split; [|done].
  unfold download_all_songs, mkdir, new_session, thread_pool.
  rewrite decide_False by done.
  cbv [mbind run_mbind run_bind modify].
  fold (session_start max_workers w). rewrite Hrun.
  rewrite as_completed_map, report_run, as_completed_length.
  rewrite (count_failed_perm _ rs) by apply as_completed_perm.
  by rewrite Hlen.
Qed.

End DownloadRuns.

Local Open Scope Q_scope.

(** The delay is within one and three seconds, both ends included. *)
Lemma uniform_bounds `{Runtime} (r : Q) :
  rounding_sound → 0 <= r → r < 1 →
  1 <= Download.uniform 1 3 r ∧ Download.uniform 1 3 r <= 3.
Proof.
  intros [Hmono Hexact] Hr0 Hr1. unfold Download.uniform.
  pose proof (Hexact 0%Z ltac:(lia)) as H0.
  pose proof (Hexact 1%Z ltac:(lia)) as H1.
  pose proof (Hexact 2%Z ltac:(lia)) as H2.
  pose proof (Hexact 3%Z ltac:(lia)) as H3.
  change (inject_Z 0) with 0 in H0. change (inject_Z 1) with 1 in H1.
  change (inject_Z 2) with 2 in H2. change (inject_Z 3) with 3 in H3.
  change (3 - 1) with 2.
  set (x := float_round (float_round 2 * r)).
  assert (0 <= x ∧ x <= 2) as [Hx0 Hx2].
  { subst x. split.
    - apply Qle_trans with (float_round 0); [by rewrite H0|].
      apply Hmono. rewrite H2. lra.
    - apply Qle_trans with (float_round 2); [|by rewrite H2].
      apply Hmono. rewrite H2. lra. }
  split.
  - apply Qle_trans with (float_round 1); [by rewrite H1|].
    apply Hmono. lra.
  - apply Qle_trans with (float_round 3); [|by rewrite H3].
    apply Hmono. lra.
Qed.

Local Close Scope Q_scope.

Section DownloadTraces.
Import Download.
Context `{Runtime} (env : Env).

Lemma referer_is_not_user_agent : lit "Referer" ≠ lit "User-Agent".
Proof. by vm_compute. Qed.

Lemma session_user_agent (max_workers : option nat) (w : World) :
  headers (session_start max_workers w) !! lit "User-Agent" = Some user_agent.
Proof.
  cbn. apply lookup_union_Some_l. by vm_compute.
Qed.

(** What a run of downloads leaves as it was. *)
Lemma downloads_frame (dir : str) (songs : list Song) (rs : list str)
    (w w1 : World) :
  downloads env dir w songs rs w1 →
  dirs w1 = dirs w ∧ pools w1 = pools w ∧ out w1 = out w
  ∧ (∀ k, k ≠ lit "Referer" → headers w1 !! k = headers w !! k)
  ∧ (∀ k, is_Some (fs w !! k) → fs w1 !! k = fs w !! k).
Proof.
  induction 1 as [w|w w1 w2 song songs r rs Hsong _ IH]; [done|].
  apply download_song_spec in Hsong as (_ & Hd & Hp & Ho & Hh & _ & Hfs & _).
  destruct IH as (Hd' & Hp' & Ho' & Hh' & Hfs').
  split_and!; try congruence.
  - intros k Hk. by rewrite Hh', Hh.
  - intros k Hk. rewrite Hfs', Hfs; [done..|]. by rewrite Hfs.
Qed.

(** The events of a run of downloads, song by song. *)
Lemma downloads_events (dir : str) (songs : list Song) (rs : list str)
    (w w1 : World) :
  headers w !! lit "User-Agent" = Some user_agent →
  downloads env dir w songs rs w1 →
  ∃ evss,
    events w1 = events w ++ concat evss
    ∧ run_events env (drawn w) songs evss.
Proof.
  intros Hua Hdl.
  induction Hdl as [w|w w1 w2 song songs r rs Hsong _ IH].
  - exists []. split; [by rewrite app_nil_r | done].
  - apply download_song_spec in Hsong as (_ & _ & _ & _ & Hh & _ & _ & Hev).
    destruct IH as (evss & Hevs & Hall).
    { rewrite Hh; [done|]. apply not_eq_sym, referer_is_not_user_agent. }
    assert (visit_of song (page_request song w)) as Hv.
    { split_and!; [done|apply lookup_insert_eq|]. cbn.
      rewrite lookup_insert_ne by apply referer_is_not_user_agent. done. }
    assert (fetch_of song (file_request song w)) as Hf.
    { split_and!; [done|apply lookup_insert_eq|]. cbn.
      rewrite !lookup_insert_ne by apply referer_is_not_user_agent. done. }
    destruct Hev as [[Hev Hdr]|[[Hev Hdr]|[Hev Hdr]]];
      rewrite Hev in Hevs; rewrite Hdr in Hall.
    + exists ([] :: evss). split; [done|].
      exists false. split; [by left | done].
    + eexists (_ :: evss). split.
      * rewrite Hevs. cbn [concat]. by rewrite <- (assoc_L (++)).
      * exists false. split; [|done]. right; left. eauto.
    + eexists (_ :: evss). split.
      * rewrite Hevs. cbn [concat]. by rewrite <- (assoc_L (++)).
      * exists true. split; [|done]. right; right. eauto 6.
Qed.

End DownloadTraces.

(** ** The converter *)

Section ConvertFacts.
Import Convert.
Context (env : Env).

Lemma subprocess_run_inv (argv : list str) (target : option path)
    (w w1 : World) (r : result unit) :
  subprocess_run env argv target w = (r, w1) →
  procs w1 = procs w ++ [argv]
  ∧ dirs w1 = dirs w ∧ pools w1 = pools w ∧ submitted w1 = submitted w
  ∧ out w1 = out w
  ∧ match run_process env argv (fs w) with
    | NotStarted msg =>
        fs w1 = fs w
        ∧ r = Raised {| exn_type := lit "FileNotFoundError"; exn_msg := msg |}
    | Exited rc written =>
        fs w1 = match target with
                | Some p => after_command p written (fs w)
                | None => fs w
                end
        ∧ if decide (rc = 0%Z) then r = Ok tt
          else r = Raised {| exn_type := lit "CalledProcessError";
                             exn_msg := lit "non-zero exit status" |}
    end.
Proof.
  unfold subprocess_run, after_command.
  destruct (run_process env argv (fs w)) as [msg|rc written].
  - intros; by simplify_eq.
  - destruct target, written; case_decide; intros; by simplify_eq.
Qed.

Lemma called_process_error_is_caught :
  lit "FileNotFoundError" ≠ lit "CalledProcessError".
Proof. by vm_compute. Qed.

Lemma unlink_inv (p : path) (w w1 : World) (r : result unit) :
  unlink p w = (r, w1) →
  procs w1 = procs w ∧ dirs w1 = dirs w ∧ pools w1 = pools w
  ∧ submitted w1 = submitted w ∧ out w1 = out w
  ∧ if decide (is_Some (fs w !! path_str p))
    then fs w1 = delete (path_str p) (fs w) ∧ r = Ok tt
    else fs w1 = fs w
         ∧ r = Raised {| exn_type := lit "FileNotFoundError";
                         exn_msg := path_str p |}.
Proof.
  unfold unlink. destruct (fs w !! path_str p) eqn:Hp; intros; simplify_eq.
  - rewrite decide_True by eauto. done.
  - rewrite decide_False by (by intros [? ?]). done.
Qed.

(** The handler of [convert_file]: the intermediate file is removed if it
    is there, and the line is returned. *)
Lemma cleanup_inv (p : path) (line : str) (w w1 : World) (r : result str) :
  (present ← path_exists p;
   (if present : bool then unlink p else mret tt);; mret line) w = (r, w1) →
  r = Ok line
  ∧ procs w1 = procs w ∧ dirs w1 = dirs w ∧ pools w1 = pools w
  ∧ submitted w1 = submitted w ∧ out w1 = out w
  ∧ fs w1 = delete (path_str p) (fs w).
Proof.
  unfold path_exists, unlink.
  cbv [mbind run_mbind run_bind mret run_mret run_ret get_state].
  destruct (fs w !! path_str p) eqn:Hp.
  - rewrite bool_decide_eq_true_2 by eauto. rewrite Hp.
    intros; by simplify_eq.
  - rewrite bool_decide_eq_false_2 by (by intros [? ?]).
    intros; simplify_eq. split_and!; try done. by rewrite delete_id.
Qed.

(** [convert_file] in full: what it runs, returns and leaves, from what
    the two commands do. *)
Lemma convert_file_cases (b o : path) (i n : nat) (w : World) :
  let wav := path_str (temp_wav_of o) in
  let failed := status_line i n mark_failed (lit "Failed: " ++ stem b) in
  let converted := status_line i n mark_done (lit "Converted: " ++ stem b) in
  ∃ r w1,
    convert_file env b o i n w = (r, w1)
    ∧ dirs w1 = dirs w ∧ pools w1 = pools w ∧ submitted w1 = submitted w
    ∧ out w1 = out w
    ∧ (∀ k, k ≠ path_str o → k ≠ wav → fs w1 !! k = fs w !! k)
    ∧ (∀ c, r ≠ SystemExit c)
    ∧ (∀ s, r = Ok s → fs w1 !! wav = None)
    ∧ match run_process env (vgmstream_command b o) (fs w) with
      | NotStarted msg =>
          procs w1 = procs w ++ [vgmstream_command b o]
          ∧ r = Raised {| exn_type := lit "FileNotFoundError";
                          exn_msg := msg |}
      | Exited rc1 written1 =>
          if decide (rc1 = 0%Z) then
            let fs1 := after_command (temp_wav_of o) written1 (fs w) in
            procs w1 = procs w ++ [vgmstream_command b o; ffmpeg_command o]
            ∧ match run_process env (ffmpeg_command o) fs1 with
              | NotStarted msg =>
                  r = Raised {| exn_type := lit "FileNotFoundError";
                                exn_msg := msg |}
              | Exited rc2 written2 =>
                  if decide (rc2 = 0%Z) then
                    if decide (is_Some (after_command o written2 fs1 !! wav))
                    then r = Ok converted
                    else r = Raised {| exn_type := lit "FileNotFoundError";
                                       exn_msg := wav |}
                  else r = Ok failed
              end
          else
            procs w1 = procs w ++ [vgmstream_command b o] ∧ r = Ok failed
      end.
Proof.
  intros wav failed converted.
  destruct (convert_file env b o i n w) as [r w1] eqn:Hrun.
  exists r, w1. split; [done|].
  unfold convert_file, try_except_class in Hrun.
  fold (temp_wav_of o) in Hrun. fold (vgmstream_command b o) in Hrun.
  fold (ffmpeg_command o) in Hrun. fold failed converted in Hrun.
  match type of Hrun with
  | context [match ?body w with _ => _ end] =>
      destruct (body w) as [rb wb] eqn:Hbody
  end.
  (* the extractor *)
  destruct (run_process env (vgmstream_command b o) (fs w))
    as [msg1|rc1 written1] eqn:Hv;
    [|destruct (decide (rc1 = 0%Z)) as [->|Hrc1]];
    (apply run_bind_inv in Hbody
       as [([] & w2 & Hvgm & Hbody) | [(e & Hvgm & ->) | (c & Hvgm & ->)]];
     apply subprocess_run_inv in Hvgm as (Hp1 & Hd1 & Hpl1 & Hs1 & Ho1 & Hvgm);
     rewrite Hv in Hvgm; destruct Hvgm as [Hfs1 Hr];
     rewrite ?decide_True, ?decide_False in Hr by done; simplify_eq).
  - (* it cannot be started *)
    cbn [exn_type] in Hrun.
    rewrite decide_False in Hrun by apply called_process_error_is_caught.
    simplify_eq.
    split_and!; congruence.
  - (* it exits with 0 *)
    assert (∀ k, k ≠ wav → fs w2 !! k = fs w !! k) as Hfr1.
    { intros k Hk. rewrite Hfs1. unfold after_command.
      destruct written1; [by rewrite lookup_insert_ne|done]. }
    cbn zeta. rewrite <- Hfs1.
    assert (∀ k, k ≠ path_str o → ∀ written2,
              after_command o written2 (fs w2) !! k = fs w2 !! k) as Hfr2.
    { intros k Hk written2. unfold after_command.
      destruct written2; [by rewrite lookup_insert_ne|done]. }
    destruct (run_process env (ffmpeg_command o) (fs w2))
      as [msg2|rc2 written2] eqn:Hf;
      [|destruct (decide (rc2 = 0%Z)) as [->|Hrc2]];
      (apply run_bind_inv in Hbody
         as [([] & w3 & Hff & Hbody) | [(e & Hff & ->) | (c & Hff & ->)]];
       apply subprocess_run_inv in Hff as (Hp2 & Hd2 & Hpl2 & Hs2 & Ho2 & Hff);
       rewrite Hf in Hff; destruct Hff as [Hfs2 Hr];
       rewrite ?decide_True, ?decide_False in Hr by done; simplify_eq).
    + (* the transcoder cannot be started *)
      cbn [exn_type] in Hrun.
      rewrite decide_False in Hrun by apply called_process_error_is_caught.
      simplify_eq.
      split_and!; try congruence.
      * intros k Hk1 Hk2. by rewrite Hfs2, Hfr1.
      * rewrite Hp2, Hp1. by rewrite <- (assoc_L (++)).
    + (* the transcoder exits with 0 *)
      rewrite <- Hfs2.
      destruct (decide (is_Some (fs w3 !! wav))) as [Hw|Hw];
        (apply run_bind_inv in Hbody
           as [([] & w4 & Hun & Hbody) | [(e & Hun & ->) | (c & Hun & ->)]];
         apply unlink_inv in Hun as (Hp3 & Hd3 & Hpl3 & Hs3 & Ho3 & Hun);
         fold wav in Hun;
         rewrite ?decide_True, ?decide_False in Hun by done;
         destruct Hun as [Hfs3 Hr]; simplify_eq).
      * run_plain Hbody.
        split_and!; try congruence.
        -- intros k Hk1 Hk2.
           by rewrite Hfs3, lookup_delete_ne, Hfs2, Hfr2, Hfr1.
        -- intros _ _. rewrite Hfs3. apply lookup_delete_eq.
        -- rewrite Hp3, Hp2, Hp1. by rewrite <- (assoc_L (++)).
      * cbn [exn_type] in Hrun.
        rewrite decide_False in Hrun
          by apply called_process_error_is_caught.
        simplify_eq.
        split_and!; try congruence.
        -- intros k Hk1 Hk2. by rewrite Hfs3, Hfs2, Hfr2, Hfr1.
        -- rewrite Hp3, Hp2, Hp1. by rewrite <- (assoc_L (++)).
    + (* the transcoder fails *)
      cbn [exn_type] in Hrun. rewrite decide_True in Hrun by done.
      apply cleanup_inv in Hrun as (-> & Hp3 & Hd3 & Hpl3 & Hs3 & Ho3 & Hfs3).
      fold wav in Hfs3.
      split_and!; try congruence.
      * intros k Hk1 Hk2.
        by rewrite Hfs3, lookup_delete_ne, Hfs2, Hfr2, Hfr1.
      * intros _ _. rewrite Hfs3. apply lookup_delete_eq.
      * rewrite Hp3, Hp2, Hp1. by rewrite <- (assoc_L (++)).
  - (* the extractor fails *)
    cbn [exn_type] in Hrun. rewrite decide_True in Hrun by done.
    apply cleanup_inv in Hrun as (-> & Hp3 & Hd3 & Hpl3 & Hs3 & Ho3 & Hfs3).
    fold wav in Hfs3.
    split_and!; try congruence.
    + intros k Hk1 Hk2. rewrite Hfs3, lookup_delete_ne, Hfs1 by done.
      unfold after_command.
      destruct written1; [by rewrite lookup_insert_ne|done].
    + intros _ _. rewrite Hfs3. apply lookup_delete_eq.
Qed.

End ConvertFacts.

Section ConvertRuns.
Import Convert.
Context (env : Env).

Lemma check_dependencies_inv (w w1 : World) (r : result unit) :
  check_dependencies env w = (r, w1) →
  fs w1 = fs w ∧ dirs w1 = dirs w ∧ pools w1 = pools w
  ∧ submitted w1 = submitted w ∧ out w1 = out w
  ∧ (r = Ok tt ∧ procs w1 = procs w ++ [[lit "ffmpeg"; lit "-version"]]
     ∨ r = SystemExit 1
       ∧ (procs w1 = procs w
          ∨ procs w1 = procs w ++ [[lit "ffmpeg"; lit "-version"]])).
Proof.
  unfold check_dependencies, try_except. intros Heq.
  cbv [mbind run_mbind run_bind get_state sys_exit] in Heq.
  destruct (negb (bool_decide (is_Some (fs w !! VGMSTREAM))));
    [simplify_eq; split_and!; eauto|].
  destruct (negb (bool_decide (INPUT_DIR ∈ dirs w)));
    [simplify_eq; split_and!; eauto|].
  destruct (subprocess_run env [lit "ffmpeg"; lit "-version"] None w)
    as [r0 w0] eqn:Hrun.
  apply subprocess_run_inv in Hrun as (Hp & Hd & Hpl & Hs & Ho & Hrun).
  destruct (run_process env _ (fs w)) as [msg|rc written];
    destruct Hrun as [Hfs Hr]; try case_decide; simplify_eq;
    split_and!; eauto.
Qed.

(** The scan prints a line per input whose output is there and keeps the
    others, in order. *)
Lemma scan_run (total : nat) (files : list path) (index : nat) (w : World) :
  ∃ index' w1,
    scan total index files w = (Ok (index', pending (fs w) files), w1)
    ∧ fs w1 = fs w ∧ dirs w1 = dirs w ∧ pools w1 = pools w
    ∧ submitted w1 = submitted w ∧ procs w1 = procs w.
Proof.
  revert index w. induction files as [|b files IH]; intros index w.
  - by exists index, w.
  - cbn [scan]. unfold path_exists, print, pending.
    cbv [mbind run_mbind run_bind mret run_mret run_ret get_state modify].
    rewrite filter_cons.
    destruct (fs w !! path_str (output_path_of b)) as [c|] eqn:Hb.
    + rewrite bool_decide_eq_true_2 by (by eexists).
      rewrite decide_False by done. cbn beta.
      match goal with
      | |- context [scan total (S index) files ?w'] =>
          destruct (IH (S index) w') as (index' & w1 & -> & Hfs & ?)
      end.
      exists index', w1. done.
    + rewrite bool_decide_eq_false_2 by (by intros [? ?]).
      rewrite decide_True by done. cbn beta.
      destruct (IH index w) as (index' & w1 & -> & Hfs & ?).
      exists index', w1. done.
Qed.

Lemma enumerate_tasks {A} (start : nat) (l : list A) :
  map snd (enumerate start l) = l.
Proof.
  revert start. induction l as [|x l IH]; intros start; cbn; [done|].
  by rewrite IH.
Qed.

Lemma submit_all (numbered : list (nat * (path * path))) (w : World) :
  ∃ w1,
    for_each (λ '(idx, (brstm_path, output_path)),
                submit brstm_path output_path) numbered w = (Ok tt, w1)
    ∧ fs w1 = fs w ∧ dirs w1 = dirs w ∧ pools w1 = pools w
    ∧ procs w1 = procs w ∧ out w1 = out w
    ∧ submitted w1 = submitted w ++ map snd numbered.
Proof.
  revert w. induction numbered as [|[idx [b o]] numbered IH]; intros w.
  - exists w. by rewrite app_nil_r.
  - cbn [for_each map].
    destruct (IH (set_submitted (λ l, l ++ [(b, o)]) w))
      as (w1 & Hrun & ? & ? & ? & ? & ? & Hs).
    exists w1. split_and!; try done.
    rewrite Hs. cbn. by rewrite <- (assoc_L (++)).
Qed.

(** The tasks, each run to its end whatever the tasks before it did. *)
Lemma tasks_run (total : nat) (numbered : list (nat * (path * path)))
    (w : World) :
  ∃ futures w1,
    sequence
      (map (λ '(idx, (brstm_path, output_path)),
              attempt (convert_file env brstm_path output_path idx total))
           numbered) w = (Ok futures, w1)
    ∧ conversions env total w numbered futures w1.
Proof.
  revert w. induction numbered as [|[idx [b o]] numbered IH]; intros w.
  - exists [], w. split; [done | constructor].
  - destruct (convert_file_cases env b o idx total w)
      as (r & w1 & Hrun & _ & _ & _ & _ & _ & Hne & _).
    assert (∃ f, attempt (convert_file env b o idx total) w = (Ok f, w1))
      as [f Hatt].
    { unfold attempt. rewrite Hrun.
      destruct r; eauto. by destruct (Hne code). }
    destruct (IH w1) as (futures & w2 & Hseq & Hconv).
    exists (f :: futures), w2. split; [|by econstructor].
    cbn [map sequence].
    rewrite (run_bind_ok _ _ _ _ _ Hatt), (run_bind_ok _ _ _ _ _ Hseq).
    done.
Qed.

(** Every task runs one or two commands, and no file but its own output
    and intermediate file is touched. *)
Lemma conversions_frame (total : nat) (numbered : list (nat * (path * path)))
    (futures : list (exn + str)) (w w1 : World) :
  conversions env total w numbered futures w1 →
  length futures = length numbered
  ∧ dirs w1 = dirs w ∧ pools w1 = pools w ∧ submitted w1 = submitted w
  ∧ out w1 = out w
  ∧ (∃ cmdss, procs w1 = procs w ++ concat cmdss
              ∧ Forall2 task_commands (map snd numbered) cmdss)
  ∧ (∀ k, (∀ t, t ∈ map snd numbered →
                k ≠ path_str t.2 ∧ k ≠ path_str (temp_wav_of t.2)) →
          fs w1 !! k = fs w !! k).
Proof.
  induction 1 as [w|w w1 w2 idx b o numbered f futures Hatt _ IH].
  { split_and!; try done. exists []. split; [by rewrite app_nil_r|constructor]. }
  destruct IH as (Hlen & Hd' & Hpl' & Hs' & Ho' & (cmdss & Hp' & Hall) & Hfs').
  destruct (convert_file_cases env b o idx total w)
    as (r & w1' & Hrun & Hd & Hpl & Hs & Ho & Hfs & Hne & _ & Hcmd).
  assert (w1' = w1) as ->.
  { unfold attempt in Hatt. rewrite Hrun in Hatt.
    destruct r; by simplify_eq. }
  assert (∃ cmds, procs w1 = procs w ++ cmds ∧ task_commands (b, o) cmds)
    as (cmds & Hp & Hshape).
  { unfold task_commands. cbn [fst snd].
    destruct (run_process env (vgmstream_command b o) (fs w));
      [destruct Hcmd; eauto|].
    case_decide; destruct Hcmd; eauto. }
  split_and!; try congruence.
  - cbn. congruence.
  - exists (cmds :: cmdss). split.
    + rewrite Hp', Hp. cbn [concat]. by rewrite (assoc_L (++)).
    + by constructor.
  - intros k Hk. rewrite Hfs'.
    + apply Hfs; apply (Hk (b, o)); cbn; left.
    + intros t Ht. apply Hk. cbn. by right.
Qed.

(** Printing the results changes the console only. *)
Lemma print_results (futures : list (exn + str)) (w w1 : World)
    (r : result unit) :
  for_each (λ future, result ← future_result future; print result)
           futures w = (r, w1) →
  fs w1 = fs w ∧ dirs w1 = dirs w ∧ pools w1 = pools w
  ∧ submitted w1 = submitted w ∧ procs w1 = procs w.
Proof.
  revert w. induction futures as [|f futures IH]; intros w.
  - cbn [for_each]. intros Heq. run_plain Heq. done.
  - cbn [for_each]. intros Heq.
    apply run_bind_inv in Heq
      as [([] & w2 & Hf & Heq) | [(e & Hf & ->) | (c & Hf & ->)]];
      (destruct f as [e'|s]; unfold future_result, print in Hf;
       cbv [mbind run_mbind run_bind] in Hf; run_plain Hf); try done.
    by apply IH in Heq as (? & ? & ? & ? & ?).
Qed.

(** Every returned line is printed. *)
Lemma print_all (lines : list str) (w : World) :
  for_each (λ future, result ← future_result future; print result)
           (map inr lines) w
  = (Ok tt, set_out (λ l, l ++ lines) w).
Proof.
  revert w. induction lines as [|s lines IH]; intros w.
  - cbn. unfold set_out. rewrite app_nil_r. by destruct w.
  - cbn [map for_each].
    assert ((result ← future_result (inr s); print result) w
            = (Ok tt, set_out (λ l, l ++ [s]) w)) as Hs by reflexivity.
    rewrite (run_bind_ok _ _ _ _ _ Hs), IH. unfold set_out; cbn.
    by rewrite <- (assoc_L (++)).
Qed.

Lemma m4a_last (b : path) : last (path_str (output_path_of b)) = Some 97.
Proof.
  unfold path_str, output_path_of, in_dir; cbn [parent fname].
  change (lit ".m4a") with ([46; 109; 52] ++ [97]).
  by rewrite !(assoc_L (++)), last_snoc.
Qed.

Lemma wav_last (o : path) : last (path_str (temp_wav_of o)) = Some 118.
Proof.
  unfold path_str, temp_wav_of, with_suffix; cbn [parent fname].
  change (lit ".wav") with ([46; 119; 97] ++ [118]).
  by rewrite !(assoc_L (++)), last_snoc.
Qed.

Lemma pending_spec (fs0 : gmap str bytes) (files : list path) (t : path * path) :
  t ∈ pending fs0 files ↔
  t.1 ∈ files ∧ t.2 = output_path_of t.1 ∧ fs0 !! path_str t.2 = None.
Proof.
  unfold pending. rewrite list_elem_of_fmap. split.
  - intros (b & -> & [Hb Hin]%list_elem_of_filter). done.
  - intros (Hin & Ho & Hnone). exists t.1. split.
    + destruct t; cbn in *; congruence.
    + apply list_elem_of_filter. split; [congruence|done].
Qed.

Local Ltac stopped :=
  cbn [fs pools submitted procs set_dirs set_pools] in *;
  first [ congruence | right; congruence | left; congruence ].

(** A run of [convert_files_parallel]: either it stops before any task
    is submitted and leaves the files as they were, or it creates the
    executor, submits the inputs whose output is missing, runs each of
    them once and prints what they returned, in the order of
    completion. *)
Lemma convert_files_parallel_run (w : World) :
  ∃ r w1,
    convert_files_parallel env w = (r, w1)
    ∧ ((submitted w1 = submitted w ∧ pools w1 = pools w ∧ fs w1 = fs w
        ∧ (procs w1 = procs w
           ∨ procs w1 = procs w ++ [[lit "ffmpeg"; lit "-version"]]))
       ∨ ∃ files tasks index ws we futures,
           files = glob INPUT_DIR (lit ".brstm") (fs w)
           ∧ tasks = pending (fs w) files ∧ tasks ≠ []
           ∧ fs ws = fs w
           ∧ procs ws = procs w ++ [[lit "ffmpeg"; lit "-version"]]
           ∧ conversions env (length files) ws
               (enumerate (S index) tasks) futures we
           ∧ submitted w1 = submitted w ++ tasks
           ∧ pools w1 = pools w ++ [cpu_count env]
           ∧ fs w1 = fs we ∧ procs w1 = procs we
           ∧ (∀ lines, futures = map inr lines →
                       r = Ok tt
                       ∧ out w1
                         = out we ++ as_completed (completion env) lines)).
Proof.
  destruct (convert_files_parallel env w) as [r w1] eqn:Hrun.
  exists r, w1. split; [done|].
  unfold convert_files_parallel in Hrun.
  apply run_bind_inv in Hrun
    as [([] & w2 & Hdep & Hrun) | [(e & Hdep & ->) | (c & Hdep & ->)]];
    apply check_dependencies_inv in Hdep
      as (Hfs & Hd & Hpl & Hs & Ho & [[Hr Hp]|[Hr Hp]]);
    simplify_eq; try (left; split_and!; stopped).
  apply run_bind_inv in Hrun
    as [([] & w2' & Hmk & Hrun) | [(e & Hmk & ->) | (c & Hmk & ->)]];
    unfold mkdir in Hmk; run_plain Hmk.
  apply run_bind_inv in Hrun
    as [(w2' & ? & Hget & Hrun) | [(e & Hget & ->) | (c & Hget & ->)]];
    run_plain Hget.
  cbn [fs set_dirs] in Hrun. rewrite Hfs in Hrun.
  set (files := glob INPUT_DIR (lit ".brstm") (fs w)) in *.
  destruct (decide (files = [])) as [Hnil|Hfiles].
  { run_plain Hrun. left; split_and!; stopped. }
  destruct (scan_run (length files) files 0
              (set_dirs (λ d, {[OUTPUT_DIR]} ∪ d) w2))
    as (index & w3 & Hscan & Hfs3 & Hd3 & Hpl3 & Hs3 & Hp3).
  cbn [fs pools submitted procs set_dirs] in Hscan, Hfs3, Hpl3, Hs3, Hp3.
  rewrite Hfs in Hscan.
  rewrite (run_bind_ok _ _ _ _ _ Hscan) in Hrun. cbn beta iota in Hrun.
  set (tasks := pending (fs w) files) in *.
  destruct (decide (tasks = [])) as [Htasks|Htasks].
  { run_plain Hrun. left; split_and!; stopped. }
  apply run_bind_inv in Hrun
    as [([] & w4 & Hpool & Hrun) | [(e & Hpool & ->) | (c & Hpool & ->)]];
    unfold process_pool in Hpool; case_decide; run_plain Hpool;
    try (left; split_and!; stopped).
  destruct (submit_all (enumerate (S index) tasks)
              (set_pools (λ l, l ++ [cpu_count env]) w3))
    as (w5 & Hsub & Hfs5 & Hd5 & Hpl5 & Hp5 & Ho5 & Hs5).
  rewrite (run_bind_ok _ _ _ _ _ Hsub) in Hrun.
  rewrite enumerate_tasks in Hs5.
  destruct (tasks_run (length files) (enumerate (S index) tasks) w5)
    as (futures & w6 & Hseq & Hconv).
  rewrite (run_bind_ok _ _ _ _ _ Hseq) in Hrun.
  pose proof (conversions_frame _ _ _ _ _ Hconv)
    as (_ & Hd6 & Hpl6 & Hs6 & Ho6 & _ & _).
  right. exists files, tasks, index, w5, w6, futures.
  cbn [fs pools submitted procs set_pools] in *.
  pose proof (print_results _ _ _ _ Hrun) as (Hfs7 & Hd7 & Hpl7 & Hs7 & Hp7).
  split_and!; try done; try congruence.
  intros lines ->. rewrite as_completed_map, print_all in Hrun.
  by simplify_eq.
Qed.

End ConvertRuns.

(** ** The run of the conversion *)

Section ConvertTasks.
Import Convert.
Context (env : Env).

Lemma check_dependencies_met (w : World) :
  dependencies_met env w = true →
  check_dependencies env w
  = (Ok tt, set_procs (λ l, l ++ [ffmpeg_version]) w).
Proof.
  unfold dependencies_met, check_dependencies, try_except, subprocess_run.
  intros [[Hv Hd]%andb_true_iff Hf]%andb_true_iff.
  cbv [mbind run_mbind run_bind get_state]. rewrite Hv, Hd. cbn [negb].
  fold ffmpeg_version.
  destruct (run_process env ffmpeg_version (fs w)) as [msg|rc written];
    [done|].
  by destruct rc.
Qed.

Lemma check_dependencies_unmet (w : World) :
  dependencies_met env w = false →
  ∃ w1,
    check_dependencies env w = (SystemExit 1, w1)
    ∧ fs w1 = fs w ∧ dirs w1 = dirs w ∧ pools w1 = pools w
    ∧ submitted w1 = submitted w ∧ out w1 = out w
    ∧ (procs w1 = procs w ∨ procs w1 = procs w ++ [ffmpeg_version]).
Proof.
  unfold dependencies_met, check_dependencies, try_except, subprocess_run.
  cbv [mbind run_mbind run_bind get_state sys_exit]. fold ffmpeg_version.
  destruct (bool_decide (is_Some (fs w !! VGMSTREAM))); cbn [andb negb];
    [|intros _; exists w; split_and!; eauto].
  destruct (bool_decide (INPUT_DIR ∈ dirs w)); cbn [andb negb];
    [|intros _; exists w; split_and!; eauto].
  destruct (run_process env ffmpeg_version (fs w)) as [msg|rc written].
  - intros _. eexists. split; [reflexivity|]. split_and!; eauto.
  - destruct (decide (rc = 0%Z)) as [->|Hrc]; [done|].
    intros _. eexists. split; [reflexivity|]. split_and!; eauto.
Qed.

Lemma scan_count (total : nat) (files : list path) (index : nat) (w : World) :
  scan total index files w
  = (Ok ((index + length (skipped_inputs (fs w) files))%nat,
         pending (fs w) files),
     set_out (λ l, l ++ skip_lines total index (skipped_inputs (fs w) files))
       w).
Proof.
  revert index w. induction files as [|b files IH]; intros index w.
  - cbn. unfold set_out. rewrite app_nil_r, Nat.add_0_r. by destruct w.
  - cbn [scan]. unfold path_exists, print, pending, skipped_inputs.
    cbv [mbind run_mbind run_bind mret run_mret run_ret get_state modify].
    rewrite !filter_cons.
    destruct (fs w !! path_str (output_path_of b)) as [c|] eqn:Hb.
    + rewrite bool_decide_eq_true_2 by (by eexists).
      rewrite (decide_False (P := Some c = None)) by done.
      rewrite (decide_True (P := is_Some (Some c))) by (by eexists).
      cbn beta. rewrite IH. cbn [fs set_out out length skip_lines].
      unfold pending, skipped_inputs, set_out; cbn.
      rewrite <- (assoc_L (++)). do 3 f_equal. lia.
    + rewrite bool_decide_eq_false_2 by (by intros [? ?]).
      rewrite (decide_True (P := None = None)) by done.
      rewrite (decide_False (P := is_Some None)) by (by intros [? ?]).
      cbn beta. rewrite IH. done.
Qed.

Lemma skipped_or_pending (fs0 : gmap str bytes) (files : list path) :
  (length (skipped_inputs fs0 files) + length (pending fs0 files))%nat
  = length files.
Proof.
  unfold skipped_inputs, pending. rewrite length_map.
  induction files as [|b files IH]; [done|]. rewrite !filter_cons.
  destruct (fs0 !! path_str (output_path_of b)) as [c|] eqn:Hb.
  - rewrite (decide_True (P := is_Some (Some c))) by (by eexists).
    rewrite (decide_False (P := Some c = None)) by done.
    cbn [length]. lia.
  - rewrite (decide_False (P := is_Some None)) by (by intros [? ?]).
    rewrite (decide_True (P := None = None)) by done.
    cbn [length]. lia.
Qed.

Lemma skip_lines_length (total index : nat) (inputs : list path) :
  length (skip_lines total index inputs) = length inputs.
Proof.
  revert index. induction inputs as [|b l IH]; intros k; cbn; [done|].
  by rewrite IH.
Qed.

Lemma enumerate_numbers {A} (start : nat) (l : list A) :
  map fst (enumerate start l) = seq start (length l).
Proof.
  revert start. induction l as [|x l IH]; intros start; [done|].
  cbn. by rewrite IH.
Qed.

Lemma subprocess_run_exit (argv : list str) (p : path) (w : World)
    (rc : Z) (written : option bytes) :
  run_process env argv (fs w) = Exited rc written →
  subprocess_run env argv (Some p) w
  = (if decide (rc = 0%Z) then Ok tt
     else Raised {| exn_type := lit "CalledProcessError";
                    exn_msg := lit "non-zero exit status" |},
     set_fs (after_command p written)
       (set_procs (λ l, l ++ [argv]) w)).
Proof.
  intros Hrun. unfold subprocess_run. rewrite Hrun.
  destruct written; case_decide; try done; by destruct w.
Qed.

Lemma subprocess_run_not_started (argv : list str) (target : option path)
    (w : World) (msg : str) :
  run_process env argv (fs w) = NotStarted msg →
  subprocess_run env argv target w
  = (Raised {| exn_type := lit "FileNotFoundError"; exn_msg := msg |},
     set_procs (λ l, l ++ [argv]) w).
Proof. intros Hrun. unfold subprocess_run. by rewrite Hrun. Qed.

(** *** The run after the checks *)


Lemma returned_before_raise_inl {A} (lines : list A) (e : exn)
    (rest : list (exn + A)) :
  returned_before_raise (map inr lines ++ inl e :: rest) = lines
  ∧ first_raised (map inr lines ++ inl e :: rest) = Some e.
Proof. induction lines as [|s lines [IH1 IH2]]; [done|]. cbn. by rewrite IH1. Qed.

(** The loop over the futures prints the lines of the futures that come
    before the first one holding an exception, and raises that one. *)
Lemma print_futures_run (futures : list (exn + str)) (w : World) :
  print_futures futures w
  = (results_taken futures,
     set_out (λ l, l ++ returned_before_raise futures) w).
Proof.
  unfold print_futures, results_taken. revert w.
  induction futures as [|[e|s] futures IH]; intros w.
  - cbn. unfold set_out. rewrite app_nil_r. by destruct w.
  - cbn. unfold set_out. rewrite app_nil_r. by destruct w.
  - cbn [for_each returned_before_raise first_raised].
    assert ((result ← future_result (inr s); print result) w
            = (Ok tt, set_out (λ l, l ++ [s]) w)) as Hs by reflexivity.
    rewrite (run_bind_ok _ _ _ _ _ Hs), IH. unfold set_out; cbn.
    by rewrite <- (assoc_L (++)).
Qed.


Lemma submit_all_run (numbered : list (nat * (path * path))) (w : World) :
  for_each (λ '(idx, (brstm_path, output_path)),
              submit brstm_path output_path) numbered w
  = (Ok tt, set_submitted (λ l, l ++ map snd numbered) w).
Proof.
  revert w. induction numbered as [|[idx [b o]] numbered IH]; intros w.
  - cbn. unfold set_submitted. rewrite app_nil_r. by destruct w.
  - cbn [for_each map].
    assert (submit b o w = (Ok tt, set_submitted (λ l, l ++ [(b, o)]) w))
      as Hs by reflexivity.
    rewrite (run_bind_ok _ _ _ _ _ Hs), IH. unfold set_submitted; cbn.
    by rewrite <- (assoc_L (++)).
Qed.

(** The run once the dependencies are met, step by step. *)
Lemma convert_files_parallel_checked (w : World) :
  dependencies_met env w = true →
  convert_files_parallel env w
  = let files := inputs_of w in
    let skipped := skipped_inputs (fs w) files in
    let tasks := pending (fs w) files in
    let ws := set_out (λ l, l ++ skip_lines (length files) 0 skipped)
                (checked w) in
    if decide (files = []) then (Ok tt, checked w)
    else if decide (tasks = []) then (Ok tt, ws)
    else
      (process_pool (cpu_count env);;
       for_each (λ '(idx, (brstm_path, output_path)),
                   submit brstm_path output_path)
                (numbered_tasks w);;
       futures ← sequence
                   (map (λ '(idx, (brstm_path, output_path)),
                           attempt (convert_file env brstm_path output_path
                                      idx (length files)))
                        (numbered_tasks w));
       print_futures (as_completed (completion env) futures)) ws.
Proof.
  intros Hdeps. unfold convert_files_parallel, inputs_of, numbered_tasks.
  rewrite (run_bind_ok _ _ _ _ _ (check_dependencies_met w Hdeps)).
  unfold mkdir. erewrite run_bind_ok by reflexivity.
  erewrite run_bind_ok by reflexivity.
  change (fs (set_dirs _ (set_procs _ w))) with (fs w). cbn zeta.
  destruct (decide (glob INPUT_DIR (lit ".brstm") (fs w) = [])); [done|].
  erewrite run_bind_ok by apply scan_count.
  change (fs (set_dirs _ (set_procs _ w))) with (fs w).
  cbn beta iota. cbn [Nat.add].
  destruct (decide (pending (fs w) _ = [])); reflexivity.
Qed.

Lemma numbered_tasks_tasks (w : World) :
  map snd (numbered_tasks w) = pending (fs w) (inputs_of w).
Proof. apply enumerate_tasks. Qed.

(** The run when there are tasks: the executor is created, the tasks are
    submitted, each is run once whatever the tasks before it did, and the
    loop over the futures, in the order of completion, ends the run. *)
Lemma convert_files_parallel_tasks (w : World) :
  dependencies_met env w = true →
  cpu_count env ≠ 0%nat →
  pending (fs w) (inputs_of w) ≠ [] →
  ∃ futures we,
    conversions env (length (inputs_of w)) (tasks_start env w)
      (numbered_tasks w) futures we
    ∧ convert_files_parallel env w
      = (results_taken (as_completed (completion env) futures),
         set_out
           (λ l, l ++ returned_before_raise
                        (as_completed (completion env) futures)) we).
Proof.
  intros Hdeps Hcpu Htasks.
  rewrite (convert_files_parallel_checked w Hdeps). cbn zeta.
  rewrite (decide_False (P := pending _ _ = [])) by done.
  destruct (decide (inputs_of w = [])) as [Hnil|_].
  { by rewrite Hnil in Htasks. }
  unfold process_pool. rewrite decide_False by done.
  erewrite run_bind_ok by reflexivity.
  erewrite run_bind_ok by apply submit_all_run.
  rewrite numbered_tasks_tasks. fold (tasks_start env w).
  destruct (tasks_run env (length (inputs_of w)) (numbered_tasks w)
              (tasks_start env w)) as (futures & we & Hseq & Hconv).
  rewrite (run_bind_ok _ _ _ _ _ Hseq).
  exists futures, we. split; [done|]. apply print_futures_run.
Qed.

(** The run that stops before the executor: a dependency is missing, or
    no input lacks its output. *)
Lemma convert_files_parallel_stops (w : World) :
  dependencies_met env w = false ∨ pending (fs w) (inputs_of w) = [] →
  pools (convert_files_parallel env w).2 = pools w
  ∧ submitted (convert_files_parallel env w).2 = submitted w
  ∧ fs (convert_files_parallel env w).2 = fs w.
Proof.
  intros Hstop. destruct (dependencies_met env w) eqn:Hdeps.
  - destruct Hstop as [?|Hnone]; [done|].
    rewrite (convert_files_parallel_checked w Hdeps). cbn zeta.
    rewrite Hnone. rewrite (decide_True (P := [] = [])) by done.
    by destruct (decide (inputs_of w = [])).
  - destruct (check_dependencies_unmet w Hdeps)
      as (w1 & Hck & ? & ? & ? & ? & ? & _).
    assert (convert_files_parallel env w = (SystemExit 1, w1)) as ->.
    { unfold convert_files_parallel.
      unfold mbind at 1, run_mbind at 1, run_bind at 1. by rewrite Hck. }
    done.
Qed.


End ConvertTasks.

(** ** The verification *)

Lemma slash_free (name : str) :
  existsb (N.eqb 47) name = false ↔ 47 ∉ name.
Proof.
  induction name as [|c name IH]; cbn [existsb].
  - split; [intros _; apply not_elem_of_nil | done].
  - rewrite orb_false_iff, IH, not_elem_of_cons, N.eqb_neq. done.
Qed.

(** The files [glob] lists: those of the directory, by name. *)
Lemma glob_spec (dir ending : str) (fs : gmap str bytes) (p : path) :
  p ∈ glob dir ending fs ↔
  parent p = dir ∧ is_Some (fs !! path_str p) ∧ (47 ∉ fname p)
  ∧ ends_with ending (fname p) = true.
Proof.
  unfold glob. rewrite list_elem_of_omap. split.
  - intros ([key c] & Hin%elem_of_map_to_list & Hp).
    destruct (starts_with (dir ++ lit "/") key) eqn:Hpre; [|done].
    apply starts_with_spec in Hpre as [name ->].
    rewrite drop_app_length in Hp.
    destruct (existsb (N.eqb 47) name) eqn:Hslash; [done|].
    destruct (ends_with ending name) eqn:Hend; [|done].
    cbn in Hp. simplify_eq. unfold path_str, in_dir; cbn [parent fname].
    split_and!; try done.
    + rewrite (assoc_L (++)). eauto.
    + by apply slash_free.
  - intros (Hdir & [c Hc] & Hslash & Hend). exists (path_str p, c).
    split; [by apply elem_of_map_to_list|].
    unfold path_str in *. rewrite Hdir in *.
    rewrite (assoc_L (++)), starts_with_app, drop_app_length.
    apply slash_free in Hslash. rewrite Hslash, Hend. cbn.
    destruct p; cbn in *; by subst.
Qed.

(** ** The order of names *)

Lemma str_leb_total (s t : str) : str_leb s t = true ∨ str_leb t s = true.
Proof.
  revert t. induction s as [|a s IH]; intros [|b t]; cbn; try by eauto.
  destruct (N.lt_trichotomy a b) as [Hlt|[->|Hgt]].
  - left. apply N.ltb_lt in Hlt. by rewrite Hlt.
  - rewrite N.ltb_irrefl, N.eqb_refl. cbn. apply IH.
  - right. apply N.ltb_lt in Hgt. by rewrite Hgt.
Qed.

Lemma str_leb_trans (s t u : str) :
  str_leb s t = true → str_leb t u = true → str_leb s u = true.
Proof.
  revert t u. induction s as [|a s IH]; intros [|b t] [|c u]; cbn; try done.
  rewrite !orb_true_iff, !andb_true_iff, !N.ltb_lt, !N.eqb_eq.
  intros [Hab|[-> Hst]] [Hbc|[-> Htu]].
  - left. lia.
  - by left.
  - by left.
  - right. split; [done|]. by apply (IH t).
Qed.

#[global] Instance str_le_total : Total str_le.
Proof. intros s t. apply str_leb_total. Qed.

#[global] Instance str_le_trans : Transitive str_le.
Proof. intros s t u. apply str_leb_trans. Qed.

(** [sorted] yields the names it is given, in ascending order. *)
Lemma sorted_perm (names : list str) : sorted names ≡ₚ names.
Proof. apply merge_sort_Permutation. Qed.

Lemma sorted_ascending (names : list str) :
  StronglySorted str_le (sorted names).
Proof. apply StronglySorted_merge_sort; apply _. Qed.

(** The names shown of a set: the first [n] in sorted order.  They are
    names of the set, in ascending order and without repetition; they are
    all of them when the set has no more than [n]; and every name left out
    comes after every name shown. *)
Lemma first_sorted_names (n : nat) (names : gset str) :
  let shown := take n (sorted (elements names)) in
  (∀ f, f ∈ shown → f ∈ names)
  ∧ length shown = (n `min` size names)%nat
  ∧ StronglySorted str_le shown
  ∧ NoDup shown
  ∧ (∀ f g, f ∈ names → f ∉ shown → g ∈ shown → str_le g f).
Proof.
  intros shown. subst shown.
  pose proof (sorted_perm (elements names)) as Hperm.
  pose proof (sorted_ascending (elements names)) as Hsorted.
  rewrite <- (take_drop n (sorted (elements names))) in Hsorted.
  split_and!.
  - intros f Hf. apply elem_of_elements. rewrite <- Hperm.
    by apply (subseteq_take n).
  - rewrite length_take. unfold size, set_size. cbn. by rewrite Hperm.
  - by eapply StronglySorted_app_1_l.
  - eapply sublist_NoDup; [|apply sublist_take].
    rewrite Hperm. apply NoDup_elements.
  - intros f g Hf Hnot Hg.
    eapply StronglySorted_app_1_elem_of; [exact Hsorted|exact Hg|].
    apply elem_of_elements in Hf. rewrite <- Hperm in Hf.
    rewrite <- (take_drop n (sorted (elements names))) in Hf.
    apply elem_of_app in Hf as [Hf|Hf]; [by destruct Hnot | done].
Qed.

(** C4, as amended.  [verify_downloads] returns nothing and reports by
    printing.  (1) For an empty expected-song list it prints that the list
    could not be fetched and nothing after it; (2) for a download directory
    that is not there it prints that and nothing after it: in both cases
    no file is compared.  (3) Otherwise the missing names are exactly the
    expected file names (sanitized name plus [.brstm]) that no downloaded
    file has, the extra names exactly the names of downloaded files that
    are not expected, the small files exactly the downloaded files of
    fewer than 100000 bytes, and the console holds, in this order, the
    block of the missing names, the block of the extra names and, after
    the sizes, the block of the small files.  (4) A block of names gives
    the number of names and lists the first ten of them in ascending
    order, then the number of those left out; (5) nothing is printed for an
    empty set; (6), (7) the block of the small files gives their number
    and lists the first five in the order of the listing, and is left out
    when there is none. *)
Theorem verify_downloads_report `{Runtime} :
  (∀ (fs : gmap str bytes) (dirs : gset str),
     Verify.verify_downloads [] fs dirs = None
     ∧ Verify.printed [] fs dirs
       = Verify.opening
         ++ [ [10060] ++ lit " Failed to fetch expected song list" ])
  ∧ (∀ (expected_songs : list str) (fs : gmap str bytes) (dirs : gset str),
       expected_songs ≠ [] →
       lit "mkw_music_brstm" ∉ dirs →
       Verify.verify_downloads expected_songs fs dirs = None
       ∧ Verify.printed expected_songs fs dirs
         = Verify.opening
           ++ [ [9989] ++ lit " Found " ++ str_of_nat (length expected_songs)
                ++ lit " expected songs on website";
                [10060] ++ lit " Download directory '"
                ++ lit "mkw_music_brstm" ++ lit "' not found" ])
  ∧ (∀ (expected_songs : list str) (fs : gmap str bytes) (dirs : gset str),
       expected_songs ≠ [] →
       lit "mkw_music_brstm" ∈ dirs →
       ∃ r,
         Verify.verify_downloads expected_songs fs dirs = Some r
         ∧ (∀ f, f ∈ Verify.missing r ↔
                 expected_name expected_songs f ∧ ¬ downloaded_name fs f)
         ∧ (∀ f, f ∈ Verify.extra r ↔
                 downloaded_name fs f ∧ ¬ expected_name expected_songs f)
         ∧ (∀ p, p ∈ Verify.small_files r ↔
                 p ∈ glob (lit "mkw_music_brstm") (lit ".brstm") fs
                 ∧ Verify.size_of fs p < 100000)
         ∧ Verify.printed expected_songs fs dirs
           = Verify.opening
             ++ ([9989] ++ lit " Found " ++ str_of_nat (length expected_songs)
                 ++ lit " expected songs on website")
             :: Verify.count_lines (Verify.n_expected r)
                  (Verify.n_downloaded r)
             ++ Verify.listed (lit "Missing") (Verify.missing r)
             ++ Verify.listed (lit "Extra") (Verify.extra r)
             ++ Verify.matching_lines (Verify.missing r) (Verify.extra r)
             ++ ([10; 128207] ++ lit " File Size Analysis:")
                :: Verify.size_lines
                     (map (Verify.size_of fs)
                        (glob (lit "mkw_music_brstm") (lit ".brstm") fs))
             ++ Verify.small_lines fs (Verify.small_files r)
             ++ ([10] ++ Verify.rule)
                :: Verify.verdict_lines (Verify.n_downloaded r)
                     (Verify.missing r) (Verify.extra r)
                     (Verify.small_files r))
  ∧ (∀ (title : str) (names : gset str),
       names ≠ ∅ →
       ∃ shown,
         Verify.listed title names
         = ([10; 9888; 65039] ++ lit "  " ++ title ++ lit " files ("
            ++ str_of_nat (size names) ++ lit "):")
           :: map (λ f, lit "  - " ++ f) shown
           ++ (if decide (10 < size names)%nat
               then [lit "  ... and " ++ str_of_nat (size names - 10)
                     ++ lit " more"]
               else [])
         ∧ (∀ f, f ∈ shown → f ∈ names)
         ∧ length shown = (10 `min` size names)%nat
         ∧ StronglySorted str_le shown
         ∧ NoDup shown
         ∧ (∀ f g, f ∈ names → f ∉ shown → g ∈ shown → str_le g f))
  ∧ (∀ title : str, Verify.listed title ∅ = [])
  ∧ (∀ (fs : gmap str bytes) (small_files : list path),
       small_files ≠ [] →
       Verify.small_lines fs small_files
       = ([10; 9888; 65039] ++ lit "  Suspiciously small files ("
          ++ str_of_nat (length small_files) ++ lit "):")
         :: map (λ f,
                   lit "  - " ++ fname f ++ lit ": "
                   ++ format_fixed 1
                        (float_round
                           (Verify.q_of_N (Verify.size_of fs f)
                            / inject_Z 1024)%Q)
                   ++ lit " KB")
                (take 5 small_files))
  ∧ (∀ fs : gmap str bytes, Verify.small_lines fs [] = []).
Proof.
  split_and!.
  - intros fs dirs. unfold Verify.printed, Verify.verify_downloads.
    rewrite !(decide_True (P := [] = [])) by done. by split.
  - intros expected_songs fs dirs Hsongs Hdir.
    unfold Verify.printed, Verify.verify_downloads.
    rewrite !(decide_False (P := expected_songs = [])) by done.
    rewrite !bool_decide_eq_false_2 by done. by split.
  - intros expected_songs fs dirs Hsongs Hdir.
    unfold Verify.verify_downloads, Verify.printed.
    rewrite !(decide_False (P := expected_songs = [])) by done.
    rewrite !bool_decide_eq_true_2 by done.
    cbn [negb]. eexists. split; [reflexivity|].
    cbn [Verify.missing Verify.extra Verify.small_files Verify.n_expected
         Verify.n_downloaded].
    assert (∀ f, f ∈ (list_to_set
                        (map (λ song, sanitize_filename song ++ lit ".brstm")
                             expected_songs) : gset (list N))
                 ↔ expected_name expected_songs f) as Hexp.
    { intros f. rewrite elem_of_list_to_set, list_elem_of_fmap.
      unfold expected_name. naive_solver. }
    assert (∀ f, f ∈ (list_to_set
                        (map fname
                           (glob (lit "mkw_music_brstm") (lit ".brstm") fs))
                      : gset (list N))
                 ↔ downloaded_name fs f) as Hdl.
    { intros f. rewrite elem_of_list_to_set, list_elem_of_fmap.
      unfold downloaded_name. naive_solver. }
    split_and!.
    + intros f. by rewrite elem_of_difference, Hexp, Hdl.
    + intros f. by rewrite elem_of_difference, Hexp, Hdl.
    + intros p. rewrite list_elem_of_filter. tauto.
    + reflexivity.
  - intros title names Hnames.
    exists (take 10 (sorted (elements names))). split.
    + unfold Verify.listed. by rewrite decide_False.
    + apply first_sorted_names.
  - intros title. unfold Verify.listed. by rewrite decide_True.
  - intros fs small_files Hsmall. unfold Verify.small_lines.
    by rewrite decide_False.
  - intros fs. unfold Verify.small_lines. by rewrite decide_True.
Qed.

(** C4, as stated, fails on an empty expected-song list: the file
    [stray.brstm] is downloaded and not expected, and nothing is reported
    on it: the comparison is not made, and the console holds the failure to
    fetch the list and no block of names. *)
Lemma verify_downloads_empty_list_reports_nothing :
  downloaded_name stray_files (lit "stray.brstm")
  ∧ ¬ expected_name [] (lit "stray.brstm")
  ∧ Verify.verify_downloads [] stray_files {[lit "mkw_music_brstm"]} = None
  ∧ @Verify.printed ascii_runtime [] stray_files {[lit "mkw_music_brstm"]}
    = @Verify.opening
      ++ [ [10060] ++ lit " Failed to fetch expected song list" ].
Proof.
  split_and!; [| |reflexivity|reflexivity].
  - exists (in_dir (lit "mkw_music_brstm") (lit "stray.brstm")).
    split; [|done]. apply glob_spec.
    split_and!;
      [reflexivity | eexists; by vm_compute | by apply slash_free
      | reflexivity].
  - intros (song & Hin & _). by apply not_elem_of_nil in Hin.
Qed.

(** The third part of the theorem of C4 for one expected song and the
    files [stray_files]. *)
Lemma verify_downloads_report_witness :
  ∃ r,
    Verify.verify_downloads [lit "Main Theme"] stray_files
      {[lit "mkw_music_brstm"]} = Some r
    ∧ (∀ f, f ∈ Verify.missing r ↔
            expected_name [lit "Main Theme"] f
            ∧ ¬ downloaded_name stray_files f)
    ∧ (∀ f, f ∈ Verify.extra r ↔
            downloaded_name stray_files f
            ∧ ¬ expected_name [lit "Main Theme"] f)
    ∧ (∀ p, p ∈ Verify.small_files r ↔
            p ∈ glob (lit "mkw_music_brstm") (lit ".brstm") stray_files
            ∧ Verify.size_of stray_files p < 100000)
    ∧ @Verify.printed ascii_runtime [lit "Main Theme"] stray_files
        {[lit "mkw_music_brstm"]}
      = Verify.opening
        ++ ([9989] ++ lit " Found " ++ str_of_nat (length [lit "Main Theme"])
            ++ lit " expected songs on website")
        :: Verify.count_lines (Verify.n_expected r) (Verify.n_downloaded r)
        ++ Verify.listed (lit "Missing") (Verify.missing r)
        ++ Verify.listed (lit "Extra") (Verify.extra r)
        ++ Verify.matching_lines (Verify.missing r) (Verify.extra r)
        ++ ([10; 128207] ++ lit " File Size Analysis:")
           :: @Verify.size_lines ascii_runtime
                (map (Verify.size_of stray_files)
                   (glob (lit "mkw_music_brstm") (lit ".brstm") stray_files))
        ++ @Verify.small_lines ascii_runtime stray_files
             (Verify.small_files r)
        ++ ([10] ++ Verify.rule)
           :: Verify.verdict_lines (Verify.n_downloaded r)
                (Verify.missing r) (Verify.extra r) (Verify.small_files r).
Proof.
  destruct (@verify_downloads_report ascii_runtime) as (_ & _ & Hreport & _).
  apply (Hreport [lit "Main Theme"] stray_files {[lit "mkw_music_brstm"]}).
  - discriminate.
  - by apply elem_of_singleton.
Defined.

(** ** The scrape *)

Lemma songs_of_agree `{Runtime} (matches : list (list str)) :
  downloader_songs (Download.songs_of matches)
  = generator_songs (Generate.songs_of matches).
Proof.
  unfold downloader_songs, generator_songs.
  induction matches as [|m matches IH]; [done|].
  cbn [Download.songs_of Generate.songs_of flat_map].
  rewrite !map_app. fold (Download.songs_of matches).
  fold (Generate.songs_of matches). rewrite IH. f_equal.
  destruct m as [|song_id [|song_name [|? ?]]]; done.
Qed.

(** C2, as amended. The downloader's scrape of a page gives the
    identifiers and names that the generator's scrape gives on the part of
    the page before the first [Remixes / Fanmade] (the whole page when it
    has no such marker); on a page without the marker the two scrapes give
    the same identifiers and names. *)
Theorem download_scrape_is_generator_scrape_above_marker `{Runtime}
    (html : str) :
  downloader_songs (Download.fetch_song_data (Page html))
  = generator_songs (Generate.fetch_song_data (Page (main_songs_section html)))
  ∧ (contains remix_marker html = false →
     downloader_songs (Download.fetch_song_data (Page html))
     = generator_songs (Generate.fetch_song_data (Page html))).
Proof.
  split.
  - apply songs_of_agree.
  - intros Hno. cbn [Download.fetch_song_data Generate.fetch_song_data].
    unfold main_songs_section. rewrite Hno. apply songs_of_agree.
Qed.

(** The scrapes of [remix_page], whatever the runtime. *)
Lemma remix_page_scrapes `{Runtime} :
  downloader_songs (Download.fetch_song_data (Page remix_page))
  = [(lit "1", lit "Main Theme")]
  ∧ generator_songs (Generate.fetch_song_data (Page remix_page))
    = [(lit "1", lit "Main Theme"); (lit "2", lit "Fan Remix")].
Proof. split; by vm_compute. Qed.

(** C2, as stated, fails: on a page with a song below the marker
    [Remixes / Fanmade] the generator's scrape has that song and the
    downloader's has not. *)
Lemma scrapes_differ_below_marker :
  downloader_songs
    (@Download.fetch_song_data ascii_runtime (Page remix_page))
  ≠ generator_songs
      (@Generate.fetch_song_data ascii_runtime (Page remix_page)).
Proof.
  destruct (@remix_page_scrapes ascii_runtime) as [-> ->]. by vm_compute.
Qed.

(** The theorem of C2 at a page without the marker. *)
Lemma download_scrape_witness :
  contains remix_marker plain_page = false
  ∧ downloader_songs (@Download.fetch_song_data ascii_runtime (Page plain_page))
    = generator_songs (@Generate.fetch_song_data ascii_runtime (Page plain_page)).
Proof.
  split; [reflexivity|].
  apply (@download_scrape_is_generator_scrape_above_marker ascii_runtime).
  reflexivity.
Defined.

(** ** The claims on the downloader *)

Section DownloadClaims.
Import Download.
Context `{Runtime}.

Lemma download_all_songs_keeps_files (env : Env) (songs : list Song)
    (max_workers : option nat) (w : World) (k : str) :
  is_Some (fs w !! k) →
  fs (download_all_songs env songs max_workers w).2 !! k = fs w !! k.
Proof.
  intros Hk.
  destruct (decide (default 1%nat max_workers = 0%nat)) as [Hmw|Hmw].
  - unfold download_all_songs, mkdir, new_session, thread_pool.
    rewrite decide_True by done. done.
  - destruct (download_all_songs_run env songs max_workers w Hmw)
      as (rs & w1 & Hdl & -> & _).
    apply downloads_frame in Hdl as (_ & _ & _ & _ & Hfs).
    cbn. by rewrite Hfs.
Qed.

(** C9. If the file written for a song is under 1000 bytes and its text,
    decoded ignoring errors and lowercased, holds [html], then
    [download_song] deletes it and returns a [Failed] result, and no file
    of that song is left.  The hypotheses are the steps of [download_song]
    up to the written file: the file was not there, the two requests were
    answered, the bot protection was not recognized, the body was
    written. *)
Theorem small_html_download_is_deleted (env : Env) (song : Song) (dir : str)
    (w w1 w2 : World) (response : Response) (body : list bytes)
    (ending : option exn) (content : bytes) :
  fs w !! path_str (filepath_of dir song) = None →
  request_file env song w = (Ok response, w1) →
  sniff response w1 = (Ok (false, body, ending), w1) →
  save_body (filepath_of dir song) body ending w1 = (Ok tt, w2) →
  fs w2 !! path_str (filepath_of dir song) = Some content →
  N.of_nat (length content) < 1000 →
  contains (lit "html") (lower (decode_ignore content)) = true →
  ∃ w3,
    download_song env song dir w
    = (Ok (lit "Failed: " ++ name song
           ++ lit " - Got error page instead of file"), w3)
    ∧ fs w3 !! path_str (filepath_of dir song) = None.
Proof.
  intros Hnew Hreq Hsniff Hsave Hfile Hsize Hhtml.
  exists (set_fs (delete (path_str (filepath_of dir song))) w2).
  split; [|apply lookup_delete_eq].
  unfold download_song, try_except, download_song_body, path_exists.
  assert ((w' ← get_state;
           mret (bool_decide
                   (is_Some (fs w' !! path_str (filepath_of dir song))))) w
          = (Ok false, w)) as Hp.
  { cbv [mbind run_mbind run_bind mret run_mret run_ret get_state].
    rewrite bool_decide_eq_false_2; [done|]. rewrite Hnew. by intros [? ?]. }
  rewrite (run_bind_ok _ _ _ _ _ Hp), (run_bind_ok _ _ _ _ _ Hreq),
    (run_bind_ok _ _ _ _ _ Hsniff), (run_bind_ok _ _ _ _ _ Hsave).
  unfold check_saved, stat_size, read_file, unlink.
  cbv [mbind run_mbind run_bind mret run_mret run_ret].
  rewrite Hfile. apply N.ltb_lt in Hsize. rewrite Hsize, Hfile, Hhtml, Hfile.
  done.
Qed.

End DownloadClaims.

(** The theorem of C9 for an error page served with status 200. *)
Lemma small_html_download_witness :
  ∃ w3,
    @Download.download_song ascii_runtime (steady_env error_page_body)
      song_one (lit "mkw_music_brstm") (fresh_world {[lit "mkw_music_brstm"]})
    = (Ok (lit "Failed: " ++ Download.name song_one
           ++ lit " - Got error page instead of file"), w3)
    ∧ Download.fs w3
        !! path_str (Download.filepath_of (lit "mkw_music_brstm") song_one)
      = None.
Proof.
  apply (@small_html_download_is_deleted ascii_runtime
           (steady_env error_page_body) song_one (lit "mkw_music_brstm")
           (fresh_world {[lit "mkw_music_brstm"]})
           error_page_requested error_page_saved
           {| Download.status_code := 200; Download.content_type := None;
              Download.chunks := error_page_body; Download.broken := None |}
           error_page_body None (concat error_page_body));
    vm_compute; reflexivity.
Defined.

Section DownloadRunClaims.
Import Download.
Context `{Runtime}.

(** C5, as amended.  In a run of [download_all_songs] with one worker,
    which is the default, the requests and delays are, song by song: none
    (the file is there); or the visit of the song page alone (it failed);
    or that visit, a delay and the request for the file.  Every request
    carries the fixed user-agent; the visit has the fixed game page as its
    referrer, and the request for a file has the page of its song,
    [https://smashcustommusic.net/song/<id>], which differs from song to
    song.  The delay before a request for a file is
    [random.uniform(1.0, 3.0)] computed from the next value of
    [random.random()], a new one for every file requested; and it lies in
    the closed interval from 1.0 to 3.0 seconds, rounding to a float being
    monotone and exact on 0, 1, 2 and 3, and [random.random()] being in
    [0, 1). *)
Theorem download_requests_and_delays (env : Env) (songs : list Song)
    (max_workers : option nat) (w : World) :
  rounding_sound → random_sound env →
  default 1%nat max_workers = 1%nat →
  (∃ evss,
     events (download_all_songs env songs max_workers w).2
     = events w ++ concat evss
     ∧ run_events env (drawn w) songs evss)
  ∧ ∀ n, (1 <= uniform 1 3 (random env n) <= 3)%Q.
Proof.
  intros Hround Hrand Hmw. split.
  - destruct (download_all_songs_run env songs max_workers w)
      as (rs & w1 & Hdl & -> & _); [by rewrite Hmw|].
    apply downloads_events in Hdl as (evss & Hev & Hall);
      [|apply session_user_agent].
    exists evss. split; [|done]. cbn in *. done.
  - intros n. apply uniform_bounds; [done|apply Hrand..].
Qed.

Lemma pool_running_bound (workers n : nat) (p : Pool) :
  pool_reaches workers n p → (running p ≤ workers)%nat.
Proof.
  induction 1 as [|p q _ IH Hstep]; cbn; [lia|].
  destruct Hstep; cbn; lia.
Qed.

Lemma main_pools (env : Env) (w : World) :
  pools (main env w).2 = pools w
  ∨ ((∃ p, vgmstream_cli env = Some p ∧ p ≠ [])
     ∧ fetch_song_data (game_page env) ≠ []
     ∧ lower (answer env) = lit "y"
     ∧ pools (main env w).2 = pools w ++ [1%nat]).
Proof.
  unfold main.
  destruct (vgmstream_cli env) as [[|c p]|] eqn:Hcli; [by left| |by left].
  destruct (decide (fetch_song_data (game_page env) = [])); [by left|].
  destruct (decide (lower (answer env) = lit "y")); [|by left].
  right. split_and!; [eexists; split; [done|done] | done | done |].
  destruct (download_all_songs_run env (fetch_song_data (game_page env))
              None w) as (rs & w1 & Hdl & Hrun & _); [done|].
  rewrite (run_bind_ok _ _ _ _ _ Hrun).
  apply downloads_frame in Hdl as (_ & Hp & _). cbn in *. done.
Qed.

(** C8. The executor of the downloader has one worker by default:
    [download_all_songs] called without [max_workers] is the call with
    [max_workers = 1]; [main] calls it so, and the executor [main] creates
    whenever it gets to the downloads has one worker; and a pool of one
    worker never runs more than one task at a time. *)
Theorem download_pool_defaults_to_one_worker (env : Env) (w : World) :
  (∀ songs,
     download_all_songs env songs None w
     = download_all_songs env songs (Some 1%nat) w)
  ∧ (pools (main env w).2 = pools w ∨ pools (main env w).2 = pools w ++ [1%nat])
  ∧ ((∃ p, vgmstream_cli env = Some p ∧ p ≠ []) →
     fetch_song_data (game_page env) ≠ [] →
     lower (answer env) = lit "y" →
     pools (main env w).2 = pools w ++ [1%nat])
  ∧ (∀ n p, pool_reaches 1 n p → (running p ≤ 1)%nat).
Proof.
  split_and!.
  - done.
  - destruct (main_pools env w) as [?|(_ & _ & _ & ?)]; eauto.
  - intros [p [Hcli Hp]] Hsongs Hanswer. unfold main. rewrite Hcli.
    destruct p; [done|]. rewrite decide_False, decide_True by done.
    destruct (download_all_songs_run env (fetch_song_data (game_page env))
                None w) as (rs & w1 & Hdl & Hrun & _); [done|].
    rewrite (run_bind_ok _ _ _ _ _ Hrun).
    apply downloads_frame in Hdl as (_ & Hpl & _). cbn in *. done.
  - intros n p. apply pool_running_bound.
Qed.

End DownloadRunClaims.

Lemma exact_rounding_sound : @rounding_sound ascii_runtime.
Proof. split; [by intros x y Hxy | by intros z _]. Qed.

Lemma steady_random_sound (body : list bytes) : random_sound (steady_env body).
Proof. intros n. by split. Qed.

(** The theorem of C5 for a run over two songs that are both served. *)
Lemma download_requests_and_delays_witness :
  (∃ evss,
     Download.events two_song_run = [] ++ concat evss
     ∧ @run_events ascii_runtime (steady_env audio_body) 0
         [song_one; song_three] evss)
  ∧ ∀ n, (1 <= @Download.uniform ascii_runtime 1 3
                  (Download.random (steady_env audio_body) n) <= 3)%Q.
Proof.
  apply (@download_requests_and_delays ascii_runtime (steady_env audio_body)
           [song_one; song_three] None (fresh_world ∅)).
  - apply exact_rounding_sound.
  - apply steady_random_sound.
  - reflexivity.
Defined.

(** C5, as stated, fails: the referrer of the requests for the files is
    not one fixed value.  In a run over two songs the two requests for a
    file carry two different referrers, each the page of its song. *)
Lemma audio_fetch_referrer_varies :
  map (λ r, Download.req_headers r !! lit "Referer")
      (file_requests song_one (Download.events two_song_run)
       ++ file_requests song_three (Download.events two_song_run))
  = [Some (lit "https://smashcustommusic.net/song/1");
     Some (lit "https://smashcustommusic.net/song/3")]
  ∧ lit "https://smashcustommusic.net/song/1"
    ≠ lit "https://smashcustommusic.net/song/3".
Proof. split; by vm_compute. Qed.

(** The theorem of C8 for a run of [main] that gets to the downloads. *)
Lemma download_pool_witness :
  Download.pools
    (@Download.main ascii_runtime (steady_env audio_body) (fresh_world ∅)).2
  = [1%nat].
Proof.
  apply (@download_pool_defaults_to_one_worker ascii_runtime
           (steady_env audio_body) (fresh_world ∅)).
  - eexists. split; [reflexivity|discriminate].
  - by vm_compute.
  - reflexivity.
Defined.

(** ** The claims on file names and re-runs *)

Section RerunClaims.
Context `{Runtime}.

(** C6. [sanitize_filename] is not injective, and nothing handles a
    collision: two songs whose names are sanitized alike have the same
    target file; once that file is there the downloader reports the other
    song as already downloaded, without a request; and the verification
    counts the two expected songs as one file name. *)
Theorem sanitize_filename_collisions_unhandled :
  (∃ a b : str, a ≠ b ∧ sanitize_filename a = sanitize_filename b)
  ∧ (∀ (x y : Download.Song) (dir : str),
       sanitize_filename (Download.name x) = sanitize_filename (Download.name y) →
       Download.filepath_of dir x = Download.filepath_of dir y)
  ∧ (∀ (env : Download.Env) (x y : Download.Song) (dir : str)
       (w : Download.World),
       sanitize_filename (Download.name x) = sanitize_filename (Download.name y) →
       is_Some (Download.fs w !! path_str (Download.filepath_of dir x)) →
       Download.download_song env y dir w
       = (Ok (lit "Skipped (already exists): " ++ Download.name y), w))
  ∧ (∀ (a b : str) (rest : list str) (fs : gmap str bytes) (dirs : gset str),
       sanitize_filename a = sanitize_filename b →
       Verify.missing <$> Verify.verify_downloads (a :: b :: rest) fs dirs
       = Verify.missing <$> Verify.verify_downloads (b :: rest) fs dirs
       ∧ Verify.extra <$> Verify.verify_downloads (a :: b :: rest) fs dirs
         = Verify.extra <$> Verify.verify_downloads (b :: rest) fs dirs).
Proof.
  split_and!.
  - exists (lit "Main Theme?"), (lit "Main Theme*"). split; by vm_compute.
  - intros x y dir Hxy. unfold Download.filepath_of. by rewrite Hxy.
  - intros env x y dir w Hxy Hx. apply download_song_skips.
    unfold Download.filepath_of in *. by rewrite <- Hxy.
  - intros a b rest fs dirs Hab. unfold Verify.verify_downloads.
    rewrite !decide_False by done.
    destruct (negb (bool_decide (lit "mkw_music_brstm" ∈ dirs))); [done|].
    cbn [fmap option_fmap option_map Verify.missing Verify.extra map
         list_to_set].
    rewrite Hab. split; f_equal; set_solver.
Qed.

(** C1. An item whose output file is there is skipped on a re-run.
    [download_song] returns the [Skipped (already exists)] result and
    leaves the state as it was: no request, no write.  A run of
    [download_all_songs] leaves every file that was there as it was.
    [convert_files_parallel] submits no task for an input whose output
    ([stem + .m4a] in the output directory) is there, and leaves that
    output as it was. *)
Theorem rerun_skips_existing_outputs :
  (∀ (env : Download.Env) (song : Download.Song) (dir : str)
     (w : Download.World),
     is_Some (Download.fs w !! path_str (Download.filepath_of dir song)) →
     Download.download_song env song dir w
     = (Ok (lit "Skipped (already exists): " ++ Download.name song), w))
  ∧ (∀ (env : Download.Env) (songs : list Download.Song)
       (max_workers : option nat) (w : Download.World) (k : str),
       is_Some (Download.fs w !! k) →
       Download.fs (Download.download_all_songs env songs max_workers w).2 !! k
       = Download.fs w !! k)
  ∧ (∀ (env : Convert.Env) (w : Convert.World) (b : path),
       is_Some (Convert.fs w !! path_str (Convert.output_path_of b)) →
       ∃ new,
         Convert.submitted (Convert.convert_files_parallel env w).2
         = Convert.submitted w ++ new
         ∧ (∀ t, t ∈ new → t.1 ≠ b ∧ t.2 ≠ Convert.output_path_of b)
         ∧ Convert.fs (Convert.convert_files_parallel env w).2
             !! path_str (Convert.output_path_of b)
           = Convert.fs w !! path_str (Convert.output_path_of b)).
Proof.
  split_and!.
  - apply download_song_skips.
  - apply download_all_songs_keeps_files.
  - intros env w b Hb.
    destruct (convert_files_parallel_run env w)
      as (r & w1 & -> & [(Hs & _ & Hfs & _)
                        |(files & tasks & index & ws & we & futures & -> & ->
                          & _ & Hfs & _ & Hconv & Hs & _ & Hfs1 & _)]);
      cbn [snd].
    + exists []. rewrite app_nil_r, Hfs. split_and!; try done.
      intros t Ht. by apply not_elem_of_nil in Ht.
    + eexists. split; [exact Hs|].
      assert (∀ t, t ∈ pending (Convert.fs w)
                         (glob Convert.INPUT_DIR (lit ".brstm") (Convert.fs w)) →
                   path_str t.2 ≠ path_str (Convert.output_path_of b)) as Hne.
      { intros t (_ & _ & Hnone)%pending_spec Heq. rewrite Heq in Hnone.
        rewrite Hnone in Hb. by destruct Hb. }
      split.
      * intros t Ht. pose proof (Hne t Ht) as Hne'.
        apply pending_spec in Ht as (_ & Ho & _).
        split; intros Heq; apply Hne'; congruence.
      * apply conversions_frame in Hconv as (_ & _ & _ & _ & _ & _ & Hfr).
        rewrite Hfs1, Hfr, Hfs; [done|].
        rewrite enumerate_tasks. intros t Ht. split.
        -- apply not_eq_sym. by apply Hne.
        -- intros Heq. pose proof (m4a_last b) as Hl.
           rewrite Heq, wav_last in Hl. done.
Qed.

End RerunClaims.

(** ** The claims on failures and on the conversion *)

Lemma contains_at_start (needle hay : str) :
  starts_with needle hay = true → contains needle hay = true.
Proof. intros Hs. destruct hay; cbn [contains]; by rewrite Hs. Qed.


Lemma status_line_marks_differ (i n : nat) (s t : str) :
  status_line i n mark_failed s ≠ status_line i n mark_done t.
Proof.
  unfold status_line. intros Heq. do 5 apply app_inv_head in Heq.
  unfold mark_failed, mark_done in Heq. discriminate Heq.
Qed.

Section FailureClaims.
Context `{Runtime}.


(** C7, as amended.  The conversion creates its executor, with
    [max_workers] equal to the CPU count, when the dependencies are met
    and some input has no output yet; it creates none when a dependency is
    missing or every input has its output.  A task runs the extractor,
    told to write the intermediate WAV file; if that exits with zero it
    then runs the transcoder on that file, told to write the output; so it
    runs two commands in that order, or the extractor alone when the
    extractor fails or cannot be started.  When the task returns, the
    intermediate file is not there; and it returns the [Converted] line
    when both commands exit with zero and the intermediate file was
    written. *)
Theorem convert_file_commands_and_pool :
  (∀ (env : Convert.Env) (w : Convert.World),
     dependencies_met env w = true →
     pending (Convert.fs w) (inputs_of w) ≠ [] →
     Convert.cpu_count env ≠ 0%nat →
     Convert.pools (Convert.convert_files_parallel env w).2
     = Convert.pools w ++ [Convert.cpu_count env])
  ∧ (∀ (env : Convert.Env) (w : Convert.World),
       dependencies_met env w = false
       ∨ pending (Convert.fs w) (inputs_of w) = [] →
       Convert.pools (Convert.convert_files_parallel env w).2
       = Convert.pools w)
  ∧ (∀ (env : Convert.Env) (b o : path) (i n : nat) (w : Convert.World),
       ∃ r w1,
         Convert.convert_file env b o i n w = (r, w1)
         ∧ (∀ s, r = Ok s →
                 Convert.fs w1 !! path_str (temp_wav_of o) = None)
         ∧ match Convert.run_process env (vgmstream_command b o)
                   (Convert.fs w) with
           | Convert.Exited 0 written1 =>
               let fs1 :=
                 after_command (temp_wav_of o) written1 (Convert.fs w) in
               Convert.procs w1
               = Convert.procs w ++ [vgmstream_command b o; ffmpeg_command o]
               ∧ match Convert.run_process env (ffmpeg_command o) fs1 with
                 | Convert.Exited 0 written2 =>
                     is_Some (after_command o written2 fs1
                                !! path_str (temp_wav_of o)) →
                     r = Ok (status_line i n mark_done
                               (lit "Converted: " ++ stem b))
                 | _ => ∀ s, r ≠ Ok (status_line i n mark_done s)
                 end
           | _ =>
               Convert.procs w1 = Convert.procs w ++ [vgmstream_command b o]
               ∧ ∀ s, r ≠ Ok (status_line i n mark_done s)
           end).
Proof.
  split_and!.
  - intros env w Hdeps Htasks Hcpu.
    destruct (convert_files_parallel_tasks env w Hdeps Hcpu Htasks)
      as (futures & we & Hconv & ->).
    apply conversions_frame in Hconv as (_ & _ & Hpools & _).
    cbn [snd]. cbn in Hpools |- *. done.
  - intros env w Hstop.
    by destruct (convert_files_parallel_stops env w Hstop) as (-> & _).
  - intros env b o i n w.
    destruct (convert_file_cases env b o i n w)
      as (r & w1 & Hrun & _ & _ & _ & _ & _ & _ & Hwav & Hcmd).
    exists r, w1. split_and!; [done..|].
    assert (∀ s, Ok (status_line i n mark_failed (lit "Failed: " ++ stem b))
                 ≠ Ok (status_line i n mark_done s)) as Hmark.
    { intros s Heq.
      apply (status_line_marks_differ i n (lit "Failed: " ++ stem b) s).
      congruence. }
    destruct (Convert.run_process env (vgmstream_command b o) (Convert.fs w))
      as [msg1|rc1 written1].
    { destruct Hcmd as [Hp ->]. done. }
    destruct (decide (rc1 = 0%Z)) as [->|Hrc1].
    2: { destruct Hcmd as [Hp ->]. destruct rc1; done. }
    cbn zeta in Hcmd |- *. destruct Hcmd as [Hp Hcmd]. split; [done|].
    destruct (Convert.run_process env (ffmpeg_command o) _)
      as [msg2|rc2 written2].
    { by subst r. }
    destruct (decide (rc2 = 0%Z)) as [->|Hrc2].
    2: { subst r. destruct rc2; done. }
    intros Hw. by rewrite decide_True in Hcmd.
Qed.

End FailureClaims.

(** C7, as stated, fails: a task whose extractor exits with a code other
    than zero runs one command, not two; the transcoder is not started. *)
Lemma failed_extractor_runs_one_command :
  Convert.procs
    (Convert.convert_file broken_extractor_env input_a
       (Convert.output_path_of input_a) 1 1 one_input_world).2
  = [vgmstream_command input_a (Convert.output_path_of input_a)].
Proof. by vm_compute. Qed.


(** The first part of the theorem of C7 for the conversion of the one
    input [a.brstm] on a machine of eight CPUs. *)
Lemma conversion_pool_witness :
  Convert.pools (Convert.convert_files_parallel working_env one_input_world).2
  = Convert.pools one_input_world ++ [Convert.cpu_count working_env].
Proof.
  destruct convert_file_commands_and_pool as (Hpool & _).
  apply (Hpool working_env one_input_world).
  - vm_compute. reflexivity.
  - vm_compute. discriminate.
  - discriminate.
Defined.


(** ** More on the downloader *)

(** A run is its result and its final state. *)
Lemma run_result {S A} (m : result A * S) (r : result A) :
  m.1 = r → m = (r, m.2).
Proof. intros <-. by destruct m. Qed.

Lemma contains_app_r (needle pre s : str) :
  contains needle s = true → contains needle (pre ++ s) = true.
Proof.
  intros Hs. induction pre as [|c pre IH]; [done|].
  cbn [app contains]. rewrite IH. apply orb_true_r.
Qed.

Lemma starts_with_app_l (p s t : str) :
  starts_with p s = true → starts_with p (s ++ t) = true.
Proof.
  intros (u & ->)%starts_with_spec. rewrite <- (assoc_L (++)).
  apply starts_with_app.
Qed.

Lemma contains_app_l (needle s post : str) :
  contains needle s = true → contains needle (s ++ post) = true.
Proof.
  induction s as [|c s IH].
  - destruct needle; [|done]. intros _. by destruct post.
  - cbn [app contains]. intros [Hs|Hs]%orb_true_iff.
    + pose proof (starts_with_app_l _ (c :: s) post Hs) as Hs'.
      cbn [app] in Hs'. by rewrite Hs'.
    + rewrite IH by done. apply orb_true_r.
Qed.

Section DownloadMore.
Import Download.
Context `{Runtime} (env : Env).

Lemma download_song_fetched (song : Song) (dir : str) (w w1 : World)
    (response : Response) :
  fs w !! path_str (filepath_of dir song) = None →
  request_file env song w = (Ok response, w1) →
  download_song env song dir w
  = try_except
      ('(bot, body, ending) ← sniff response;
       if bot : bool then
         mret (lit "Failed: " ++ name song ++ lit " - Bot protection triggered")
       else
         save_body (filepath_of dir song) body ending;;
         check_saved song (filepath_of dir song))
      (λ e, mret (lit "Failed: " ++ name song ++ lit " - " ++ exn_msg e)) w1.
Proof.
  intros Hnew Hreq.
  unfold download_song, try_except, download_song_body, path_exists.
  assert ((w' ← get_state;
           mret (bool_decide
                   (is_Some (fs w' !! path_str (filepath_of dir song))))) w
          = (Ok false, w)) as Hp.
  { cbv [mbind run_mbind run_bind mret run_mret run_ret get_state].
    rewrite bool_decide_eq_false_2; [done|]. rewrite Hnew. by intros [? ?]. }
  by rewrite (run_bind_ok _ _ _ _ _ Hp), (run_bind_ok _ _ _ _ _ Hreq).
Qed.



Lemma check_saved_run (song : Song) (p : path) (w : World) (content : bytes) :
  fs w !! path_str p = Some content →
  check_saved song p w
  = if (N.of_nat (length content) <? 1000)
       && contains (lit "html") (lower (decode_ignore content))
    then (Ok (lit "Failed: " ++ name song
              ++ lit " - Got error page instead of file"),
          set_fs (delete (path_str p)) w)
    else (Ok (lit "Downloaded: " ++ name song), w).
Proof.
  intros Hfile. unfold check_saved, stat_size, read_file, unlink.
  cbv [mbind run_mbind run_bind mret run_mret run_ret]. rewrite Hfile.
  destruct (N.of_nat (length content) <? 1000); cbn [andb]; [|done].
  rewrite Hfile. destruct (contains _ _); [|done]. by rewrite Hfile.
Qed.

Lemma path_exists_new (p : path) (w : World) :
  fs w !! path_str p = None → path_exists p w = (Ok false, w).
Proof.
  intros Hnew. unfold path_exists.
  cbv [mbind run_mbind run_bind mret run_mret run_ret get_state].
  rewrite bool_decide_eq_false_2; [done|]. rewrite Hnew. by intros [? ?].
Qed.






End DownloadMore.





(** *** Runs and re-runs *)

Lemma contains_after (h : char) (t pre s : str) :
  forallb (λ c, negb (h =? c)) pre = true →
  contains (h :: t) (pre ++ s) = contains (h :: t) s.
Proof.
  induction pre as [|c pre IH]; [done|].
  cbn [forallb app contains starts_with].
  intros [Hc Hpre]%andb_true_iff. apply negb_true_iff in Hc.
  rewrite Hc. cbn [andb orb]. by apply IH.
Qed.

Lemma failed_status_is_failed (song : Download.Song) (msg : str) :
  contains (lit "Failed") (failed_status song msg) = true.
Proof.
  apply contains_at_start. unfold failed_status.
  change (lit "Failed: ") with (lit "Failed" ++ lit ": ").
  rewrite <- (assoc_L (++)). apply starts_with_app.
Qed.

Lemma skipped_status_failed (song : Download.Song) :
  contains (lit "Failed") (skipped_status song)
  = contains (lit "Failed") (Download.name song).
Proof.
  unfold skipped_status. change (lit "Failed") with (70 :: lit "ailed").
  apply contains_after. by vm_compute.
Qed.


Section DownloadRuns.
Import Download.
Context `{Runtime} (env : Env).

Lemma check_saved_cases (song : Song) (p : path) (w w1 : World)
    (r : result str) :
  check_saved song p w = (r, w1) →
  (r = Ok (downloaded_status song) ∧ w1 = w ∧ is_Some (fs w !! path_str p))
  ∨ r = Ok (failed_status song (lit "Got error page instead of file"))
  ∨ ∃ e, r = Raised e.
Proof.
  destruct (fs w !! path_str p) as [content|] eqn:Hfile.
  - assert (is_Some (fs w !! path_str p)) as Hs by (by rewrite Hfile).
    rewrite (check_saved_run _ _ _ _ Hfile).
    destruct (_ && _); intros; simplify_eq.
    + right; left. done.
    + left. split_and!; done.
  - unfold check_saved, stat_size.
    cbv [mbind run_mbind run_bind mret run_mret run_ret]. rewrite Hfile.
    intros; simplify_eq. right; right. eauto.
Qed.

(** The three outcomes of [download_song]. *)
Lemma download_song_outcome (song : Song) (dir : str) (w w1 : World)
    (r : result str) :
  download_song env song dir w = (r, w1) →
  (r = Ok (skipped_status song) ∧ w1 = w
   ∧ is_Some (fs w !! path_str (filepath_of dir song)))
  ∨ (r = Ok (downloaded_status song)
     ∧ is_Some (fs w1 !! path_str (filepath_of dir song)))
  ∨ ∃ msg, r = Ok (failed_status song msg).
Proof.
  destruct (decide (is_Some (fs w !! path_str (filepath_of dir song))))
    as [Hex|Hnew].
  { rewrite download_song_skips by done. intros; simplify_eq. by left. }
  apply eq_None_not_Some in Hnew.
  destruct (request_file env song w) as [rq wq] eqn:Hreq.
  destruct rq as [response|e|c].
  - rewrite (download_song_fetched _ _ _ _ _ _ Hnew Hreq). unfold try_except.
    destruct (sniff response wq) as [rs ws] eqn:Hsn.
    pose proof (sniff_inv _ _ _ _ Hsn) as [-> Hne].
    unfold mbind at 1, run_mbind at 1, run_bind at 1. rewrite Hsn.
    destruct rs as [[[bot body] ending]|e|c]; [| |by destruct (Hne c)].
    + destruct bot.
      { intros Heq; run_plain Heq. right; right. eexists. reflexivity. }
      destruct (save_body (filepath_of dir song) body ending wq)
        as [rv wv] eqn:Hsave.
      pose proof (save_body_inv _ _ _ _ _ _ Hsave) as (_ & Hne' & _).
      unfold mbind at 1, run_mbind at 1, run_bind at 1. rewrite Hsave.
      destruct rv as [[]|e|c]; [| |by destruct (Hne' c)].
      * destruct (check_saved song (filepath_of dir song) wv)
          as [rc wc] eqn:Hchk.
        apply check_saved_cases in Hchk
          as [(-> & -> & Hfile) | [-> | [e ->]]];
          intros Heq; run_plain Heq;
          [ right; left; done | right; right; eexists; reflexivity .. ].
      * intros Heq; run_plain Heq. right; right. eexists. reflexivity.
    + intros Heq; run_plain Heq. right; right. eexists. reflexivity.
  - unfold download_song, try_except, download_song_body.
    rewrite (run_bind_ok _ _ _ _ _ (path_exists_new _ _ Hnew)).
    unfold mbind, run_mbind, run_bind. rewrite Hreq.
    intros Heq; run_plain Heq. right; right. eexists. reflexivity.
  - apply request_file_spec in Hreq
      as (_ & _ & _ & _ & _ & [(_ & _ & [? ?])|(_ & _ & Hne)]);
      [done | by destruct (Hne c)].
Qed.

Lemma status_holds_name (needle : str) (song : Song) (dir : str)
    (w w1 : World) (r : str) :
  download_song env song dir w = (Ok r, w1) →
  contains needle (name song) = true →
  contains needle r = true.
Proof.
  intros [(Hr & _) | [(Hr & _) | (msg & Hr)]]%download_song_outcome Hn;
    simplify_eq;
    [ by apply contains_app_r | by apply contains_app_r
    | unfold failed_status; by apply contains_app_r, contains_app_l ].
Qed.

Lemma unfailed_status_has_file (song : Song) (dir : str) (w w1 : World)
    (r : str) :
  download_song env song dir w = (Ok r, w1) →
  contains (lit "Failed") r = false →
  is_Some (fs w1 !! path_str (filepath_of dir song))
  ∧ contains (lit "Failed") (name song) = false.
Proof.
  intros Hrun Hr. split.
  - apply download_song_outcome in Hrun
      as [(_ & -> & ?) | [(_ & ?) | (msg & ?)]]; simplify_eq; try done;
      by rewrite failed_status_is_failed in Hr.
  - destruct (contains (lit "Failed") (name song)) eqn:Hn; [|done].
    by rewrite (status_holds_name _ _ _ _ _ _ Hrun Hn) in Hr.
Qed.

Lemma count_failed_none (rs : list str) :
  count_failed rs = 0%nat → Forall (λ r, contains (lit "Failed") r = false) rs.
Proof.
  induction rs as [|r rs IH]; [done|]. rewrite count_failed_cons.
  destruct (contains (lit "Failed") r) eqn:Hr; [done|].
  intros Hc. constructor; [done|]. by apply IH.
Qed.

Lemma count_failed_all (rs : list str) :
  Forall (λ r, contains (lit "Failed") r = true) rs →
  count_failed rs = length rs.
Proof.
  induction 1 as [|r rs Hr _ IH]; [done|].
  rewrite count_failed_cons, Hr, IH. done.
Qed.

Lemma downloads_files (dir : str) (songs : list Song) (rs : list str)
    (w w1 : World) :
  downloads env dir w songs rs w1 →
  Forall (λ r, contains (lit "Failed") r = false) rs →
  Forall (λ song, is_Some (fs w1 !! path_str (filepath_of dir song))
                  ∧ contains (lit "Failed") (name song) = false) songs.
Proof.
  induction 1 as [|w w1 w2 song songs r rs Hrun Hrest IH]; [done|].
  intros [Hr Hrs]%Forall_cons. constructor; [|by apply IH].
  destruct (unfailed_status_has_file _ _ _ _ _ Hrun Hr) as [Hfile Hname].
  split; [|done].
  apply downloads_frame in Hrest as (_ & _ & _ & _ & Hkeep).
  by rewrite Hkeep.
Qed.

Lemma downloads_all_skipped (dir : str) (songs : list Song) (w : World) :
  Forall (λ song, is_Some (fs w !! path_str (filepath_of dir song))) songs →
  downloads env dir w songs (map skipped_status songs) w.
Proof.
  induction 1 as [|song songs Hfile _ IH]; cbn [map]; [constructor|].
  econstructor; [|done]. by apply download_song_skips.
Qed.

Lemma downloads_det (dir : str) (songs : list Song) (rs rs' : list str)
    (w w1 w1' : World) :
  downloads env dir w songs rs w1 → downloads env dir w songs rs' w1' →
  rs = rs' ∧ w1 = w1'.
Proof.
  intros Hd. revert rs' w1'.
  induction Hd as [|w w1 w2 song songs r rs Hrun Hrest IH]; intros rs' w1' Hd';
    inversion Hd' as [|? ? ? ? ? ? ? Hrun' Hrest']; simplify_eq.
  - done.
  - rewrite Hrun in Hrun'. simplify_eq.
    by destruct (IH _ _ Hrest') as [-> ->].
Qed.

Lemma count_failed_skipped (songs : list Song) :
  Forall (λ song, contains (lit "Failed") (name song) = false) songs →
  count_failed (map skipped_status songs) = 0%nat.
Proof.
  induction 1 as [|song songs Hn _ IH]; [done|].
  cbn [map]. by rewrite count_failed_cons, skipped_status_failed, Hn, IH.
Qed.

End DownloadRuns.

Section DownloadRunTheorems.
Import Download.
Context `{Runtime} (env : Env).

(** X5. In a run with one worker the count of failures goes by the word
    [Failed] in the status, and the status holds the name of the song: a
    song whose name holds [Failed] is counted as failed whatever became of
    it.  For songs that all have such a name the run returns as many
    failures as songs. *)
Theorem song_named_failed_is_counted_failed (songs : list Song)
    (max_workers : option nat) (w : World) :
  default 1%nat max_workers = 1%nat →
  Forall (λ song, contains (lit "Failed") (name song) = true) songs →
  (download_all_songs env songs max_workers w).1
  = Ok (length songs, length songs).
Proof.
  intros Hmw Hnames.
  destruct (download_all_songs_run env songs max_workers w)
    as (rs & w1 & Hdl & -> & Hlen); [by rewrite Hmw|].
  cbn [fst]. do 2 f_equal. rewrite <- Hlen. apply count_failed_all.
  clear Hlen.
  induction Hdl as [|? ? ? ? ? ? ? Hrun _ IH]; [done|].
  apply Forall_cons in Hnames as [Hn Hnames].
  constructor; [|by apply IH]. by eapply (status_holds_name env).
Qed.

(** X6. A run with one worker that counts no failure leaves every song's
    file in place, so a second run over the same songs, whatever the
    server then does, sends no request, draws no delay, changes no file
    and, again, counts no failure. *)
Theorem rerun_after_clean_run_sends_nothing (env2 : Env) (songs : list Song)
    (max_workers : option nat) (w w1 : World) (n : nat) :
  default 1%nat max_workers = 1%nat →
  download_all_songs env songs max_workers w = (Ok (n, 0%nat), w1) →
  ∃ w2,
    download_all_songs env2 songs max_workers w1 = (Ok (n, 0%nat), w2)
    ∧ events w2 = events w1 ∧ drawn w2 = drawn w1 ∧ fs w2 = fs w1.
Proof.
  intros Hone Hrun.
  assert (default 1%nat max_workers ≠ 0%nat) as Hmw by (by rewrite Hone).
  destruct (download_all_songs_run env songs max_workers w Hmw)
    as (rs & wd & Hdl & Hrun1 & Hlen).
  rewrite Hrun1 in Hrun. simplify_eq.
  match goal with Hc : count_failed rs = 0%nat |- _ =>
    apply count_failed_none in Hc; rename Hc into Hnone end.
  pose proof (downloads_files env _ _ _ _ _ Hdl Hnone) as Hfiles.
  destruct (download_all_songs_run env2 songs max_workers
              (set_out
                 (λ l, l ++ status_lines (length songs) 0
                              (as_completed (completion env) rs)) wd) Hmw)
    as (rs2 & wd2 & Hdl2 & Hrun2 & _).
  set (ws := session_start max_workers
               (set_out
                  (λ l, l ++ status_lines (length songs) 0
                               (as_completed (completion env) rs)) wd))
    in *.
  assert (downloads env2 (lit "mkw_music_brstm") ws songs
            (map skipped_status songs) ws) as Hskip.
  { apply (downloads_all_skipped env2).
    eapply Forall_impl; [exact Hfiles|]. intros song [Hfile _]. exact Hfile. }
  destruct (downloads_det env2 _ _ _ _ _ _ _ Hdl2 Hskip) as [-> ->].
  exists (set_out
            (λ l, l ++ status_lines (length songs) 0
                         (as_completed (completion env2)
                            (map skipped_status songs))) ws).
  split; [|done].
  rewrite Hrun2, count_failed_skipped; [done|].
  eapply Forall_impl; [exact Hfiles|]. by intros song [_ Hn].
Qed.

Lemma downloads_completing (next : nat → nat) (dir : str)
    (songs : list Song) (rs : list str) (w w1 : World) :
  downloads (completing next env) dir w songs rs w1 →
  downloads env dir w songs rs w1.
Proof. induction 1; econstructor; eauto. Qed.

(** X7. The order in which the futures complete changes the console and
    nothing else.  Two runs with one worker that differ in that order
    only return the same counters and leave the same files, directories,
    headers and events; they print the lines of the same statuses, each
    run numbering them in its order. *)
Theorem completion_order_changes_the_console_only (next : nat → nat)
    (songs : list Song) (w : World) :
  (download_all_songs (completing next env) songs None w).1
  = (download_all_songs env songs None w).1
  ∧ ∃ rs w1,
      download_all_songs env songs None w
      = (Ok (length songs, count_failed rs),
         set_out
           (λ l, l ++ status_lines (length songs) 0
                        (as_completed (completion env) rs)) w1)
      ∧ download_all_songs (completing next env) songs None w
        = (Ok (length songs, count_failed rs),
           set_out
             (λ l, l ++ status_lines (length songs) 0
                          (as_completed next rs)) w1)
      ∧ as_completed next rs ≡ₚ as_completed (completion env) rs.
Proof.
  destruct (download_all_songs_run env songs None w)
    as (rs & w1 & Hdl & Hrun & _); [done|].
  destruct (download_all_songs_run (completing next env) songs None w)
    as (rs' & w1' & Hdl' & Hrun' & _); [done|].
  apply downloads_completing in Hdl'.
  destruct (downloads_det env _ _ _ _ _ _ _ Hdl' Hdl) as [-> ->].
  split; [by rewrite Hrun, Hrun'|].
  exists rs, w1. split_and!; [done..|].
  by rewrite !as_completed_perm.
Qed.


End DownloadRunTheorems.

(** A song named [Mission Failed], served whole, is counted as failed. *)
Lemma song_named_failed_witness :
  (@Download.download_all_songs ascii_runtime (answering_env audio_response)
     [song_mission] None ready_world).1
  = Ok (length [song_mission], length [song_mission]).
Proof.
  apply (@song_named_failed_is_counted_failed ascii_runtime
           (answering_env audio_response) [song_mission] None ready_world).
  - reflexivity.
  - constructor; [by vm_compute|constructor].
Defined.

(** The run over two songs that are both served, and a second run at a
    server that answers 404. *)
Lemma rerun_after_clean_run_witness :
  ∃ w2,
    @Download.download_all_songs ascii_runtime
      (answering_env not_found_response) [song_one; song_three] None
      clean_first_run.2
    = (Ok (2%nat, 0%nat), w2)
    ∧ Download.events w2 = Download.events clean_first_run.2
    ∧ Download.drawn w2 = Download.drawn clean_first_run.2
    ∧ Download.fs w2 = Download.fs clean_first_run.2.
Proof.
  apply (@rerun_after_clean_run_sends_nothing ascii_runtime
           (steady_env audio_body) (answering_env not_found_response)
           [song_one; song_three] None (fresh_world ∅) clean_first_run.2 2).
  - reflexivity.
  - refine (run_result clean_first_run (Ok (2%nat, 0%nat)) _).
    vm_compute. reflexivity.
Defined.

(** ** More on the scrape *)

(** *** What a match of the pattern holds *)

Lemma span_spec (cls : char → bool) (s run rest : str) :
  span cls s = (run, rest) →
  s = run ++ rest ∧ ∀ c, c ∈ run → cls c = true.
Proof.
  revert run rest. induction s as [|c s IH]; intros run rest; cbn [span].
  - intros [= <- <-]. split; [done|]. by intros c ?%not_elem_of_nil.
  - destruct (cls c) eqn:Hc.
    + destruct (span cls s) as [run' rest'].
      intros [= <- <-]. destruct (IH _ _ eq_refl) as [-> Hall].
      split; [done|]. intros x [->|?]%elem_of_cons; auto.
    + intros [= <- <-]. split; [done|]. by intros x ?%not_elem_of_nil.
Qed.

Lemma give_back_inv {A} (k : str → str → option A) (least : nat)
    (taken_rev rest : str) (r : A) :
  give_back k least taken_rev rest = Some r →
  ∃ taken rest',
    k taken rest' = Some r ∧ (least ≤ length taken)%nat
    ∧ ∀ c, c ∈ taken → c ∈ taken_rev.
Proof.
  revert rest. induction taken_rev as [|c taken_rev IH]; intros rest;
    cbn [give_back].
  - destruct (least <=? length (@nil N))%nat eqn:Hl; [|done].
    apply Nat.leb_le in Hl.
    destruct (k (reverse []) rest) eqn:Hk; [|done].
    intros [= <-]. exists (reverse []), rest. split_and!; try done.
  - destruct (least <=? length (c :: taken_rev))%nat eqn:Hl; [|done].
    apply Nat.leb_le in Hl.
    destruct (k (reverse (c :: taken_rev)) rest) eqn:Hk.
    + intros [= <-]. exists (reverse (c :: taken_rev)), rest.
      split_and!; [done| by rewrite length_reverse |].
      intros x. by rewrite elem_of_reverse.
    + intros (taken & rest' & ? & ? & Hin)%IH.
      exists taken, rest'. split_and!; [done..|].
      intros x Hx. apply elem_of_cons. right. by apply Hin.
Qed.

Lemma match_lit_inv (text : str) (p : list atom) (s : str)
    (groups : list str) (after : str) :
  match_here (Lit text :: p) s = Some (groups, after) →
  match_here p (drop (length text) s) = Some (groups, after).
Proof. cbn [match_here]. by destruct (starts_with text s). Qed.

Lemma match_many_inv (cls : char → bool) (least : nat) (capture : bool)
    (p : list atom) (s : str) (groups : list str) (after : str) :
  match_here (Many cls least capture :: p) s = Some (groups, after) →
  ∃ taken rest groups',
    match_here p rest = Some (groups', after)
    ∧ groups = (if capture then [taken] else []) ++ groups'
    ∧ (least ≤ length taken)%nat
    ∧ ∀ c, c ∈ taken → cls c = true.
Proof.
  cbn [match_here]. destruct (span cls s) as [run rest] eqn:Hspan.
  apply span_spec in Hspan as [-> Hall].
  intros (taken & rest' & Hk & Hlen & Hin)%give_back_inv.
  destruct (match_here p rest') as [[groups' after']|] eqn:Hm; [|done].
  injection Hk as <- <-. exists taken, rest', groups'.
  split_and!; try done.
  intros c Hc. apply Hall. apply elem_of_reverse. by apply Hin.
Qed.

Lemma findall_from_elem (p : list atom) (skip : nat) (s : str)
    (groups : list str) :
  groups ∈ findall_from p skip s →
  ∃ s' after, match_here p s' = Some (groups, after).
Proof.
  revert skip. induction s as [|c s IH]; intros skip; cbn [findall_from].
  - by intros ?%not_elem_of_nil.
  - destruct skip as [|k]; [|by apply IH].
    destruct (match_here p (c :: s)) as [[g after]|] eqn:Hm; [|by apply IH].
    intros [->|Hin]%elem_of_cons; [eauto|]. by eapply IH.
Qed.

Section ScrapeFacts.
Context `{Runtime}.

Lemma song_pattern_match (s : str) (groups : list str) (after : str) :
  match_here song_pattern s = Some (groups, after) →
  ∃ song_id song_name,
    groups = [song_id; song_name]
    ∧ song_id ≠ [] ∧ (∀ c, c ∈ song_id → isdigit c = true)
    ∧ song_name ≠ [] ∧ 60 ∉ song_name.
Proof.
  unfold song_pattern. intros Hm.
  apply match_lit_inv in Hm.
  apply match_many_inv in Hm as (song_id & ? & g1 & Hm & -> & Hid & Hdigits).
  apply match_lit_inv in Hm.
  apply match_many_inv in Hm as (? & ? & g2 & Hm & -> & _ & _).
  apply match_lit_inv in Hm.
  apply match_many_inv in Hm as (? & ? & g3 & Hm & -> & _ & _).
  apply match_lit_inv in Hm.
  apply match_many_inv in Hm as (? & ? & g4 & Hm & -> & _ & _).
  apply match_lit_inv in Hm.
  apply match_many_inv in Hm as (song_name & ? & g5 & Hm & -> & Hname & Hno).
  apply match_lit_inv in Hm. cbn [match_here] in Hm. injection Hm as <- _.
  exists song_id, song_name. split_and!; [done| |done| |].
  - intros ->. cbn in Hid. lia.
  - intros ->. cbn in Hname. lia.
  - intros Hin. by apply Hno in Hin.
Qed.

Lemma findall_song_pattern (html : str) (m : list str) :
  m ∈ findall song_pattern html →
  ∃ song_id song_name,
    m = [song_id; song_name]
    ∧ song_id ≠ [] ∧ (∀ c, c ∈ song_id → isdigit c = true)
    ∧ song_name ≠ [] ∧ 60 ∉ song_name.
Proof.
  intros (s' & after & Hm)%findall_from_elem. by eapply song_pattern_match.
Qed.

Lemma generator_song_shape (r : fetched) (song : Generate.Song) :
  song ∈ Generate.fetch_song_data r →
  ∃ song_id song_name,
    song = {| Generate.id := song_id;
              Generate.name := clean_name song_name;
              Generate.page_url := site ++ lit "/song/" ++ song_id;
              Generate.download_url := site ++ lit "/brstm/" ++ song_id |}
    ∧ song_id ≠ [] ∧ (∀ c, c ∈ song_id → isdigit c = true)
    ∧ song_name ≠ [] ∧ 60 ∉ song_name.
Proof.
  destruct r as [html|msg]; [|by intros ?%not_elem_of_nil].
  cbn [Generate.fetch_song_data]. unfold Generate.songs_of.
  rewrite list_elem_of_In, in_flat_map.
  intros (m & Hm%list_elem_of_In & Hsong).
  apply findall_song_pattern in Hm as (i & n & -> & Hi & Hd & Hn & Hno).
  apply list_elem_of_In, list_elem_of_singleton in Hsong as ->.
  exists i, n. done.
Qed.

(** X9. The names the verification expects are the names of the songs the
    downloader scrapes from the same page, in the same order. *)
Theorem expected_songs_are_downloader_names (r : fetched) :
  Verify.fetch_expected_songs r
  = map Download.name (Download.fetch_song_data r).
Proof.
  destruct r as [html|msg]; [|done].
  cbn [Verify.fetch_expected_songs Download.fetch_song_data].
  induction (findall song_pattern (main_songs_section html)) as [|m ms IH];
    [done|].
  cbn [Verify.names_of Download.songs_of flat_map].
  rewrite map_app. unfold Verify.names_of, Download.songs_of in IH.
  rewrite IH. by destruct m as [|? [|? [|? ?]]].
Qed.

(** X10. Every song of a scrape has an identifier that is not empty and is
    made of decimal digits, and its URLs are the site's [/brstm/] (and, for
    the generator, [/song/]) path followed by that identifier. *)
Theorem scraped_songs_have_numeric_ids (r : fetched) :
  (∀ song, song ∈ Download.fetch_song_data r →
     Download.id song ≠ []
     ∧ (∀ c, c ∈ Download.id song → isdigit c = true)
     ∧ Download.url song = site ++ lit "/brstm/" ++ Download.id song)
  ∧ (∀ song, song ∈ Generate.fetch_song_data r →
       Generate.id song ≠ []
       ∧ (∀ c, c ∈ Generate.id song → isdigit c = true)
       ∧ Generate.page_url song = site ++ lit "/song/" ++ Generate.id song
       ∧ Generate.download_url song
         = site ++ lit "/brstm/" ++ Generate.id song).
Proof.
  destruct r as [html|msg].
  2: { split; intros song Hin; by apply not_elem_of_nil in Hin. }
  split; intros song;
    cbn [Download.fetch_song_data Generate.fetch_song_data];
    unfold Download.songs_of, Generate.songs_of;
    rewrite list_elem_of_In, in_flat_map;
    intros (m & Hm%list_elem_of_In & Hsong);
    apply findall_song_pattern in Hm as (i & n & -> & Hi & Hd & _);
    apply list_elem_of_In, list_elem_of_singleton in Hsong as ->; done.
Qed.

End ScrapeFacts.

(** *** The scrape of a table *)

Lemma span_app (cls : char → bool) (run rest : str) :
  forallb cls run = true →
  match rest with c :: _ => cls c = false | [] => True end →
  span cls (run ++ rest) = (run, rest).
Proof.
  intros Hrun Hstop. induction run as [|a run IH]; cbn [app span].
  - destruct rest as [|c rest]; [done|]. cbn [span]. by rewrite Hstop.
  - cbn [forallb] in Hrun. apply andb_true_iff in Hrun as [Ha Hrun].
    by rewrite Ha, IH.
Qed.

Lemma give_back_first {A} (k : str → str → option A) (least : nat)
    (taken_rev rest : str) (r : A) :
  (least ≤ length taken_rev)%nat →
  k (reverse taken_rev) rest = Some r →
  give_back k least taken_rev rest = Some r.
Proof.
  intros Hl%Nat.leb_le Hk. destruct taken_rev; cbn [give_back];
    by rewrite Hl, Hk.
Qed.

Lemma match_lit (text : str) (p : list atom) (s : str) :
  match_here (Lit text :: p) (text ++ s) = match_here p s.
Proof. cbn [match_here]. by rewrite starts_with_app, drop_app_length. Qed.

Lemma match_many (cls : char → bool) (least : nat) (capture : bool)
    (p : list atom) (run rest : str) (groups : list str) (after : str) :
  forallb cls run = true →
  match rest with c :: _ => cls c = false | [] => True end →
  (least ≤ length run)%nat →
  match_here p rest = Some (groups, after) →
  match_here (Many cls least capture :: p) (run ++ rest)
  = Some ((if capture then [run] else []) ++ groups, after).
Proof.
  intros Hrun Hstop Hl Hrest. cbn [match_here]. rewrite span_app by done.
  apply give_back_first; [by rewrite length_reverse|].
  by rewrite reverse_involutive, Hrest.
Qed.

Lemma findall_from_skip (p : list atom) (skipped s : str) :
  findall_from p (length skipped) (skipped ++ s) = findall_from p 0 s.
Proof.
  induction skipped as [|c skipped IH]; [|done].
  cbn [length app]. by destruct s.
Qed.

Lemma findall_from_match (p : list atom) (c : char) (matched after : str)
    (groups : list str) :
  match_here p (c :: matched ++ after) = Some (groups, after) →
  findall_from p 0 (c :: matched ++ after)
  = groups :: findall_from p 0 after.
Proof.
  intros Hm. cbn [findall_from]. rewrite Hm. f_equal.
  replace (length (c :: matched ++ after) - length after - 1)%nat
    with (length matched); [apply findall_from_skip|].
  cbn [length]. rewrite length_app. lia.
Qed.

Lemma findall_from_none (p : list atom) (c : char) (s : str) :
  match_here p (c :: s) = None →
  findall_from p 0 (c :: s) = findall_from p 0 s.
Proof. intros Hm. cbn [findall_from]. by rewrite Hm. Qed.

Section TableFacts.
Context `{Runtime}.

Lemma no_match_other (c : char) (s : str) :
  (60 =? c) = false → match_here song_pattern (c :: s) = None.
Proof.
  intros Hc. unfold song_pattern.
  change (lit "<tr id=" ++ [dquote] ++ lit "s")
    with (60 :: lit "tr id=" ++ [dquote] ++ lit "s").
  cbn [match_here starts_with]. by rewrite Hc.
Qed.

Lemma no_match_close (s : str) :
  match_here song_pattern (60 :: 47 :: s) = None.
Proof.
  unfold song_pattern.
  change (lit "<tr id=" ++ [dquote] ++ lit "s")
    with (60 :: 116 :: lit "r id=" ++ [dquote] ++ lit "s").
  reflexivity.
Qed.

Lemma findall_from_plain (sep s : str) :
  forallb (λ c, negb (c =? 60)) sep = true →
  findall_from song_pattern 0 (sep ++ s) = findall_from song_pattern 0 s.
Proof.
  induction sep as [|c sep IH]; [done|]. cbn [forallb app].
  intros [Hc Hsep]%andb_true_iff. apply negb_true_iff in Hc.
  rewrite findall_from_none; [by apply IH|].
  apply no_match_other. by rewrite N.eqb_sym.
Qed.

Lemma findall_from_row_end (s : str) :
  findall_from song_pattern 0 (lit "</td></tr>" ++ s)
  = findall_from song_pattern 0 s.
Proof.
  change (lit "</td></tr>" ++ s)
    with (60 :: 47 :: 116 :: 100 :: 62 :: 60 :: 47 :: 116 :: 114 :: 62 :: s).
  rewrite (findall_from_none _ _ _ (no_match_close _)).
  do 4 (rewrite findall_from_none by by apply no_match_other).
  rewrite (findall_from_none _ _ _ (no_match_close _)).
  do 4 (rewrite findall_from_none by by apply no_match_other).
  done.
Qed.

Lemma well_formed_spec (r : Row) :
  well_formed r = true →
  (1 ≤ length (row_id r))%nat ∧ forallb isdigit (row_id r) = true
  ∧ forallb isspace (row_space r) = true
  ∧ forallb (λ c, negb (c =? 62)) (row_attrs r) = true
  ∧ (1 ≤ length (row_song r))%nat ∧ forallb isdigit (row_song r) = true
  ∧ (1 ≤ length (row_name r))%nat
  ∧ forallb (λ c, negb (c =? 60)) (row_name r) = true
  ∧ forallb (λ c, negb (c =? 60)) (row_sep r) = true.
Proof.
  unfold well_formed. rewrite !andb_true_iff, !Nat.ltb_lt. naive_solver.
Qed.

Lemma match_row (r : Row) (s : str) :
  well_formed r = true →
  match_here song_pattern (row_link r ++ s)
  = Some ([row_id r; row_name r], s).
Proof.
  intros (Hid & Hdigits & Hspace & Hattrs & Hsong & Hsdigits & Hname
          & Hplain & _)%well_formed_spec.
  cut (∃ groups,
         match_here song_pattern (row_link r ++ s) = Some (groups, s)
         ∧ groups = [row_id r; row_name r]).
  { by intros (groups & -> & ->). }
  unfold row_link, song_pattern. rewrite <- !(assoc_L (++) _ _ s).
  eexists. split.
  - rewrite match_lit. eapply match_many; [done | done | done |].
    rewrite match_lit. eapply match_many; [done | done | lia |].
    rewrite match_lit. eapply match_many; [done | done | lia |].
    rewrite match_lit. eapply match_many; [done | done | done |].
    rewrite match_lit. eapply match_many; [done | done | done |].
    rewrite match_lit. reflexivity.
  - reflexivity.
Qed.

Lemma findall_table (rows : list Row) :
  Forall (λ r, well_formed r = true) rows →
  findall song_pattern (table_text rows)
  = map (λ r, [row_id r; row_name r]) rows.
Proof.
  unfold findall, table_text.
  induction 1 as [|r rows Hr _ IH]; [done|].
  cbn [map concat]. unfold row_text at 1. rewrite <- !(assoc_L (++)).
  pose proof (match_row r (lit "</td></tr>"
                           ++ row_sep r ++ concat (map row_text rows)) Hr)
    as Hm.
  assert (∃ c matched, row_link r = c :: matched) as (c & matched & Hlink).
  { unfold row_link.
    change (lit "<tr id=" ++ [dquote] ++ lit "s")
      with (60 :: lit "tr id=" ++ [dquote] ++ lit "s"). eauto. }
  rewrite Hlink in *. cbn [app] in *.
  rewrite (findall_from_match _ _ _ _ _ Hm), findall_from_row_end.
  rewrite findall_from_plain; [by rewrite IH|].
  by apply well_formed_spec in Hr as (_&_&_&_&_&_&_&_&?).
Qed.

(** X11. The scrape of a table of well-formed rows returns the rows: one
    song per row, in the order of the page, with the digits of the row's
    id as identifier and the cleaned text of the link as name. *)
Theorem scrape_returns_the_rows_of_a_table (rows : list Row) :
  Forall (λ r, well_formed r = true) rows →
  generator_songs (Generate.fetch_song_data (Page (table_text rows)))
  = map (λ r, (row_id r, clean_name (row_name r))) rows.
Proof.
  intros Hrows. cbn [Generate.fetch_song_data].
  rewrite (findall_table rows Hrows). clear Hrows.
  induction rows as [|r rows IH]; [done|].
  cbn [map Generate.songs_of flat_map app generator_songs
       Generate.id Generate.name].
  f_equal. exact IH.
Qed.

End TableFacts.

(** The scrape of a table of two rows. *)
Lemma scrape_of_table_witness :
  generator_songs
    (@Generate.fetch_song_data ascii_runtime (Page (table_text sample_rows)))
  = map (λ r, (row_id r, @clean_name ascii_runtime (row_name r))) sample_rows.
Proof.
  apply (@scrape_returns_the_rows_of_a_table ascii_runtime sample_rows).
  repeat constructor.
Defined.

(** ** More on names *)

Lemma lstrip_length (s : str) : (length (lstrip s) ≤ length s)%nat.
Proof.
  induction s as [|c s IH]; cbn [lstrip]; [done|].
  destruct (isspace c); cbn [length]; lia.
Qed.

Lemma strip_length (s : str) : (length (strip s) ≤ length s)%nat.
Proof.
  unfold strip, rstrip. rewrite length_reverse.
  etrans; [apply lstrip_length|]. rewrite length_reverse.
  apply lstrip_length.
Qed.

(** X12. [sanitize_filename] never makes a name longer, and the names it
    leaves as they are are exactly the names that hold none of the nine
    characters and neither start nor end with white space. *)
Theorem sanitize_filename_fixed_points (s : str) :
  (length (sanitize_filename s) ≤ length s)%nat
  ∧ (sanitize_filename s = s ↔
     (∀ c, c ∈ invalid_chars → c ∉ s)
     ∧ (∀ c, head s = Some c → isspace c = false)
     ∧ (∀ c, last s = Some c → isspace c = false)).
Proof.
  split.
  - rewrite sanitize_filename_unfold. etrans; [apply strip_length|].
    by rewrite length_map.
  - split.
    + intros Hfix. rewrite <- Hfix. split_and!.
      * intros c. apply sanitize_filename_valid.
      * intros c. rewrite sanitize_filename_unfold. apply strip_head.
      * intros c. rewrite sanitize_filename_unfold. apply strip_last.
    + intros (Hvalid & Hhead & Hlast). rewrite sanitize_filename_unfold.
      assert (map (scrub_char invalid_chars) s = s) as ->.
      { clear Hhead Hlast. induction s as [|x s IH]; [done|].
        cbn [map]. rewrite scrub_char_id, IH; [done| |].
        - intros c Hc Hin. apply (Hvalid c Hc). by apply elem_of_cons; right.
        - intros Hx. apply (Hvalid x Hx). by apply elem_of_cons; left. }
      by apply strip_fixed.
Qed.

(** *** The decoding of a name *)

Lemma replace_from_plain (h : char) (old new s : str) :
  h ∉ s → replace_from (h :: old) new 0 s = s.
Proof.
  induction s as [|c s IH]; [done|].
  intros [Hc Hs]%not_elem_of_cons. cbn [replace_from starts_with].
  rewrite (proj2 (N.eqb_neq h c)) by done. cbn [andb]. by rewrite IH.
Qed.

Lemma replace_from_app_plain (h : char) (old new pre s : str) :
  h ∉ pre →
  replace_from (h :: old) new 0 (pre ++ s)
  = pre ++ replace_from (h :: old) new 0 s.
Proof.
  induction pre as [|c pre IH]; [done|].
  intros [Hc Hpre]%not_elem_of_cons. cbn [app replace_from starts_with].
  rewrite (proj2 (N.eqb_neq h c)) by done. cbn [andb]. by rewrite IH.
Qed.

Lemma contains_plain (h : char) (needle s : str) :
  h ∉ s → contains (h :: needle) s = false.
Proof.
  induction s as [|c s IH]; [done|].
  intros [Hc Hs]%not_elem_of_cons. cbn [contains starts_with].
  rewrite (proj2 (N.eqb_neq h c)) by done. cbn [andb orb]. by apply IH.
Qed.

Lemma not_elem_of_app_plain (x : char) (pre mid post : str) :
  x ∉ pre → x ∉ mid → x ∉ post → x ∉ pre ++ mid ++ post.
Proof. rewrite !not_elem_of_app. done. Qed.

Section NameFacts.
Context `{Runtime}.

(** X13. The cleaning of a name decodes the two entities once, [&#039;]
    before [&amp;], and leaves plain text alone.  For texts [pre] and
    [post] without [&] and [%]: a name without entity is kept; [&#039;]
    becomes an apostrophe and [&amp;] an ampersand; and [&amp;#039;]
    becomes [&#039;], not an apostrophe. *)
Theorem clean_name_decodes_once (pre post : str) :
  38 ∉ pre → 37 ∉ pre → 38 ∉ post → 37 ∉ post →
  clean_name (pre ++ post) = pre ++ post
  ∧ clean_name (pre ++ lit "&#039;" ++ post) = pre ++ lit "'" ++ post
  ∧ clean_name (pre ++ lit "&amp;" ++ post) = pre ++ lit "&" ++ post
  ∧ clean_name (pre ++ lit "&amp;#039;" ++ post)
    = pre ++ lit "&#039;" ++ post.
Proof.
  intros Hpre Hpre' Hpost Hpost'.
  assert (∀ mid, 37 ∉ mid → unquote (pre ++ mid ++ post) = pre ++ mid ++ post)
    as Hplain.
  { intros mid Hmid. unfold unquote. change (lit "%") with [37].
    by rewrite contains_plain by by apply not_elem_of_app_plain. }
  unfold clean_name, replace.
  change (lit "&#039;") with [38; 35; 48; 51; 57; 59].
  change (lit "&amp;") with [38; 97; 109; 112; 59].
  change (lit "&amp;#039;") with [38; 97; 109; 112; 59; 35; 48; 51; 57; 59].
  change (lit "'") with [39]. change (lit "&") with [38].
  split_and!.
  - rewrite (replace_from_plain 38 _ _ (pre ++ post))
      by by apply not_elem_of_app.
    rewrite (replace_from_plain 38 _ _ (pre ++ post))
      by by apply not_elem_of_app.
    apply (Hplain []); [apply not_elem_of_nil].
  - do 2 (rewrite replace_from_app_plain by done;
          cbn [app replace_from starts_with N.eqb Pos.eqb andb length Nat.sub];
          rewrite (replace_from_plain 38 _ _ post) by done).
    apply (Hplain [39]). not_listed.
  - do 2 (rewrite replace_from_app_plain by done;
          cbn [app replace_from starts_with N.eqb Pos.eqb andb length Nat.sub];
          rewrite (replace_from_plain 38 _ _ post) by done).
    apply (Hplain [38]). not_listed.
  - do 2 (rewrite replace_from_app_plain by done;
          cbn [app replace_from starts_with N.eqb Pos.eqb andb length Nat.sub];
          rewrite (replace_from_plain 38 _ _ post) by done).
    apply (Hplain [38; 35; 48; 51; 57; 59]). not_listed.
Qed.

End NameFacts.

(** The decoding at a name of the game page. *)
Lemma clean_name_witness :
  @clean_name ascii_runtime (lit "Rock " ++ lit "Roll") = lit "Rock " ++ lit "Roll"
  ∧ @clean_name ascii_runtime (lit "Rock " ++ lit "&#039;" ++ lit "Roll")
    = lit "Rock " ++ lit "'" ++ lit "Roll"
  ∧ @clean_name ascii_runtime (lit "Rock " ++ lit "&amp;" ++ lit "Roll")
    = lit "Rock " ++ lit "&" ++ lit "Roll"
  ∧ @clean_name ascii_runtime (lit "Rock " ++ lit "&amp;#039;" ++ lit "Roll")
    = lit "Rock " ++ lit "&#039;" ++ lit "Roll".
Proof.
  apply (@clean_name_decodes_once ascii_runtime (lit "Rock ") (lit "Roll"));
    apply (bool_decide_unpack _); vm_compute; exact I.
Defined.

(** ** More on the conversion *)

Section ConvertMore.
Import Convert.
Context (env : Env).

(** X14. The inputs are numbered once each.  The loop that sorts the inputs
    prints the inputs whose output is there under the numbers from 1 on,
    in the order of the listing, and changes nothing else; the inputs
    left are the tasks; the two groups make up the inputs, so the tasks,
    numbered after the last skipped input, end at the total. *)
Theorem inputs_are_numbered_once (total : nat) (files : list path)
    (w : World) :
  scan total 0 files w
  = (Ok (length (skipped_inputs (fs w) files), pending (fs w) files),
     set_out (λ l, l ++ skip_lines total 0 (skipped_inputs (fs w) files)) w)
  ∧ (length (skipped_inputs (fs w) files) + length (pending (fs w) files))%nat
    = length files
  ∧ map fst (enumerate (S (length (skipped_inputs (fs w) files)))
               (pending (fs w) files))
    = seq (S (length (skipped_inputs (fs w) files)))
          (length (pending (fs w) files)).
Proof.
  split_and!.
  - by rewrite scan_count.
  - apply skipped_or_pending.
  - apply enumerate_numbers.
Qed.


(** X16. A run that finds every output in place converts nothing: when
    the dependencies are met and no input lacks its output, the run ends
    normally having run [ffmpeg -version] and nothing else, created no
    executor and changed no file, and it has printed one line for every
    input. *)
Theorem nothing_left_to_convert (w : World) :
  dependencies_met env w = true →
  pending (fs w) (glob INPUT_DIR (lit ".brstm") (fs w)) = [] →
  ∃ w1,
    convert_files_parallel env w = (Ok tt, w1)
    ∧ fs w1 = fs w ∧ pools w1 = pools w ∧ submitted w1 = submitted w
    ∧ procs w1 = procs w ++ [ffmpeg_version]
    ∧ length (out w1)
      = (length (out w) + length (glob INPUT_DIR (lit ".brstm") (fs w)))%nat.
Proof.
  intros Hdeps Hnone. rewrite (convert_files_parallel_checked env w Hdeps).
  cbn zeta. unfold inputs_of. rewrite Hnone.
  pose proof (skipped_or_pending (fs w) (glob INPUT_DIR (lit ".brstm") (fs w)))
    as Hcount.
  rewrite Hnone, Nat.add_0_r in Hcount.
  destruct (decide (glob INPUT_DIR (lit ".brstm") (fs w) = [])) as [Hnil|_].
  - eexists. split; [done|]. rewrite Hnil. cbn. split_and!; try done; lia.
  - rewrite decide_True by done. eexists. split; [done|].
    cbn. split_and!; try done.
    by rewrite length_app, skip_lines_length, Hcount.
Qed.

(** X17. A transcoding that fails after writing its output leaves that
    output on disk, and the input is then never converted again: when the
    extractor exits with zero and the transcoder exits with another code
    having written the output file, [convert_file] returns the [Failed]
    line, the output holds what the transcoder wrote, and in no later
    listing is the input among the inputs left to convert. *)
Theorem failed_transcoding_hides_the_input (b : path) (i n : nat)
    (w : World) (written1 : option bytes) (rc : Z) (c : bytes) :
  run_process env (vgmstream_command b (output_path_of b)) (fs w)
  = Exited 0 written1 →
  run_process env (ffmpeg_command (output_path_of b))
    (after_command (temp_wav_of (output_path_of b)) written1 (fs w))
  = Exited rc (Some c) →
  rc ≠ 0%Z →
  ∃ w1,
    convert_file env b (output_path_of b) i n w
    = (Ok (status_line i n mark_failed (lit "Failed: " ++ stem b)), w1)
    ∧ fs w1 !! path_str (output_path_of b) = Some c
    ∧ ∀ files t, t ∈ pending (fs w1) files → t.1 ≠ b.
Proof.
  intros Hv Hf Hrc.
  destruct (convert_file_cases env b (output_path_of b) i n w)
    as (r & w1 & Hrun & _ & _ & _ & _ & _ & _ & _ & Hcmd).
  rewrite Hv, decide_True in Hcmd by done. cbn zeta in Hcmd.
  rewrite Hf, decide_False in Hcmd by done. destruct Hcmd as [_ ->].
  exists w1. split; [done|].
  assert (fs w1 !! path_str (output_path_of b) = Some c) as Hout.
  { revert Hrun. unfold convert_file, try_except_class.
    fold (temp_wav_of (output_path_of b)).
    fold (vgmstream_command b (output_path_of b)).
    fold (ffmpeg_command (output_path_of b)).
    rewrite (run_bind_ok _ _ _ _ _ (subprocess_run_exit env _ _ _ _ _ Hv)).
    unfold mbind at 1, run_mbind at 1, run_bind at 1.
    rewrite (subprocess_run_exit env _ (output_path_of b) _ rc (Some c))
      by exact Hf.
    rewrite decide_False by done. rewrite decide_True by done.
    intros Hclean. apply cleanup_inv in Hclean as (_ & _ & _ & _ & _ & _ & ->).
    rewrite lookup_delete_ne.
    - cbn. apply lookup_insert_eq.
    - intros Heq. pose proof (m4a_last b) as Hl.
      rewrite <- Heq, wav_last in Hl. done. }
  split; [done|].
  intros files t (_ & Ht & Hnone)%pending_spec Heq.
  rewrite Ht, Heq, Hout in Hnone. done.
Qed.

(** X18. [convert_file] catches the failure of a command and nothing else.
    When the extractor cannot be started, [convert_file] raises; when the
    extractor exits with zero and the transcoder cannot be started, it
    raises and the intermediate file stays as the extractor left it; when
    both exit with zero and the extractor has written no intermediate
    file, the deletion of that file raises. *)
Theorem convert_file_lets_other_errors_through (b : path) (i n : nat)
    (w : World) :
  (∀ msg,
     run_process env (vgmstream_command b (output_path_of b)) (fs w)
     = NotStarted msg →
     convert_file env b (output_path_of b) i n w
     = (Raised {| exn_type := lit "FileNotFoundError"; exn_msg := msg |},
        set_procs (λ l, l ++ [vgmstream_command b (output_path_of b)]) w))
  ∧ (∀ written1 msg,
       run_process env (vgmstream_command b (output_path_of b)) (fs w)
       = Exited 0 written1 →
       run_process env (ffmpeg_command (output_path_of b))
         (after_command (temp_wav_of (output_path_of b)) written1 (fs w))
       = NotStarted msg →
       convert_file env b (output_path_of b) i n w
       = (Raised {| exn_type := lit "FileNotFoundError"; exn_msg := msg |},
          set_procs (λ l, l ++ [ffmpeg_command (output_path_of b)])
            (set_fs (after_command (temp_wav_of (output_path_of b)) written1)
               (set_procs
                  (λ l, l ++ [vgmstream_command b (output_path_of b)]) w))))
  ∧ (∀ written2,
       run_process env (vgmstream_command b (output_path_of b)) (fs w)
       = Exited 0 None →
       run_process env (ffmpeg_command (output_path_of b)) (fs w)
       = Exited 0 written2 →
       fs w !! path_str (temp_wav_of (output_path_of b)) = None →
       (convert_file env b (output_path_of b) i n w).1
       = Raised {| exn_type := lit "FileNotFoundError";
                   exn_msg := path_str (temp_wav_of (output_path_of b)) |}).
Proof.
  split_and!.
  - intros msg Hv. unfold convert_file, try_except_class.
    fold (temp_wav_of (output_path_of b)).
    fold (vgmstream_command b (output_path_of b)).
    unfold mbind at 1, run_mbind at 1, run_bind at 1.
    rewrite (subprocess_run_not_started env _ _ _ _ Hv).
    rewrite decide_False by apply called_process_error_is_caught. done.
  - intros written1 msg Hv Hf. unfold convert_file, try_except_class.
    fold (temp_wav_of (output_path_of b)).
    fold (vgmstream_command b (output_path_of b)).
    fold (ffmpeg_command (output_path_of b)).
    rewrite (run_bind_ok _ _ _ _ _ (subprocess_run_exit env _ _ _ _ _ Hv)).
    unfold mbind at 1, run_mbind at 1, run_bind at 1.
    rewrite (subprocess_run_not_started env _ _ _ msg) by exact Hf.
    rewrite decide_False by apply called_process_error_is_caught. done.
  - intros written2 Hv Hf Hwav.
    destruct (convert_file_cases env b (output_path_of b) i n w)
      as (r & w1 & -> & _ & _ & _ & _ & _ & _ & _ & Hcmd).
    rewrite Hv, decide_True in Hcmd by done. cbn zeta in Hcmd.
    cbn [after_command] in Hcmd. rewrite Hf, decide_True in Hcmd by done.
    destruct Hcmd as [_ Hr]. rewrite decide_False in Hr; [done|].
    intros Hsome. destruct written2 as [c|]; cbn [after_command] in Hsome.
    + rewrite lookup_insert_ne, Hwav in Hsome; [by destruct Hsome|].
      intros Heq. pose proof (m4a_last b) as Hl.
      rewrite Heq, wav_last in Hl. done.
    + rewrite Hwav in Hsome. by destruct Hsome.
Qed.

End ConvertMore.

(** A second run over [a.brstm], converted before. *)
Lemma nothing_left_to_convert_witness :
  ∃ w1,
    Convert.convert_files_parallel working_env converted_world = (Ok tt, w1)
    ∧ Convert.fs w1 = Convert.fs converted_world
    ∧ Convert.pools w1 = Convert.pools converted_world
    ∧ Convert.submitted w1 = Convert.submitted converted_world
    ∧ Convert.procs w1 = Convert.procs converted_world ++ [ffmpeg_version]
    ∧ length (Convert.out w1)
      = (length (Convert.out converted_world)
         + length (glob Convert.INPUT_DIR (lit ".brstm")
                     (Convert.fs converted_world)))%nat.
Proof.
  apply (nothing_left_to_convert working_env converted_world);
    vm_compute; reflexivity.
Defined.

(** The conversion of [a.brstm] on a machine whose transcoder fails. *)
Lemma failed_transcoding_witness :
  ∃ w1,
    Convert.convert_file broken_transcoder_env input_a
      (Convert.output_path_of input_a) 1 1 one_input_world
    = (Ok (status_line 1 1 mark_failed (lit "Failed: " ++ stem input_a)), w1)
    ∧ Convert.fs w1 !! path_str (Convert.output_path_of input_a)
      = Some [0; 0]
    ∧ ∀ files t, t ∈ pending (Convert.fs w1) files → t.1 ≠ input_a.
Proof.
  apply (failed_transcoding_hides_the_input broken_transcoder_env input_a
           1 1 one_input_world (Some [82; 73; 70; 70]) 1 [0; 0]).
  - vm_compute. reflexivity.
  - vm_compute. reflexivity.
  - discriminate.
Defined.

(** ** More on the verification *)

Lemma str_leb_antisym (s t : str) :
  str_leb s t = true → str_leb t s = true → s = t.
Proof.
  revert t. induction s as [|a s IH]; intros [|b t]; cbn; try done.
  rewrite !orb_true_iff, !andb_true_iff, !N.ltb_lt, !N.eqb_eq.
  intros [Hab|[-> Hst]] [Hba|[Heq Hts]]; try lia.
  f_equal. by apply IH.
Qed.

#[global] Instance str_le_antisym : AntiSymm (=) str_le.
Proof. intros s t. apply str_leb_antisym. Qed.

(** X19. What [sorted] returns does not depend on the order in which the
    names come: two listings of the same names are sorted alike.  So the
    names the verification shows of a set are the same in whatever order
    the set is gone through, and they are its least names: no name of the
    set comes before one of them without being shown. *)
Theorem sorted_names_do_not_depend_on_order (names names' : list str) :
  names ≡ₚ names' →
  sorted names = sorted names'
  ∧ ∀ n f g,
      f ∈ names → f ∉ take n (sorted names') →
      g ∈ take n (sorted names) → str_le g f.
Proof.
  intros Hperm.
  assert (sorted names = sorted names') as Heq.
  { apply (StronglySorted_unique str_le); try apply sorted_ascending.
    by rewrite !sorted_perm. }
  split; [done|]. intros n f g Hf Hnot Hg. rewrite <- Heq in Hnot.
  pose proof (sorted_ascending names) as Hsorted.
  rewrite <- (take_drop n (sorted names)) in Hsorted.
  eapply StronglySorted_app_1_elem_of; [exact Hsorted|exact Hg|].
  rewrite <- (sorted_perm names), <- (take_drop n (sorted names)) in Hf.
  apply elem_of_app in Hf as [Hf|Hf]; [by destruct Hnot | done].
Qed.

(** Three names, listed in two orders. *)
Lemma sorted_names_witness :
  sorted [lit "b.brstm"; lit "a.brstm"; lit "B.brstm"]
  = sorted [lit "a.brstm"; lit "B.brstm"; lit "b.brstm"]
  ∧ ∀ n f g,
      f ∈ [lit "b.brstm"; lit "a.brstm"; lit "B.brstm"] →
      f ∉ take n (sorted [lit "a.brstm"; lit "B.brstm"; lit "b.brstm"]) →
      g ∈ take n (sorted [lit "b.brstm"; lit "a.brstm"; lit "B.brstm"]) →
      str_le g f.
Proof.
  apply (sorted_names_do_not_depend_on_order
           [lit "b.brstm"; lit "a.brstm"; lit "B.brstm"]
           [lit "a.brstm"; lit "B.brstm"; lit "b.brstm"]).
  apply (Permutation_cons_append [lit "a.brstm"; lit "B.brstm"]
           (lit "b.brstm")).
Defined.

Section VerifyMore.
Context `{Runtime}.

Lemma no_passed_line (lines : list str) :
  Forall (λ line, starts_with passed_start line = false) lines →
  passed_line ∉ lines.
Proof.
  intros Hall Hin. rewrite Forall_forall in Hall.
  apply Hall in Hin. by vm_compute in Hin.
Qed.

Lemma listed_no_passed_line (title : str) (names : gset str) :
  Forall (λ line, starts_with passed_start line = false)
    (Verify.listed title names).
Proof.
  unfold Verify.listed. case_decide; [constructor|].
  constructor; [reflexivity|]. apply Forall_app. split.
  - apply Forall_fmap, Forall_true. intros f. reflexivity.
  - case_decide; repeat constructor.
Qed.

Lemma small_lines_no_passed_line (fs : gmap str bytes) (small : list path) :
  Forall (λ line, starts_with passed_start line = false)
    (Verify.small_lines fs small).
Proof.
  unfold Verify.small_lines. case_decide; [constructor|].
  constructor; [reflexivity|].
  apply Forall_fmap, Forall_true. intros f. reflexivity.
Qed.

Lemma count_lines_no_passed_line (n m : nat) :
  Forall (λ line, starts_with passed_start line = false)
    (Verify.count_lines n m).
Proof.
  unfold Verify.count_lines. repeat constructor. by case_decide.
Qed.

Lemma failed_verdict_no_passed_line (n : nat) (missing extra : gset str)
    (small : list path) :
  ¬ (n = 267%nat ∧ missing = ∅ ∧ extra = ∅ ∧ small = []) →
  Forall (λ line, starts_with passed_start line = false)
    (Verify.verdict_lines n missing extra small).
Proof.
  intros Hnot. unfold Verify.verdict_lines. rewrite decide_False by done.
  constructor; [reflexivity|].
  repeat (apply Forall_app; split); case_decide; repeat constructor.
Qed.

(** X20. The verdict that every check passed is printed exactly when the
    comparison is made and finds 267 files, no missing name, no extra
    name and no small file; and then every expected song has its file, of
    100000 bytes or more, in the download directory, and every file found
    there is the file of an expected song. *)
Theorem passed_verdict_means_every_song_is_there (expected_songs : list str)
    (fs : gmap str bytes) (dirs : gset str) :
  (passed_line ∈ Verify.printed expected_songs fs dirs ↔
   ∃ r, Verify.verify_downloads expected_songs fs dirs = Some r
        ∧ Verify.all_passed r = true)
  ∧ (passed_line ∈ Verify.printed expected_songs fs dirs →
     length (glob (lit "mkw_music_brstm") (lit ".brstm") fs) = 267%nat
     ∧ (∀ song, song ∈ expected_songs →
          ∃ p, p ∈ glob (lit "mkw_music_brstm") (lit ".brstm") fs
               ∧ fname p = sanitize_filename song ++ lit ".brstm"
               ∧ 100000 ≤ Verify.size_of fs p)
     ∧ (∀ p, p ∈ glob (lit "mkw_music_brstm") (lit ".brstm") fs →
          ∃ song, song ∈ expected_songs
                  ∧ fname p = sanitize_filename song ++ lit ".brstm")).
Proof.
  assert (passed_line ∈ Verify.printed expected_songs fs dirs ↔
          ∃ r, Verify.verify_downloads expected_songs fs dirs = Some r
               ∧ Verify.all_passed r = true) as Hiff.
  { unfold Verify.printed, Verify.verify_downloads.
    destruct (decide (expected_songs = [])) as [Hnil|Hsongs].
    { split; [|by intros (r & ? & _)].
      intros Hin. exfalso. revert Hin. apply no_passed_line.
      by repeat constructor. }
    destruct (bool_decide (lit "mkw_music_brstm" ∈ dirs)) eqn:Hdir;
      cbn [negb].
    2: { split; [|by intros (r & ? & _)].
         intros Hin. exfalso. revert Hin. apply no_passed_line.
         by repeat constructor. }
    cbn zeta.
    set (files := glob (lit "mkw_music_brstm") (lit ".brstm") fs).
    set (missing := (_ ∖ _ : gset str)).
    set (extra := (_ ∖ _ : gset str)).
    set (small := filter _ files).
    destruct (decide (length files = 267%nat ∧ missing = ∅ ∧ extra = ∅
                      ∧ small = [])) as [Hpass|Hfail].
    - split.
      + intros _. eexists. split; [reflexivity|].
        cbn [Verify.all_passed]. by apply bool_decide_eq_true.
      + intros _. apply elem_of_app; right. apply elem_of_cons; right.
        do 4 (apply elem_of_app; right). apply elem_of_cons; right.
        do 2 (apply elem_of_app; right). apply elem_of_cons; right.
        unfold Verify.verdict_lines. rewrite decide_True by done.
        apply elem_of_cons. by left.
    - split.
      + intros Hin. exfalso. revert Hin. apply no_passed_line.
        apply Forall_app. split; [by repeat constructor|].
        constructor; [reflexivity|].
        apply Forall_app. split; [apply count_lines_no_passed_line|].
        apply Forall_app. split; [apply listed_no_passed_line|].
        apply Forall_app. split; [apply listed_no_passed_line|].
        apply Forall_app. split.
        { unfold Verify.matching_lines.
          destruct (decide (missing = ∅ ∧ extra = ∅));
            constructor; [reflexivity|constructor]. }
        constructor; [reflexivity|].
        apply Forall_app. split.
        { unfold Verify.size_lines. cbn zeta. by repeat constructor. }
        apply Forall_app. split; [apply small_lines_no_passed_line|].
        constructor; [reflexivity|].
        by apply failed_verdict_no_passed_line.
      + intros (r & [= <-] & Hall). cbn [Verify.all_passed] in Hall.
        by apply bool_decide_eq_true in Hall. }
  split; [exact Hiff|].
  intros (r & Hr & Hall)%Hiff. revert Hr Hall.
  unfold Verify.verify_downloads. case_decide; [done|].
  destruct (negb _); [done|]. intros [= <-].
  cbn [Verify.all_passed].
  set (files := glob (lit "mkw_music_brstm") (lit ".brstm") fs).
  intros (Hcount & Hmissing & Hextra & Hsmall)%bool_decide_eq_true.
  split_and!.
  - done.
  - intros song Hsong.
    assert (sanitize_filename song ++ lit ".brstm"
            ∈ (list_to_set (map fname files) : gset str)) as Hin.
    { apply dec_stable. intros Hnot.
      apply (not_elem_of_empty (C := gset str)
               (sanitize_filename song ++ lit ".brstm")).
      rewrite <- Hmissing. apply elem_of_difference. split; [|done].
      apply elem_of_list_to_set, list_elem_of_fmap. eauto. }
    apply elem_of_list_to_set, list_elem_of_fmap in Hin as (p & Hname & Hp).
    exists p. split_and!; [done..|].
    apply N.le_ngt. intros Hlt.
    assert (p ∈ filter (λ f, Verify.size_of fs f < 100000) files) as Hf.
    { by apply list_elem_of_filter. }
    rewrite Hsmall in Hf. by apply not_elem_of_nil in Hf.
  - intros p Hp.
    assert (fname p
            ∈ (list_to_set
                 (map (λ song, sanitize_filename song ++ lit ".brstm")
                      expected_songs) : gset str)) as Hin.
    { apply dec_stable. intros Hnot.
      apply (not_elem_of_empty (C := gset str) (fname p)).
      rewrite <- Hextra. apply elem_of_difference. split; [|done].
      apply elem_of_list_to_set, list_elem_of_fmap. eauto. }
    apply elem_of_list_to_set, list_elem_of_fmap in Hin as (song & ? & ?).
    eauto.
Qed.

End VerifyMore.

(** ** The generator of the URL lists *)

Lemma lines_from_line (line_rev line rest : str) :
  10 ∉ line →
  lines_from line_rev (line ++ 10 :: rest)
  = (reverse line_rev ++ line) :: lines_from [] rest.
Proof.
  revert line_rev. induction line as [|c line IH]; intros line_rev Hno.
  - cbn. by rewrite app_nil_r.
  - apply not_elem_of_cons in Hno as [Hc Hno]. cbn [app lines_from].
    rewrite (proj2 (N.eqb_neq c 10)) by done.
    rewrite IH by done. by rewrite reverse_cons, <- (assoc_L (++)).
Qed.

Lemma appended_nil (name : str) (w : Generator.World) :
  appended name [] w = w.
Proof.
  unfold appended, Generator.set_files. destruct w as [f m]; cbn. f_equal.
  apply map_eq. intros k. destruct (decide (k = name)) as [->|Hk].
  - rewrite lookup_alter_eq. destruct (f !! name); cbn; [|done].
    by rewrite app_nil_r.
  - by rewrite lookup_alter_ne.
Qed.

Lemma appended_appended (name a b : str) (w : Generator.World) :
  appended name b (appended name a w) = appended name (a ++ b) w.
Proof.
  unfold appended, Generator.set_files; cbn. f_equal.
  apply map_eq. intros k. destruct (decide (k = name)) as [->|Hk].
  - rewrite !lookup_alter_eq. destruct (Generator.files w !! name); cbn;
      [|done]. by rewrite (assoc_L (++)).
  - by rewrite !lookup_alter_ne.
Qed.

Lemma appended_lookup (name text : str) (w : Generator.World) (old : str) :
  Generator.files w !! name = Some old →
  Generator.files (appended name text w) !! name = Some (old ++ text).
Proof. intros Hold. cbn. by rewrite lookup_alter_eq, Hold. Qed.

Lemma appended_other (name text : str) (w : Generator.World) (k : str) :
  k ≠ name →
  Generator.files (appended name text w) !! k = Generator.files w !! k.
Proof. intros Hk. cbn. by rewrite lookup_alter_ne. Qed.

Section GeneratorFacts.
Import Generator.
Context `{Runtime}.

Lemma write_run (name text : str) (w : World) :
  write name text w = (Ok tt, appended name text w).
Proof. done. Qed.

Lemma write_each (name : str) (body : Generate.Song → Run World unit)
    (text : Generate.Song → str) (songs : list Generate.Song) (w : World) :
  (∀ song w0, body song w0 = (Ok tt, appended name (text song) w0)) →
  for_each body songs w
  = (Ok tt, appended name (concat (map text songs)) w).
Proof.
  intros Hbody. revert w. induction songs as [|song songs IH]; intros w.
  - cbn. by rewrite appended_nil.
  - cbn [for_each map concat].
    rewrite (run_bind_ok _ _ _ _ _ (Hbody song w)), IH.
    by rewrite appended_appended.
Qed.

(** The run of [main] on a scrape that gave songs. *)
Lemma main_run (page : fetched) (w : World) :
  Generate.fetch_song_data page ≠ [] →
  main page w
  = (Ok tt,
     set_modes <[lit "download_with_wget.sh" := 493]>
       (appended (lit "mkw_aria2_input.txt")
          (concat (map aria_entry (Generate.fetch_song_data page)))
          (set_files <[lit "mkw_aria2_input.txt" := []]>
             (appended (lit "download_with_wget.sh")
                (script_head
                 ++ concat (map script_entry (Generate.fetch_song_data page)))
                (set_files <[lit "download_with_wget.sh" := []]>
                   (appended (lit "mkw_urls.txt")
                      (concat (map url_line (Generate.fetch_song_data page)))
                      (set_files <[lit "mkw_urls.txt" := []]> w))))))).
Proof.
  intros Hsongs. unfold main. rewrite decide_False by done. cbn zeta.
  unfold open_w, chmod.
  erewrite run_bind_ok by reflexivity.
  erewrite run_bind_ok
    by (eapply write_each with (text := url_line); intros; apply write_run).
  erewrite run_bind_ok by reflexivity.
  do 5 (erewrite run_bind_ok by apply write_run).
  erewrite run_bind_ok.
  2: { eapply write_each with (text := script_entry). intros song w0.
       do 5 (erewrite run_bind_ok by apply write_run).
       rewrite write_run, !appended_appended. unfold script_entry.
       by rewrite <- !(assoc_L (++)). }
  erewrite run_bind_ok by reflexivity.
  erewrite run_bind_ok.
  2: { eapply write_each with (text := aria_entry). intros song w0.
       do 2 (erewrite run_bind_ok by apply write_run).
       rewrite write_run, !appended_appended. unfold aria_entry.
       by rewrite <- !(assoc_L (++)). }
  rewrite !appended_appended. unfold script_head.
  by rewrite <- !(assoc_L (++)).
Qed.

Lemma lines_of_url_lines (songs : list Generate.Song) :
  Forall (λ song, 10 ∉ Generate.download_url song) songs →
  lines_of (concat (map url_line songs)) = map Generate.download_url songs.
Proof.
  unfold lines_of. induction 1 as [|song songs Hno _ IH]; [done|].
  cbn [map concat]. unfold url_line at 1, nl.
  rewrite <- (assoc_L (++)). cbn [app].
  by rewrite (lines_from_line [] _ _ Hno), IH.
Qed.

Lemma scraped_url_is_one_line (page : fetched) (song : Generate.Song) :
  song ∈ Generate.fetch_song_data page → 10 ∉ Generate.download_url song.
Proof.
  intros (i & n & -> & _ & Hdigits & _)%generator_song_shape.
  cbn [Generate.download_url]. rewrite !not_elem_of_app. split_and!.
  - apply (bool_decide_unpack _). by vm_compute.
  - apply (bool_decide_unpack _). by vm_compute.
  - intros Hin%Hdigits. done.
Qed.

(** X21. [main] writes nothing when the scrape gave no song.  Otherwise it
    writes three files anew, whatever they held: the URL list with a line
    for each song, the [wget] script with its head and an entry for each
    song, and the input of [aria2c] with an entry for each song, all in
    the order of the scrape; it makes the script executable and touches no
    other file. *)
Theorem generator_writes_three_lists (page : fetched) (w : World) :
  (Generate.fetch_song_data page = [] → main page w = (Ok tt, w))
  ∧ (Generate.fetch_song_data page ≠ [] →
     ∃ w1,
       main page w = (Ok tt, w1)
       ∧ files w1 !! lit "mkw_urls.txt"
         = Some (concat (map url_line (Generate.fetch_song_data page)))
       ∧ files w1 !! lit "download_with_wget.sh"
         = Some (script_head
                 ++ concat (map script_entry (Generate.fetch_song_data page)))
       ∧ files w1 !! lit "mkw_aria2_input.txt"
         = Some (concat (map aria_entry (Generate.fetch_song_data page)))
       ∧ modes w1 = <[lit "download_with_wget.sh" := 493]> (modes w)
       ∧ ∀ k, k ≠ lit "mkw_urls.txt" → k ≠ lit "download_with_wget.sh" →
              k ≠ lit "mkw_aria2_input.txt" →
              files w1 !! k = files w !! k).
Proof.
  split.
  - intros Hnone. unfold main. by rewrite decide_True.
  - intros Hsongs. eexists. split; [by apply main_run|].
    assert (lit "mkw_urls.txt" ≠ lit "download_with_wget.sh") as H12
      by by vm_compute.
    assert (lit "mkw_urls.txt" ≠ lit "mkw_aria2_input.txt") as H13
      by by vm_compute.
    assert (lit "download_with_wget.sh" ≠ lit "mkw_aria2_input.txt") as H23
      by by vm_compute.
    cbn [files modes set_modes].
    split_and!; [| | |done|].
    + rewrite appended_other by done. cbn [files set_files].
      rewrite lookup_insert_ne by done.
      rewrite appended_other by done. cbn [files set_files].
      rewrite lookup_insert_ne by done.
      rewrite (appended_lookup _ _ _ []); [done|]. cbn. apply lookup_insert_eq.
    + rewrite appended_other by done. cbn [files set_files].
      rewrite lookup_insert_ne by done.
      rewrite (appended_lookup _ _ _ []); [done|]. cbn. apply lookup_insert_eq.
    + rewrite (appended_lookup _ _ _ []); [done|]. cbn. apply lookup_insert_eq.
    + intros k Hk1 Hk2 Hk3.
      rewrite appended_other by done. cbn [files set_files].
      rewrite lookup_insert_ne by done.
      rewrite appended_other by done. cbn [files set_files].
      rewrite lookup_insert_ne by done.
      rewrite appended_other by done. cbn [files set_files].
      by rewrite lookup_insert_ne by done.
Qed.

(** X22. The URL list reads back as the scrape: when the scrape gave songs,
    the lines of [mkw_urls.txt], read at the line feeds, are the download
    URLs of the scraped songs, one line for each song and in their
    order. *)
Theorem url_list_reads_back (page : fetched) (w : World) :
  Generate.fetch_song_data page ≠ [] →
  ∃ text,
    files (main page w).2 !! lit "mkw_urls.txt" = Some text
    ∧ lines_of text
      = map Generate.download_url (Generate.fetch_song_data page).
Proof.
  intros Hsongs. rewrite (main_run page w Hsongs). eexists. split.
  - cbn [snd files set_modes].
    rewrite appended_other by by vm_compute. cbn [files set_files].
    rewrite lookup_insert_ne by by vm_compute.
    rewrite appended_other by by vm_compute. cbn [files set_files].
    rewrite lookup_insert_ne by by vm_compute.
    rewrite (appended_lookup _ _ _ []); [done|]. cbn. apply lookup_insert_eq.
  - cbn [app]. apply lines_of_url_lines, Forall_forall.
    intros song. apply scraped_url_is_one_line.
Qed.

End GeneratorFacts.

(** The URL list written over an old one, for the page of one song. *)
Lemma url_list_witness :
  ∃ text,
    Generator.files (@Generator.main ascii_runtime (Page plain_page)
                       stale_world).2 !! lit "mkw_urls.txt" = Some text
    ∧ lines_of text
      = map Generate.download_url
          (@Generate.fetch_song_data ascii_runtime (Page plain_page)).
Proof.
  apply (@url_list_reads_back ascii_runtime (Page plain_page) stale_world).
  vm_compute. discriminate.
Defined.
